(** * CUDA tracing context: event pool, free list and submission queue

    A shallow embedding of [iree/hal/drivers/cuda/tracing.c] (the build with
    [IREE_TRACING_FEATURE_INSTRUMENTATION_DEVICE]).  The event pool is an
    array; a pointer into it is an index, [None] is [NULL].  Every function
    is sequential here: the [event_mutex] is taken on entry and released on
    every exit path, so the lock is not part of the state.  All entry points
    return at once on a null context; the definitions below are the bodies
    for a non-null one. *)

From Stdlib Require Import ZArith Lia.
From stdpp Require Import base tactics option list gmap.

Local Open Scope Z_scope.
Local Open Scope nat_scope.

(** ** Outcomes of running C code *)

Inductive fault :=
  | AssertionFailure   (* an IREE_ASSERT whose condition is false *)
  | NullDereference    (* p->field with p == NULL *)
  | WildDereference    (* p->field with p outside the pool *)
  | Divergence.        (* a while loop that walks a cyclic list *)

Inductive outcome (A : Type) :=
  | Done (a : A)
  | Fault (f : fault).
Arguments Done {A} a.
Arguments Fault {A} f.

#[global] Instance outcome_ret : MRet outcome := @Done.
#[global] Instance outcome_bind : MBind outcome :=
  λ A B k m, match m with Done a => k a | Fault f => Fault f end.

(** ** Data model *)

Definition CUevent := nat.
Definition event_ptr := option nat.

Inductive CUresult :=
  | CUDA_SUCCESS
  | CUDA_ERROR (code : nat).

Definition is_cuda_success (r : CUresult) : bool :=
  match r with CUDA_SUCCESS => true | CUDA_ERROR _ => false end.

Record iree_hal_cuda_tracing_context_event_t := mk_event {
  event : CUevent;
  next_in_command_buffer : event_ptr;
  next_submission : event_ptr;
  was_submitted : bool
}.

Record iree_hal_cuda_tracing_context_event_list_t := mk_event_list {
  head : event_ptr;
  tail : event_ptr
}.

Record iree_hal_cuda_tracing_context_t := mk_context {
  id : Z;
  base_event : CUevent;
  event_freelist_head : event_ptr;
  submitted_event_list : iree_hal_cuda_tracing_context_event_list_t;
  query_capacity : nat;
  verbosity : Z;
  event_pool : list iree_hal_cuda_tracing_context_event_t
}.

Definition IREE_HAL_CUDA_TRACING_DEFAULT_QUERY_CAPACITY : nat :=
  Eval cbv in Z.to_nat (16 * 1024 - 256)%Z.

(** The driver entry points the file calls.  [cuEventCreate n] is the n-th
    creation ([None] when it fails); [cuEventElapsedTime base e] stands for
    the [int64_t] obtained from the elapsed milliseconds (the float
    arithmetic is not modelled). *)
Record iree_hal_cuda_dynamic_symbols_t := mk_symbols {
  cuEventCreate : nat → option CUevent;
  cuEventRecord : CUevent → CUresult;
  cuEventSynchronize : CUevent → CUresult;
  cuEventQuery : CUevent → CUresult;
  cuEventElapsedTime : CUevent → CUevent → Z
}.

(** Calls made to the tracing sink (source locations and names elided). *)
Inductive sink_call :=
  | iree_tracing_gpu_zone_begin (context_id query_id : Z)
  | iree_tracing_gpu_zone_begin_external (context_id query_id : Z)
  | iree_tracing_gpu_zone_end (context_id query_id : Z)
  | iree_tracing_gpu_zone_notify (context_id query_id gpu_timestamp : Z).

Definition uint16_t (z : Z) : Z := (z mod 2 ^ 16)%Z.
Definition uint32_t (z : Z) : Z := (z mod 2 ^ 32)%Z.

(** ** Field updates and memory access *)

Definition set_event (v : CUevent) (e : iree_hal_cuda_tracing_context_event_t) :=
  mk_event v (next_in_command_buffer e) (next_submission e) (was_submitted e).
Definition set_next_in_command_buffer (p : event_ptr)
    (e : iree_hal_cuda_tracing_context_event_t) :=
  mk_event (event e) p (next_submission e) (was_submitted e).
Definition set_next_submission (p : event_ptr)
    (e : iree_hal_cuda_tracing_context_event_t) :=
  mk_event (event e) (next_in_command_buffer e) p (was_submitted e).
Definition set_was_submitted (b : bool)
    (e : iree_hal_cuda_tracing_context_event_t) :=
  mk_event (event e) (next_in_command_buffer e) (next_submission e) b.

Definition set_event_freelist_head (p : event_ptr)
    (c : iree_hal_cuda_tracing_context_t) :=
  mk_context (id c) (base_event c) p (submitted_event_list c)
             (query_capacity c) (verbosity c) (event_pool c).
Definition set_submitted_event_list
    (l : iree_hal_cuda_tracing_context_event_list_t)
    (c : iree_hal_cuda_tracing_context_t) :=
  mk_context (id c) (base_event c) (event_freelist_head c) l
             (query_capacity c) (verbosity c) (event_pool c).
Definition set_event_pool (p : list iree_hal_cuda_tracing_context_event_t)
    (c : iree_hal_cuda_tracing_context_t) :=
  mk_context (id c) (base_event c) (event_freelist_head c)
             (submitted_event_list c) (query_capacity c) (verbosity c) p.

Definition load (pool : list iree_hal_cuda_tracing_context_event_t)
    (p : event_ptr) : outcome iree_hal_cuda_tracing_context_event_t :=
  match p with
  | None => Fault NullDereference
  | Some i =>
      match pool !! i with
      | Some e => Done e
      | None => Fault WildDereference
      end
  end.

(** [p->field = v]: the write [f] applied to the slot [p] points to. *)
Definition store (pool : list iree_hal_cuda_tracing_context_event_t)
    (p : event_ptr)
    (f : iree_hal_cuda_tracing_context_event_t →
         iree_hal_cuda_tracing_context_event_t)
    : outcome (list iree_hal_cuda_tracing_context_event_t) :=
  match p with
  | None => Fault NullDereference
  | Some i =>
      match pool !! i with
      | Some e => Done (<[i := f e]> pool)
      | None => Fault WildDereference
      end
  end.

(** [event - &context->event_pool[0]] *)
Definition pool_index (p : nat) : Z := Z.of_nat p.

(** ** iree_hal_cuda_tracing_context_allocate *)

(** The body of the pool loop for slot [i], after [cuEventCreate] returned
    the handle [ev]. *)
Definition allocate_event_pool_slot (query_capacity : nat) (i : nat)
    (ev : CUevent) (pool : list iree_hal_cuda_tracing_context_event_t) :=
  let pool := alter (set_event ev) i pool in
  let pool :=
    if (0 <? i)%nat
    then alter (set_next_in_command_buffer (Some i)) (i - 1) pool
    else pool in
  let pool := alter (set_next_submission None) i pool in
  let pool := alter (set_was_submitted false) i pool in
  if (i + 1 =? query_capacity)%nat
  then alter (set_next_in_command_buffer None) i pool
  else pool.

(** [for (i = ...; i < query_capacity; ++i)] with [remaining] iterations
    left; [None] is the [break] on a failed [cuEventCreate]. *)
Fixpoint allocate_event_pool (symbols : iree_hal_cuda_dynamic_symbols_t)
    (query_capacity remaining i : nat)
    (pool : list iree_hal_cuda_tracing_context_event_t)
    : option (list iree_hal_cuda_tracing_context_event_t) :=
  match remaining with
  | O => Some pool
  | S remaining' =>
      match cuEventCreate symbols i with
      | None => None
      | Some ev =>
          allocate_event_pool symbols query_capacity remaining' (S i)
            (allocate_event_pool_slot query_capacity i ev pool)
      end
  end.

Definition iree_hal_cuda_tracing_context_initial_calibration
    (symbols : iree_hal_cuda_dynamic_symbols_t) (base : CUevent) : bool :=
  is_cuda_success (cuEventRecord symbols base) &&
  is_cuda_success (cuEventSynchronize symbols base).

(** [memory] is the freshly allocated pool array (contents unspecified),
    [tracy_id] the zone id the sink hands back.  [None] is a failed
    allocation; the half-built context is freed before returning. *)
Definition iree_hal_cuda_tracing_context_allocate
    (symbols : iree_hal_cuda_dynamic_symbols_t)
    (stream_tracing_verbosity : Z) (tracy_id : Z)
    (memory : list iree_hal_cuda_tracing_context_event_t)
    : option iree_hal_cuda_tracing_context_t :=
  let capacity := length memory in
  pool ← allocate_event_pool symbols capacity capacity 0 memory;
  base ← cuEventCreate symbols capacity;
  if iree_hal_cuda_tracing_context_initial_calibration symbols base
  then Some (mk_context tracy_id base (Some 0) (mk_event_list None None)
                        capacity stream_tracing_verbosity pool)
  else None.

(** The entry point together with the host allocation it begins with:
    [allocation] is the block [iree_allocator_malloc] returns for the
    context, of which the model keeps the event pool, and [None] when the
    allocator fails.  Then the status is not ok, every later step is
    skipped and no context is returned. *)
Definition iree_hal_cuda_tracing_context_allocate_on
    (allocation : option (list iree_hal_cuda_tracing_context_event_t))
    (symbols : iree_hal_cuda_dynamic_symbols_t)
    (stream_tracing_verbosity : Z) (tracy_id : Z)
    : option iree_hal_cuda_tracing_context_t :=
  memory ← allocation;
  iree_hal_cuda_tracing_context_allocate symbols stream_tracing_verbosity
    tracy_id memory.

(** ** iree_hal_cuda_tracing_context_collect *)

Section Collect.
Context (symbols : iree_hal_cuda_dynamic_symbols_t).

(** Inner per-event loop; the two early exits are the [break]s. *)
Fixpoint collect_events (fuel : nat) (context_id : Z) (base : CUevent)
    (pool : list iree_hal_cuda_tracing_context_event_t) (ev : event_ptr)
    : outcome (list sink_call) :=
  match ev with
  | None => Done []
  | Some i =>
      match fuel with
      | O => Fault Divergence
      | S fuel' =>
          e ← load pool ev;
          let query_id := uint32_t (pool_index i) in
          if negb (is_cuda_success (cuEventSynchronize symbols (event e)))
          then Done []
          else if negb (is_cuda_success (cuEventQuery symbols (event e)))
          then Done []
          else
            let gpu_timestamp :=
              cuEventElapsedTime symbols base (event e) in
            rest ← collect_events fuel' context_id base pool
                     (next_in_command_buffer e);
            Done (iree_tracing_gpu_zone_notify context_id query_id
                    gpu_timestamp :: rest)
      end
  end.

(** Outer per-command-buffer loop. *)
Fixpoint collect_submissions (fuel : nat)
    (context : iree_hal_cuda_tracing_context_t) (events : event_ptr)
    : outcome (iree_hal_cuda_tracing_context_t * list sink_call) :=
  match events with
  | None => Done (context, [])
  | Some _ =>
      match fuel with
      | O => Fault Divergence
      | S fuel' =>
          let pool := event_pool context in
          notes ← collect_events (S (length pool)) (id context)
                    (base_event context) pool events;
          e ← load pool events;
          let next := next_submission e in
          pool' ← store pool events (set_was_submitted true);
          let context' :=
            set_submitted_event_list
              (mk_event_list next (tail (submitted_event_list context)))
              (set_event_pool pool' context) in
          '(context'', notes') ← collect_submissions fuel' context' next;
          Done (context'', notes ++ notes')
      end
  end.

Definition iree_hal_cuda_tracing_context_collect
    (context : iree_hal_cuda_tracing_context_t)
    : outcome (iree_hal_cuda_tracing_context_t * list sink_call) :=
  match head (submitted_event_list context) with
  | None => Done (context, [])
  | Some _ =>
      collect_submissions (S (length (event_pool context))) context
        (head (submitted_event_list context))
  end.
End Collect.

(** ** iree_hal_cuda_tracing_context_free

    Teardown: a final collect, then the events and the context are
    released.  What remains observable is what that collect tells the
    sink. *)
Definition iree_hal_cuda_tracing_context_free
    (symbols : iree_hal_cuda_dynamic_symbols_t)
    (context : option iree_hal_cuda_tracing_context_t)
    : outcome (list sink_call) :=
  match context with
  | None => Done []
  | Some c =>
      '(_, notes) ← iree_hal_cuda_tracing_context_collect symbols c;
      Done notes
  end.

(** ** iree_hal_cuda_tracing_notify_submitted *)

Definition iree_hal_cuda_tracing_notify_submitted
    (context : iree_hal_cuda_tracing_context_t)
    (event_list : iree_hal_cuda_tracing_context_event_list_t)
    : outcome iree_hal_cuda_tracing_context_t :=
  match head event_list with
  | None => Done context
  | Some _ =>
      match head (submitted_event_list context) with
      | None =>
          Done (set_submitted_event_list
                  (mk_event_list (head event_list) (head event_list)) context)
      | Some _ =>
          pool' ← store (event_pool context)
                    (tail (submitted_event_list context))
                    (set_next_submission (head event_list));
          Done (set_submitted_event_list
                  (mk_event_list (head (submitted_event_list context))
                                 (head event_list))
                  (set_event_pool pool' context))
      end
  end.

(** ** iree_hal_cuda_tracing_free *)

(** The loop that reports a zero timestamp for every event of a list that
    was never submitted. *)
Fixpoint free_notify_events (fuel : nat) (context_id : Z)
    (pool : list iree_hal_cuda_tracing_context_event_t) (ev : event_ptr)
    : outcome (list sink_call) :=
  match ev with
  | None => Done []
  | Some i =>
      match fuel with
      | O => Fault Divergence
      | S fuel' =>
          e ← load pool ev;
          let query_id := uint32_t (pool_index i) in
          rest ← free_notify_events fuel' context_id pool
                   (next_in_command_buffer e);
          Done (iree_tracing_gpu_zone_notify context_id query_id 0 :: rest)
      end
  end.

Definition iree_hal_cuda_tracing_free
    (context : iree_hal_cuda_tracing_context_t)
    (event_list : iree_hal_cuda_tracing_context_event_list_t)
    : outcome (iree_hal_cuda_tracing_context_t *
               iree_hal_cuda_tracing_context_event_list_t *
               list sink_call) :=
  match head event_list with
  | None => Done (context, event_list, [])
  | Some _ =>
      let pool := event_pool context in
      h ← load pool (head event_list);
      notes ←
        (if negb (was_submitted h)
         then free_notify_events (S (length pool)) (id context) pool
                (head event_list)
         else Done []);
      match event_freelist_head context with
      | None =>
          Done (set_event_freelist_head (head event_list) context,
                event_list, notes)
      | Some _ =>
          pool ← store pool (head event_list) (set_next_submission None);
          pool ← store pool (head event_list) (set_was_submitted false);
          pool ← store pool (tail event_list)
                   (set_next_in_command_buffer (event_freelist_head context));
          Done (set_event_freelist_head (head event_list)
                  (set_event_pool pool context),
                mk_event_list None None, notes)
      end
  end.

(** ** Query insertion *)

Definition iree_hal_cuda_tracing_context_event_list_append_event
    (pool : list iree_hal_cuda_tracing_context_event_t)
    (event_list : iree_hal_cuda_tracing_context_event_list_t) (ev : event_ptr)
    : outcome (list iree_hal_cuda_tracing_context_event_t *
               iree_hal_cuda_tracing_context_event_list_t) :=
  match head event_list with
  | None => Done (pool, mk_event_list ev ev)
  | Some _ =>
      pool' ← store pool (tail event_list) (set_next_in_command_buffer ev);
      Done (pool', mk_event_list (head event_list) ev)
  end.

(** [IREE_ASSERT(cond)]: checked when assertions are compiled in, absent
    under [NDEBUG]. *)
Definition IREE_ASSERT (enabled : bool) (cond : bool) : outcome unit :=
  if enabled && negb cond then Fault AssertionFailure else Done tt.

Section InsertQuery.
(** [true] for a build with assertions, [false] for an [NDEBUG] build. *)
Context (assertions : bool).

Definition iree_hal_cuda_stream_tracing_context_insert_query
    (context : iree_hal_cuda_tracing_context_t)
    (event_list : iree_hal_cuda_tracing_context_event_list_t)
    : outcome (iree_hal_cuda_tracing_context_t *
               iree_hal_cuda_tracing_context_event_list_t * Z) :=
  let ev := event_freelist_head context in
  e ← load (event_pool context) ev;
  let context := set_event_freelist_head (next_in_command_buffer e) context in
  let query_id := uint32_t (from_option pool_index 0%Z ev) in
  _ ← IREE_ASSERT assertions (bool_decide (next_in_command_buffer e ≠ None));
  pool ← store (event_pool context) ev (set_next_in_command_buffer None);
  (* cuEventRecord(event->event, stream): result ignored *)
  '(pool, event_list) ←
    iree_hal_cuda_tracing_context_event_list_append_event pool event_list ev;
  Done (set_event_pool pool context, event_list, uint16_t query_id).

(** [node_added] is whether [cuGraphAddEventRecordNode] returned success. *)
Definition iree_hal_cuda_graph_tracing_context_insert_query
    (node_added : bool)
    (context : iree_hal_cuda_tracing_context_t)
    (event_list : iree_hal_cuda_tracing_context_event_list_t)
    : outcome (iree_hal_cuda_tracing_context_t *
               iree_hal_cuda_tracing_context_event_list_t * Z) :=
  let ev := event_freelist_head context in
  e ← load (event_pool context) ev;
  let context := set_event_freelist_head (next_in_command_buffer e) context in
  let query_id := uint32_t (from_option pool_index 0%Z ev) in
  _ ← IREE_ASSERT assertions (bool_decide (next_in_command_buffer e ≠ None));
  pool ← store (event_pool context) ev (set_next_in_command_buffer None);
  _ ← IREE_ASSERT assertions node_added;
  '(pool, event_list) ←
    iree_hal_cuda_tracing_context_event_list_append_event pool event_list ev;
  Done (set_event_pool pool context, event_list, uint16_t query_id).

(** *** Zone begin / end *)

Definition zone_result : Type :=
  iree_hal_cuda_tracing_context_t *
  iree_hal_cuda_tracing_context_event_list_t * list sink_call.

Definition iree_hal_cuda_stream_tracing_zone_begin_impl
    (context : iree_hal_cuda_tracing_context_t)
    (event_list : iree_hal_cuda_tracing_context_event_list_t)
    (verbosity_level : Z) : outcome zone_result :=
  if (verbosity_level >? verbosity context)%Z
  then Done (context, event_list, [])
  else
    '(context', event_list', query_id) ←
      iree_hal_cuda_stream_tracing_context_insert_query context event_list;
    Done (context', event_list',
          [iree_tracing_gpu_zone_begin (id context') query_id]).

Definition iree_hal_cuda_stream_tracing_zone_begin_external_impl
    (context : iree_hal_cuda_tracing_context_t)
    (event_list : iree_hal_cuda_tracing_context_event_list_t)
    (verbosity_level : Z) : outcome zone_result :=
  if (verbosity_level >? verbosity context)%Z
  then Done (context, event_list, [])
  else
    '(context', event_list', query_id) ←
      iree_hal_cuda_stream_tracing_context_insert_query context event_list;
    Done (context', event_list',
          [iree_tracing_gpu_zone_begin_external (id context') query_id]).

Definition iree_hal_cuda_graph_tracing_zone_begin_external_impl
    (node_added : bool)
    (context : iree_hal_cuda_tracing_context_t)
    (event_list : iree_hal_cuda_tracing_context_event_list_t)
    (verbosity_level : Z) : outcome zone_result :=
  if (verbosity_level >? verbosity context)%Z
  then Done (context, event_list, [])
  else
    '(context', event_list', query_id) ←
      iree_hal_cuda_graph_tracing_context_insert_query node_added
        context event_list;
    Done (context', event_list',
          [iree_tracing_gpu_zone_begin_external (id context') query_id]).

Definition iree_hal_cuda_stream_tracing_zone_end_impl
    (context : iree_hal_cuda_tracing_context_t)
    (event_list : iree_hal_cuda_tracing_context_event_list_t)
    (verbosity_level : Z) : outcome zone_result :=
  if (verbosity_level >? verbosity context)%Z
  then Done (context, event_list, [])
  else
    '(context', event_list', query_id) ←
      iree_hal_cuda_stream_tracing_context_insert_query context event_list;
    Done (context', event_list',
          [iree_tracing_gpu_zone_end (id context') query_id]).

Definition iree_hal_cuda_graph_tracing_zone_end_impl
    (node_added : bool)
    (context : iree_hal_cuda_tracing_context_t)
    (event_list : iree_hal_cuda_tracing_context_event_list_t)
    (verbosity_level : Z) : outcome zone_result :=
  if (verbosity_level >? verbosity context)%Z
  then Done (context, event_list, [])
  else
    '(context', event_list', query_id) ←
      iree_hal_cuda_graph_tracing_context_insert_query node_added
        context event_list;
    Done (context', event_list',
          [iree_tracing_gpu_zone_end (id context') query_id]).
End InsertQuery.

(** ** A client driving one context with several event lists

    Each command buffer owns an event list; [lists] maps a command buffer
    to its list (an absent entry is the empty list a new command buffer
    starts with), [sink] is everything the tracing sink has been told. *)

Record system := mk_system {
  context : iree_hal_cuda_tracing_context_t;
  lists : gmap nat iree_hal_cuda_tracing_context_event_list_t;
  sink : list sink_call
}.

Inductive op :=
  | InsertQuery (command_buffer : nat)
  | NotifySubmitted (command_buffer : nat)
  | Collect (symbols : iree_hal_cuda_dynamic_symbols_t)
  | Free (command_buffer : nat).

Definition list_of (s : system) (cb : nat) :=
  default (mk_event_list None None) (lists s !! cb).

Definition step (assertions : bool) (s : system) (o : op) : outcome system :=
  match o with
  | InsertQuery cb =>
      '(c, l, _) ← iree_hal_cuda_stream_tracing_context_insert_query
                     assertions (context s) (list_of s cb);
      Done (mk_system c (<[cb := l]> (lists s)) (sink s))
  | NotifySubmitted cb =>
      c ← iree_hal_cuda_tracing_notify_submitted (context s) (list_of s cb);
      Done (mk_system c (lists s) (sink s))
  | Collect symbols =>
      '(c, notes) ← iree_hal_cuda_tracing_context_collect symbols (context s);
      Done (mk_system c (lists s) (sink s ++ notes))
  | Free cb =>
      '(c, l, notes) ← iree_hal_cuda_tracing_free (context s) (list_of s cb);
      Done (mk_system c (<[cb := l]> (lists s)) (sink s ++ notes))
  end.

Fixpoint run (assertions : bool) (s : system) (ops : list op)
    : outcome system :=
  match ops with
  | [] => Done s
  | o :: ops' => s' ← step assertions s o; run assertions s' ops'
  end.

(** The query ids returned by a run of [n] insertions into one list. *)
Fixpoint insert_queries (assertions : bool) (n : nat)
    (c : iree_hal_cuda_tracing_context_t)
    (l : iree_hal_cuda_tracing_context_event_list_t)
    : outcome (iree_hal_cuda_tracing_context_t *
               iree_hal_cuda_tracing_context_event_list_t * list Z) :=
  match n with
  | O => Done (c, l, [])
  | S n' =>
      '(c, l, q) ← iree_hal_cuda_stream_tracing_context_insert_query
                     assertions c l;
      '(c, l, qs) ← insert_queries assertions n' c l;
      Done (c, l, q :: qs)
  end.

(** ** Example devices and memory *)

(** A device on which every call succeeds; event [n] completed at time
    [1000 * (n + 1)] after the base event. *)
Definition ready_device : iree_hal_cuda_dynamic_symbols_t :=
  mk_symbols (λ n, Some n) (λ _, CUDA_SUCCESS) (λ _, CUDA_SUCCESS)
             (λ _, CUDA_SUCCESS) (λ _ e, (1000 * (Z.of_nat e + 1))%Z).

(** The same device, except that synchronising on event [bad] fails. *)
Definition device_failing_on (bad : CUevent) : iree_hal_cuda_dynamic_symbols_t :=
  mk_symbols (λ n, Some n) (λ _, CUDA_SUCCESS)
             (λ e, if decide (e = bad) then CUDA_ERROR 719 else CUDA_SUCCESS)
             (λ _, CUDA_SUCCESS) (λ _ e, (1000 * (Z.of_nat e + 1))%Z).

(** Uninitialised pool memory of [n] slots. *)
Definition raw_memory (n : nat) :
    list iree_hal_cuda_tracing_context_event_t :=
  replicate n (mk_event 77 (Some 5) (Some 9) true).

Definition notified (s : system) : list (Z * Z) :=
  omap (λ c, match c with
             | iree_tracing_gpu_zone_notify _ q t => Some (q, t)
             | _ => None
             end) (sink s).

(** * Representation of the intrusive lists *)

Section Linked.
(** The link field the list is threaded through. *)
Context (link : iree_hal_cuda_tracing_context_event_t → event_ptr).

(** [linked pool p l]: following [link] from [p] visits exactly the slots
    [l], in this order, and then reaches [NULL]. *)
Inductive linked (pool : list iree_hal_cuda_tracing_context_event_t)
    : event_ptr → list nat → Prop :=
  | linked_nil : linked pool None []
  | linked_cons i e l :
      pool !! i = Some e →
      linked pool (link e) l →
      linked pool (Some i) (i :: l).
End Linked.


(** The events of one command buffer, or the free list. *)
Abbreviation cb_list := (linked next_in_command_buffer).
(** The command-buffer heads queued in [submitted_event_list]. *)
Abbreviation submission_list := (linked next_submission).

(** An event list handle that holds the events [l]. *)
Definition event_list_holds
    (pool : list iree_hal_cuda_tracing_context_event_t)
    (event_list : iree_hal_cuda_tracing_context_event_list_t)
    (l : list nat) : Prop :=
  cb_list pool (head event_list) l ∧ (l ≠ [] → tail event_list = last l).

(** The submission queue holds the command buffers [chains], oldest first. *)
Definition queue_holds (c : iree_hal_cuda_tracing_context_t)
    (chains : list (list nat)) : Prop :=
  ∃ heads,
    submission_list (event_pool c) (head (submitted_event_list c)) heads ∧
    Forall2 (λ h l, cb_list (event_pool c) (Some h) l) heads chains ∧
    (heads ≠ [] → tail (submitted_event_list c) = last heads).

Definition zero_notifications (context_id : Z) (l : list nat) : list sink_call :=
  (λ i, iree_tracing_gpu_zone_notify context_id (uint32_t (pool_index i)) 0) <$> l.

(** Slot [j] as the pool loop leaves it once it has reached index [i]. *)
Definition slot_initialised (symbols : iree_hal_cuda_dynamic_symbols_t)
    (capacity i : nat) (pool : list iree_hal_cuda_tracing_context_event_t)
    (j : nat) : Prop :=
  ∃ e, pool !! j = Some e ∧
       cuEventCreate symbols j = Some (event e) ∧
       next_submission e = None ∧
       was_submitted e = false ∧
       (j + 1 < i → next_in_command_buffer e = Some (j + 1)) ∧
       (j + 1 = capacity → next_in_command_buffer e = None).

(** [pool'] differs from [pool] only by writes to the
    [next_in_command_buffer] field of slots in [touched]. *)
Definition pool_writes_within (touched : list nat)
    (pool pool' : list iree_hal_cuda_tracing_context_event_t) : Prop :=
  length pool' = length pool ∧
  ∀ i e, pool !! i = Some e →
    ∃ e', pool' !! i = Some e' ∧
          event e' = event e ∧
          next_submission e' = next_submission e ∧
          was_submitted e' = was_submitted e ∧
          (i ∉ touched → e' = e).

(** Everything of a context except its pool and free-list head. *)
Definition same_header (c c' : iree_hal_cuda_tracing_context_t) : Prop :=
  id c' = id c ∧ base_event c' = base_event c ∧
  submitted_event_list c' = submitted_event_list c ∧
  query_capacity c' = query_capacity c ∧ verbosity c' = verbosity c.

(** What [iree_hal_cuda_tracing_context_collect] tells the sink about the
    event in slot [i] once the device has its timestamp. *)
Definition notification (symbols : iree_hal_cuda_dynamic_symbols_t)
    (context_id : Z) (base : CUevent)
    (pool : list iree_hal_cuda_tracing_context_event_t) (i : nat)
    : option sink_call :=
  e ← pool !! i;
  Some (iree_tracing_gpu_zone_notify context_id (uint32_t (pool_index i))
          (cuEventElapsedTime symbols base (event e))).

(** The device has completed the event in slot [i]: both
    [cuEventSynchronize] and [cuEventQuery] succeed on it. *)
Definition device_ready (symbols : iree_hal_cuda_dynamic_symbols_t)
    (pool : list iree_hal_cuda_tracing_context_event_t) (i : nat) : Prop :=
  ∃ e, pool !! i = Some e ∧
       cuEventSynchronize symbols (event e) = CUDA_SUCCESS ∧
       cuEventQuery symbols (event e) = CUDA_SUCCESS.

(** The same as a boolean. *)
Definition device_ready_b (symbols : iree_hal_cuda_dynamic_symbols_t)
    (pool : list iree_hal_cuda_tracing_context_event_t) (i : nat) : bool :=
  match pool !! i with
  | Some e =>
      is_cuda_success (cuEventSynchronize symbols (event e)) &&
      is_cuda_success (cuEventQuery symbols (event e))
  | None => false
  end.

(** The events of a command buffer in front of the first one the device
    has not completed: the ones the inner loop of collect gets to report. *)
Fixpoint resolved_prefix (symbols : iree_hal_cuda_dynamic_symbols_t)
    (pool : list iree_hal_cuda_tracing_context_event_t) (l : list nat)
    : list nat :=
  match l with
  | [] => []
  | i :: l' =>
      if device_ready_b symbols pool i
      then i :: resolved_prefix symbols pool l'
      else []
  end.

(** [pool'] is [pool] with [was_submitted] set on the slots [heads]. *)
Definition marked_submitted (heads : list nat)
    (pool pool' : list iree_hal_cuda_tracing_context_event_t) : Prop :=
  length pool' = length pool ∧
  ∀ i e, pool !! i = Some e →
    pool' !! i =
      Some (if decide (i ∈ heads) then set_was_submitted true e else e).

(** The two pools hold the same device events, slot by slot. *)
Definition same_events
    (pool pool' : list iree_hal_cuda_tracing_context_event_t) : Prop :=
  ∀ i, event <$> pool' !! i = event <$> pool !! i.

(** The query ids of the timestamp notifications among [calls], in order. *)
Definition notified_query_ids (calls : list sink_call) : list Z :=
  omap (λ c, match c with
             | iree_tracing_gpu_zone_notify _ q _ => Some q
             | _ => None
             end) calls.

(** The context [iree_hal_cuda_tracing_context_allocate] builds on
    [ready_device] for a pool of [capacity] slots. *)
Definition fresh_context (capacity : nat) : iree_hal_cuda_tracing_context_t :=
  default (mk_context 0 0 None (mk_event_list None None) 0 0 [])
    (iree_hal_cuda_tracing_context_allocate ready_device 2 1
       (raw_memory capacity)).

(** A client after [ops], started on a fresh context; [None] if the run
    faults. *)
Definition client_after (assertions : bool) (capacity : nat) (ops : list op)
    : option system :=
  match run assertions (mk_system (fresh_context capacity) ∅ []) ops with
  | Done s => Some s
  | Fault _ => None
  end.

(** One command buffer submitted and five free events. *)
Definition context_with_one_submitted : iree_hal_cuda_tracing_context_t :=
  Eval vm_compute in
    default (fresh_context 0)
      (context <$> client_after true 6 [InsertQuery 0; NotifySubmitted 0]).

(** A context whose free list is empty (an [NDEBUG] build after two
    insertions into a pool of two) and the event list that holds both
    events. *)
Definition exhausted_context : iree_hal_cuda_tracing_context_t :=
  Eval vm_compute in
    default (fresh_context 0)
      (context <$> client_after false 2 [InsertQuery 0; InsertQuery 0]).

Definition full_event_list : iree_hal_cuda_tracing_context_event_list_t :=
  mk_event_list (Some 0) (Some 1).

(** Every slot of the pool is on the free list or in the event list of
    exactly one command buffer, nothing is queued, and at least one event
    is free. *)
Definition partitioned (s : system) : Prop :=
  ∃ (fl : list nat) (chain : nat → list nat),
    cb_list (event_pool (context s)) (event_freelist_head (context s)) fl ∧
    fl ≠ [] ∧
    (∀ cb, event_list_holds (event_pool (context s)) (list_of s cb) (chain cb)) ∧
    (∀ cb i, i ∈ chain cb → i ∉ fl) ∧
    (∀ cb cb' i, i ∈ chain cb → i ∈ chain cb' → cb = cb') ∧
    (∀ i, i < length (event_pool (context s)) → i ∈ fl ∨ ∃ cb, i ∈ chain cb).

Definition insert_or_free (o : op) : Prop :=
  match o with
  | InsertQuery _ | Free _ => True
  | NotifySubmitted _ | Collect _ => False
  end.

(** [pool'] has the slots of [pool], each related to its old content by
    [R]. *)
Definition slotwise
    (R : nat → iree_hal_cuda_tracing_context_event_t →
         iree_hal_cuda_tracing_context_event_t → Prop)
    (pool pool' : list iree_hal_cuda_tracing_context_event_t) : Prop :=
  length pool' = length pool ∧
  ∀ i e, pool !! i = Some e → ∃ e', pool' !! i = Some e' ∧ R i e e'.

(** The slot still holds the same device event. *)
Definition keeps_event (_ : nat)
    (e e' : iree_hal_cuda_tracing_context_event_t) : Prop :=
  event e' = event e.

(** The fields of a context that are set once, at allocation. *)
Definition same_identity (c c' : iree_hal_cuda_tracing_context_t) : Prop :=
  id c' = id c ∧ base_event c' = base_event c ∧
  query_capacity c' = query_capacity c ∧ verbosity c' = verbosity c.

(** What one operation may do to a slot.  A query insertion rewrites
    [next_in_command_buffer] only. *)
Definition insert_touches (_ : nat)
    (e e' : iree_hal_cuda_tracing_context_event_t) : Prop :=
  event e' = event e ∧ next_submission e' = next_submission e ∧
  was_submitted e' = was_submitted e.

(** A submission rewrites [next_submission] of the queue's tail only. *)
Definition notify_touches (old_tail new_head : event_ptr) (i : nat)
    (e e' : iree_hal_cuda_tracing_context_event_t) : Prop :=
  event e' = event e ∧
  next_in_command_buffer e' = next_in_command_buffer e ∧
  was_submitted e' = was_submitted e ∧
  (next_submission e' = next_submission e ∨
   (old_tail = Some i ∧ next_submission e' = new_head)).

(** A collect sets [was_submitted] and nothing else. *)
Definition collect_touches (_ : nat)
    (e e' : iree_hal_cuda_tracing_context_event_t) : Prop :=
  event e' = event e ∧
  next_in_command_buffer e' = next_in_command_buffer e ∧
  next_submission e' = next_submission e ∧
  (was_submitted e' = was_submitted e ∨ was_submitted e' = true).

(** A free rewrites the two flags of the list head only, besides links. *)
Definition free_touches (list_head : event_ptr) (i : nat)
    (e e' : iree_hal_cuda_tracing_context_event_t) : Prop :=
  event e' = event e ∧
  (list_head ≠ Some i →
   next_submission e' = next_submission e ∧
   was_submitted e' = was_submitted e).

(** ** The life cycle of a command buffer's event list

    A command buffer records queries into its event list, is submitted
    ([iree_hal_cuda_tracing_notify_submitted]), has its timestamps
    collected ([iree_hal_cuda_tracing_context_collect]) and gives its
    events back ([iree_hal_cuda_tracing_free]); a list that was never
    submitted may be freed as well. *)
Inductive phase := Recording | Queued | Collected.

#[global] Instance phase_eq_dec : EqDecision phase.
Proof. solve_decision. Defined.

(** The phases after [o], or [None] if [o] is not allowed in [ph]: no
    insertion into and no second submission of a list that is queued or
    collected, no free of a list that is still queued. *)
Definition advance (ph : nat → phase) (o : op) : option (nat → phase) :=
  match o with
  | InsertQuery cb =>
      if decide (ph cb = Recording) then Some ph else None
  | NotifySubmitted cb =>
      if decide (ph cb = Recording)
      then Some (λ x, if decide (cb = x) then Queued else ph x)
      else None
  | Collect _ =>
      Some (λ x, if decide (ph x = Queued) then Collected else ph x)
  | Free cb =>
      if decide (ph cb = Queued) then None
      else Some (λ x, if decide (cb = x) then Recording else ph x)
  end.

Fixpoint follows_protocol (ph : nat → phase) (ops : list op) : bool :=
  match ops with
  | [] => true
  | o :: ops' =>
      match advance ph o with
      | Some ph' => follows_protocol ph' ops'
      | None => false
      end
  end.

(** A device that has completed every event it is asked about. *)
Definition always_completes (symbols : iree_hal_cuda_dynamic_symbols_t)
    : Prop :=
  ∀ e, cuEventSynchronize symbols e = CUDA_SUCCESS ∧
       cuEventQuery symbols e = CUDA_SUCCESS.

Definition on_completing_device (o : op) : Prop :=
  match o with
  | Collect symbols => always_completes symbols
  | _ => True
  end.

(** The query id an operation hands to its caller. *)
Definition issued_by (assertions : bool) (s : system) (o : op) : list Z :=
  match o with
  | InsertQuery cb =>
      match iree_hal_cuda_stream_tracing_context_insert_query assertions
              (context s) (list_of s cb) with
      | Done (_, _, q) => [q]
      | Fault _ => []
      end
  | _ => []
  end.

(** All query ids handed out along a run. *)
Fixpoint issued (assertions : bool) (s : system) (ops : list op) : list Z :=
  match ops with
  | [] => []
  | o :: ops' =>
      issued_by assertions s o ++
      match step assertions s o with
      | Done s' => issued assertions s' ops'
      | Fault _ => []
      end
  end.

(** An event that is neither queued nor marked. *)
Definition clean (e : iree_hal_cuda_tracing_context_event_t) : Prop :=
  next_submission e = None ∧ was_submitted e = false.

(** The state of a client that follows the protocol: [fl] is the free
    list, [chain cb] the events of command buffer [cb], [q] the queued
    command buffers, oldest first.  The free list and the chains partition
    the pool, at least one event is free, the submission queue holds the
    chains of [q], and only the head of a queued or collected chain
    carries a queue link or the submitted mark. *)
Definition lifecycle (ph : nat → phase) (fl : list nat)
    (chain : nat → list nat) (q : list nat) (s : system) : Prop :=
  cb_list (event_pool (context s)) (event_freelist_head (context s)) fl ∧
  fl ≠ [] ∧
  (∀ cb, event_list_holds (event_pool (context s)) (list_of s cb) (chain cb)) ∧
  (∀ cb i, i ∈ chain cb → i ∉ fl) ∧
  (∀ cb cb' i, i ∈ chain cb → i ∈ chain cb' → cb = cb') ∧
  (∀ i, i < length (event_pool (context s)) → i ∈ fl ∨ ∃ cb, i ∈ chain cb) ∧
  queue_holds (context s) (chain <$> q) ∧
  NoDup q ∧
  (∀ cb, cb ∈ q ↔ ph cb = Queued ∧ chain cb ≠ []) ∧
  (∀ i e, event_pool (context s) !! i = Some e →
     (∀ cb l, ph cb ≠ Recording → chain cb ≠ i :: l) → clean e) ∧
  (∀ cb h l e, ph cb = Collected → chain cb = h :: l →
     event_pool (context s) !! h = Some e → was_submitted e = true).

(** Every slot has been reported as often as its id was issued, except
    that the events of a list not yet collected or freed are one report
    behind. *)
Definition accounted (ph : nat → phase) (chain : nat → list nat)
    (reported handed_out : list Z) : Prop :=
  (∀ z, z ∈ reported ∨ z ∈ handed_out → (0 ≤ z)%Z) ∧
  ∀ i : nat,
    ((∀ cb, i ∈ chain cb → ph cb = Collected) →
     count_occ Z.eq_dec reported (Z.of_nat i)
       = count_occ Z.eq_dec handed_out (Z.of_nat i)) ∧
    (∀ cb, i ∈ chain cb → ph cb ≠ Collected →
     S (count_occ Z.eq_dec reported (Z.of_nat i))
       = count_occ Z.eq_dec handed_out (Z.of_nat i)).

(** No slot has been reported more often than its id was issued, and the
    events of a list not yet collected or freed have a report to spare. *)
Definition never_over_reported (ph : nat → phase) (chain : nat → list nat)
    (reported handed_out : list Z) : Prop :=
  (∀ z, z ∈ reported → (0 ≤ z)%Z) ∧
  ∀ i : nat,
    count_occ Z.eq_dec reported (Z.of_nat i)
      ≤ count_occ Z.eq_dec handed_out (Z.of_nat i) ∧
    (∀ cb, i ∈ chain cb → ph cb ≠ Collected →
     S (count_occ Z.eq_dec reported (Z.of_nat i))
       ≤ count_occ Z.eq_dec handed_out (Z.of_nat i)).

(** * Stepping through a computation *)

Lemma outcome_bind_Done {A B} (a : A) (k : A → outcome B) :
  (Done a ≫= k) = k a.
Proof. reflexivity. Qed.

Lemma outcome_bind_Fault {A B} (f : fault) (k : A → outcome B) :
  (Fault f ≫= k) = Fault f.
Proof. reflexivity. Qed.

(** Push a computation one step: resolve the binds whose argument is known
    and the matches on known constructors, without unfolding any loop. *)
Ltac outcome_step :=
  repeat first [ rewrite outcome_bind_Done
               | rewrite outcome_bind_Fault
               | progress cbv beta iota zeta ].

Lemma load_Some pool i e : pool !! i = Some e → load pool (Some i) = Done e.
Proof. intros H. unfold load. by rewrite H. Qed.

Lemma store_Some pool i e f :
  pool !! i = Some e → store pool (Some i) f = Done (<[i := f e]> pool).
Proof. intros H. unfold store. by rewrite H. Qed.

Lemma lookup_insert_pool (pool : list iree_hal_cuda_tracing_context_event_t)
    i j x :
  i < length pool →
  <[i := x]> pool !! j = if decide (i = j) then Some x else pool !! j.
Proof.
  intros Hi. case_decide as Hij.
  - subst. by apply list_lookup_insert_eq.
  - by apply list_lookup_insert_ne.
Qed.

Lemma IREE_ASSERT_holds enabled cond :
  (enabled = true → cond = true) → IREE_ASSERT enabled cond = Done tt.
Proof.
  unfold IREE_ASSERT. destruct enabled; [|done].
  intros H. by rewrite H.
Qed.

(** * Facts about the intrusive lists *)

Section LinkedFacts.
Context (link : iree_hal_cuda_tracing_context_event_t → event_ptr).
Local Abbreviation linked := (linked link).

Lemma linked_functional pool p l1 l2 :
  linked pool p l1 → linked pool p l2 → l1 = l2.
Proof.
  intros H1. revert l2.
  induction H1 as [|i e l Hi _ IH]; intros l2 H2; inversion H2; subst.
  - reflexivity.
  - f_equal. apply IH. congruence.
Qed.

Lemma linked_suffix pool p l i :
  linked pool p l → i ∈ l → ∃ l1 l2, l = l1 ++ i :: l2 ∧ linked pool (Some i) (i :: l2).
Proof.
  induction 1 as [|j e l Hj Hl IH]; intros Hin.
  - by apply elem_of_nil in Hin.
  - apply elem_of_cons in Hin as [->|Hin].
    + exists [], l. split; [done|]. by econstructor.
    + destruct (IH Hin) as (l1 & l2 & -> & H2).
      by exists (j :: l1), l2.
Qed.

Lemma linked_NoDup pool p l : linked pool p l → NoDup l.
Proof.
  induction 1 as [|i e l Hi Hl IH]; constructor; [|done].
  intros Hin.
  destruct (linked_suffix _ _ _ _ Hl Hin) as (l1 & l2 & -> & H2).
  assert (Hl' : linked pool (Some i) (i :: l1 ++ i :: l2)) by by econstructor.
  pose proof (linked_functional _ _ _ _ H2 Hl') as Heq.
  apply (f_equal length) in Heq. simpl in Heq.
  rewrite length_app in Heq. simpl in Heq. lia.
Qed.

Lemma linked_bound pool p l i : linked pool p l → i ∈ l → i < length pool.
Proof.
  induction 1 as [|j e l Hj Hl IH]; intros Hin.
  - by apply elem_of_nil in Hin.
  - apply elem_of_cons in Hin as [->|Hin]; [|by auto].
    by eapply lookup_lt_Some.
Qed.

(** A list threaded through the pool never has more nodes than the pool
    has slots: the loops that walk it need at most that many steps. *)
Lemma linked_length pool p l : linked pool p l → length l ≤ length pool.
Proof.
  intros H.
  assert (Hsub : l ⊆+ seq 0 (length pool)).
  2: { apply submseteq_length in Hsub. by rewrite length_seq in Hsub. }
  apply NoDup_submseteq; [by eapply linked_NoDup|].
  intros i Hi. apply elem_of_seq. split; [lia|].
  simpl. by eapply linked_bound.
Qed.

(** Writes that leave the link fields of the visited slots alone do not
    change the list. *)
Lemma linked_frame pool pool' p l :
  linked pool p l →
  (∀ i e, i ∈ l → pool !! i = Some e →
          ∃ e', pool' !! i = Some e' ∧ link e' = link e) →
  linked pool' p l.
Proof.
  induction 1 as [|i e l Hi Hl IH]; intros Hsame; [constructor|].
  destruct (Hsame i e) as (e' & He' & Hlink); [by left|done|].
  econstructor; [done|]. rewrite Hlink. apply IH.
  intros j ej Hj. apply Hsame. by right.
Qed.

Lemma linked_insert_ne pool p l i x :
  linked pool p l → i ∉ l → linked (<[i := x]> pool) p l.
Proof.
  intros H Hni. eapply linked_frame; [done|].
  intros j e Hj Hlook. exists e. split; [|done].
  rewrite list_lookup_insert_ne; [done|]. intros ->. done.
Qed.

Lemma linked_insert_same pool p l i e x :
  linked pool p l → pool !! i = Some e → link x = link e →
  linked (<[i := x]> pool) p l.
Proof.
  intros H Hi Hlink. eapply linked_frame; [done|].
  intros j ej Hj Hlook. destruct (decide (i = j)) as [->|Hne].
  - exists x. split; [|congruence].
    apply list_lookup_insert_eq. by eapply lookup_lt_Some.
  - exists ej. by rewrite list_lookup_insert_ne.
Qed.

End LinkedFacts.

Lemma linked_nil_inv link pool l : linked link pool None l → l = [].
Proof. by inversion 1. Qed.

Lemma linked_empty_inv link pool p : linked link pool p [] → p = None.
Proof. by inversion 1. Qed.

Lemma linked_cons_inv link pool p i l :
  linked link pool p (i :: l) →
  p = Some i ∧ ∃ e, pool !! i = Some e ∧ linked link pool (link e) l.
Proof. inversion 1; subst. eauto. Qed.

Lemma linked_head_elem link pool i l : linked link pool (Some i) l → i ∈ l.
Proof. inversion 1; subst. by left. Qed.

(** Appending to a list whose last node is [t]: [x] is the new content of
    slot [t], with its link pointing to [f]. *)
Lemma linked_snoc link pool p l f ef x :
  linked link pool p l → f ∉ l →
  pool !! f = Some ef → link ef = None →
  ∀ t et, last l = Some t → pool !! t = Some et → link x = Some f →
  linked link (<[t := x]> pool) p (l ++ [f]).
Proof.
  intros Hl. induction Hl as [|i e l Hi Hl IH];
    intros Hf Hef Hnil t et Hlast Het Hx.
  - done.
  - assert (Hit : i < length pool) by by eapply lookup_lt_Some.
    assert (Htl : t < length pool) by by eapply lookup_lt_Some.
    assert (Hfi : f ≠ i) by (intros ->; apply Hf; by left).
    assert (Hfl : f ∉ l) by (intros ?; apply Hf; by right).
    destruct l as [|j l'].
    + simpl in Hlast. injection Hlast as <-.
      assert (et = e) as -> by congruence.
      inversion Hl as [Hnone|]; subst.
      simpl. econstructor; [by apply list_lookup_insert_eq|].
      rewrite Hx. econstructor.
      * rewrite list_lookup_insert_ne by done. exact Hef.
      * rewrite Hnil. constructor.
    + rewrite last_cons_cons in Hlast.
      assert (Hti : t ≠ i).
      { intros ->.
        assert (Hin : i ∈ j :: l') by by eapply last_Some_elem_of.
        assert (Hall : linked link pool (Some i) (i :: j :: l'))
          by (econstructor; [exact Hi|exact Hl]).
        apply linked_NoDup in Hall. apply NoDup_cons in Hall as [Hni _]. done. }
      simpl. econstructor.
      * rewrite list_lookup_insert_ne by done. exact Hi.
      * by eapply IH.
Qed.

(** Linking the last node [t] of one list to the head of another. *)
Lemma linked_append link pool p l q l2 x :
  linked link pool p l → linked link pool q l2 →
  (∀ i, i ∈ l → i ∉ l2) →
  ∀ t et, last l = Some t → pool !! t = Some et → link x = q →
  linked link (<[t := x]> pool) p (l ++ l2).
Proof.
  intros Hl Hl2 Hdisj t et Hlast Het Hx.
  assert (Ht : t ∈ l) by by eapply last_Some_elem_of.
  assert (Hl2' : linked link (<[t := x]> pool) q l2)
    by (apply linked_insert_ne; [done|by apply Hdisj]).
  clear Hl2 Ht.
  induction Hl as [|i e l Hi Hl IH]; [done|].
  assert (Htl : t < length pool) by by eapply lookup_lt_Some.
  destruct l as [|j l'].
  - simpl in Hlast. injection Hlast as <-.
    simpl. econstructor; [by apply list_lookup_insert_eq|]. by rewrite Hx.
  - rewrite last_cons_cons in Hlast.
    assert (Hti : t ≠ i).
    { intros ->.
      assert (Hin : i ∈ j :: l') by by eapply last_Some_elem_of.
      assert (Hall : linked link pool (Some i) (i :: j :: l'))
        by (econstructor; [exact Hi|exact Hl]).
      apply linked_NoDup in Hall. apply NoDup_cons in Hall as [Hni _]. done. }
    simpl. econstructor.
    + rewrite list_lookup_insert_ne by done. exact Hi.
    + apply IH; [|done]. intros k Hk. apply Hdisj. by right.
Qed.

(** * Lists of slots *)

Lemma elem_of_concat {A} (x : A) (ls : list (list A)) :
  x ∈ concat ls ↔ ∃ l, l ∈ ls ∧ x ∈ l.
Proof.
  induction ls as [|l0 ls IH]; simpl.
  - split; [by intros ?%elem_of_nil|]. by intros (l & ?%elem_of_nil & _).
  - rewrite elem_of_app, IH. split.
    + intros [H|(l & Hl & Hx)]; [exists l0; split; [by left|done]|].
      exists l. split; [by right|done].
    + intros (l & Hl & Hx). apply elem_of_cons in Hl as [->|Hl]; [by left|].
      right. by exists l.
Qed.

Lemma elem_of_take_full {A} (x : A) n l : x ∈ take n l → x ∈ l.
Proof.
  intros (i & Hi & _)%elem_of_take. by eapply list_elem_of_lookup_2.
Qed.

Lemma NoDup_take_full {A} n (l : list A) : NoDup l → NoDup (take n l).
Proof. intros H. eapply sublist_NoDup; [exact H|apply sublist_take]. Qed.

Lemma omap_ext_all {A B} (f g : A → option B) (l : list A) :
  (∀ x, f x = g x) → omap f l = omap g l.
Proof.
  intros Hfg. induction l as [|x l IH]; [done|].
  cbn [omap list_omap]. by rewrite Hfg, IH.
Qed.

(** * Writes confined to some slots *)

Lemma pool_writes_within_refl touched pool : pool_writes_within touched pool pool.
Proof. split; [done|]. intros i e He. by exists e. Qed.

Lemma pool_writes_within_trans t1 t2 t pool1 pool2 pool3 :
  pool_writes_within t1 pool1 pool2 → pool_writes_within t2 pool2 pool3 →
  (∀ i, i ∈ t1 → i ∈ t) → (∀ i, i ∈ t2 → i ∈ t) →
  pool_writes_within t pool1 pool3.
Proof.
  intros [Hlen1 H1] [Hlen2 H2] Hsub1 Hsub2. split; [congruence|].
  intros i e He.
  destruct (H1 i e He) as (e2 & He2 & Hev & Hns & Hws & Hsame).
  destruct (H2 i e2 He2) as (e3 & He3 & Hev' & Hns' & Hws' & Hsame').
  exists e3. repeat split; try congruence.
  intros Hni. rewrite Hsame', Hsame; auto.
Qed.

Lemma pool_writes_within_insert touched pool i e p :
  pool !! i = Some e → i ∈ touched →
  pool_writes_within touched pool (<[i := set_next_in_command_buffer p e]> pool).
Proof.
  intros He Hin. split; [by rewrite length_insert|].
  intros j ej Hj. rewrite lookup_insert_pool by by eapply lookup_lt_Some.
  case_decide as Hij.
  - subst j. assert (ej = e) as -> by congruence.
    eexists. split; [done|]. repeat split; done.
  - exists ej. repeat split; done.
Qed.

Lemma cb_list_writes_elsewhere touched pool pool' p l :
  cb_list pool p l → pool_writes_within touched pool pool' →
  (∀ i, i ∈ l → i ∉ touched) → cb_list pool' p l.
Proof.
  intros Hl [_ Hw] Hdisj. eapply linked_frame; [done|].
  intros i e Hi He. destruct (Hw i e He) as (e' & He' & _ & _ & _ & Hsame).
  exists e'. split; [done|]. by rewrite Hsame by auto.
Qed.

Lemma submission_list_writes touched pool pool' p l :
  submission_list pool p l → pool_writes_within touched pool pool' →
  submission_list pool' p l.
Proof.
  intros Hl [_ Hw]. eapply linked_frame; [done|].
  intros i e Hi He. destruct (Hw i e He) as (e' & He' & _ & Hns & _).
  by exists e'.
Qed.

Lemma same_header_refl c : same_header c c.
Proof. by repeat split. Qed.

Lemma same_header_trans c1 c2 c3 :
  same_header c1 c2 → same_header c2 c3 → same_header c1 c3.
Proof.
  intros (?&?&?&?&?) (?&?&?&?&?). repeat split; congruence.
Qed.

Lemma pool_writes_within_same_events touched pool pool' :
  pool_writes_within touched pool pool' → same_events pool pool'.
Proof.
  intros [Hlen Hw] i. destruct (pool !! i) as [e|] eqn:He.
  - destruct (Hw i e He) as (e' & -> & Hev & _). simpl. by rewrite Hev.
  - apply lookup_ge_None in He. rewrite (proj2 (lookup_ge_None _ _)); [done|lia].
Qed.

Lemma same_events_length pool pool' :
  same_events pool pool' → length pool' = length pool.
Proof.
  intros Hsame.
  destruct (decide (length pool' = length pool)) as [|Hne]; [done|exfalso].
  destruct (decide (length pool < length pool')) as [Hlt|Hge].
  - specialize (Hsame (length pool)).
    destruct (lookup_lt_is_Some_2 pool' (length pool) Hlt) as [e He].
    rewrite He, (proj2 (lookup_ge_None pool (length pool))) in Hsame by lia.
    done.
  - specialize (Hsame (length pool')).
    destruct (lookup_lt_is_Some_2 pool (length pool')) as [e He]; [lia|].
    rewrite He, (proj2 (lookup_ge_None pool' (length pool'))) in Hsame by lia.
    done.
Qed.

Lemma device_ready_same_events symbols pool pool' i :
  same_events pool pool' → device_ready symbols pool i →
  device_ready symbols pool' i.
Proof.
  intros Hsame (e & He & Hs & Hq). specialize (Hsame i).
  rewrite He in Hsame. simpl in Hsame.
  destruct (pool' !! i) as [e'|] eqn:He'; [|done].
  injection Hsame as Hev. exists e'. by rewrite Hev.
Qed.

Lemma notification_same_events symbols context_id base pool pool' i :
  same_events pool pool' →
  notification symbols context_id base pool' i =
  notification symbols context_id base pool i.
Proof.
  intros Hsame. specialize (Hsame i). unfold notification.
  destruct (pool !! i) as [e|], (pool' !! i) as [e'|]; try done.
  injection Hsame as Hev. simpl. by rewrite Hev.
Qed.

Lemma queue_holds_writes touched
    (c c' : iree_hal_cuda_tracing_context_t) chains :
  queue_holds c chains →
  submitted_event_list c' = submitted_event_list c →
  pool_writes_within touched (event_pool c) (event_pool c') →
  (∀ i, i ∈ concat chains → i ∉ touched) →
  queue_holds c' chains.
Proof.
  intros (heads & Hheads & Hchains & Htail) Hsub Hw Hdisj.
  exists heads. rewrite Hsub. split; [|split; [|done]].
  - by eapply submission_list_writes.
  - apply Forall2_same_length_lookup. split; [by eapply Forall2_length|].
    intros k h l Hh Hl.
    pose proof (Forall2_lookup_lr _ _ _ _ _ _ Hchains Hh Hl) as Hcb.
    simpl in Hcb.
    eapply cb_list_writes_elsewhere; [exact Hcb|exact Hw|].
    intros i Hi. apply Hdisj. apply elem_of_concat. exists l.
    split; [by eapply list_elem_of_lookup_2|done].
Qed.

Lemma queue_holds_bound c chains i :
  queue_holds c chains → i ∈ concat chains → i < length (event_pool c).
Proof.
  intros (heads & _ & Hchains & _) (l & Hl & Hi)%elem_of_concat.
  apply list_elem_of_lookup in Hl as [k Hk].
  destruct (Forall2_lookup_r _ _ _ _ _ Hchains Hk) as (h & _ & Hcb).
  by eapply linked_bound.
Qed.

(** * Query identifiers *)

Lemma uint32_t_pool_index (i : nat) :
  (Z.of_nat i < 65536)%Z → uint32_t (pool_index i) = Z.of_nat i.
Proof.
  intros Hi. unfold uint32_t, pool_index. apply Z.mod_small. lia.
Qed.

Lemma uint16_t_query_id (i : nat) :
  (Z.of_nat i < 65536)%Z → uint16_t (uint32_t (pool_index i)) = Z.of_nat i.
Proof.
  intros Hi. rewrite uint32_t_pool_index by done.
  unfold uint16_t. apply Z.mod_small. lia.
Qed.

Lemma notified_query_ids_notifications symbols context_id base pool l :
  (Z.of_nat (length pool) ≤ 65536)%Z → (∀ i, i ∈ l → i < length pool) →
  notified_query_ids (omap (notification symbols context_id base pool) l)
  = Z.of_nat <$> l.
Proof.
  intros Hcap. induction l as [|i l IH]; intros Hl; [done|].
  assert (Hi : i < length pool) by (apply Hl; by left).
  destruct (lookup_lt_is_Some_2 pool i Hi) as [e He].
  cbn [omap list_omap]. unfold notification at 1. rewrite He.
  cbn. rewrite uint32_t_pool_index by lia. f_equal.
  apply IH. intros j Hj. apply Hl. by right.
Qed.

(** * Allocation *)

Section Allocate.
Context (symbols : iree_hal_cuda_dynamic_symbols_t).

Lemma allocate_event_pool_slot_length capacity i ev pool :
  length (allocate_event_pool_slot capacity i ev pool) = length pool.
Proof.
  unfold allocate_event_pool_slot.
  repeat case_match; rewrite ?length_alter; done.
Qed.

Lemma allocate_event_pool_slot_spec capacity i ev pool :
  i < capacity → length pool = capacity →
  cuEventCreate symbols i = Some ev →
  (∀ j, j < i → slot_initialised symbols capacity i pool j) →
  ∀ j, j < S i →
    slot_initialised symbols capacity (S i)
      (allocate_event_pool_slot capacity i ev pool) j.
Proof.
  intros Hi Hlen Hev Hold j Hj.
  unfold allocate_event_pool_slot, slot_initialised.
  destruct (decide (j = i)) as [->|Hne].
  - destruct (lookup_lt_is_Some_2 pool i) as [e0 He0]; [lia|].
    destruct (decide (i + 1 = capacity)) as [Hlast|Hlast].
    + rewrite (proj2 (Nat.eqb_eq _ _) Hlast).
      eexists. split.
      { rewrite !list_lookup_alter_eq.
        destruct (0 <? i) eqn:Hpos;
          [apply Nat.ltb_lt in Hpos; rewrite list_lookup_alter_ne by lia|];
          rewrite list_lookup_alter_eq, He0; reflexivity. }
      simpl. repeat split; [done|lia].
    + rewrite (proj2 (Nat.eqb_neq _ _) Hlast).
      eexists. split.
      { rewrite !list_lookup_alter_eq.
        destruct (0 <? i) eqn:Hpos;
          [apply Nat.ltb_lt in Hpos; rewrite list_lookup_alter_ne by lia|];
          rewrite list_lookup_alter_eq, He0; reflexivity. }
      simpl. repeat split; try done; lia.
  - assert (Hji : j < i) by lia.
    destruct (Hold j Hji) as (e & He & Hc & Hns & Hws & Hnext & Hnil).
    assert (Hcase : (i + 1 =? capacity) = true ∨ (i + 1 =? capacity) = false)
      by (destruct (i + 1 =? capacity); auto).
    assert (Hpos : (0 <? i) = true) by (apply Nat.ltb_lt; lia).
    rewrite Hpos.
    destruct (decide (j = i - 1)) as [->|Hne'].
    + exists (set_next_in_command_buffer (Some i) e). split.
      { destruct Hcase as [-> | ->];
          rewrite ?(list_lookup_alter_ne _ _ i (i - 1)) by lia;
          rewrite list_lookup_alter_eq, list_lookup_alter_ne by lia;
          rewrite He; reflexivity. }
      simpl. repeat split; try done.
      * intros _. f_equal. lia.
      * lia.
    + exists e. split.
      { destruct Hcase as [-> | ->];
          rewrite !list_lookup_alter_ne by lia; done. }
      repeat split; try done. intros. apply Hnext. lia.
Qed.

Lemma allocate_event_pool_spec capacity remaining i pool pool' :
  i + remaining = capacity → length pool = capacity →
  (∀ j, j < i → slot_initialised symbols capacity i pool j) →
  allocate_event_pool symbols capacity remaining i pool = Some pool' →
  length pool' = capacity ∧
  ∀ j, j < capacity → slot_initialised symbols capacity capacity pool' j.
Proof.
  revert i pool. induction remaining as [|r IH]; intros i pool Hsum Hlen Hold.
  - simpl. intros [= <-]. assert (i = capacity) as -> by lia. done.
  - simpl. destruct (cuEventCreate symbols i) as [ev|] eqn:Hev; [|done].
    intros Hrun. eapply (IH (S i)); [lia| | |exact Hrun].
    + by rewrite allocate_event_pool_slot_length.
    + apply allocate_event_pool_slot_spec; [lia|done..].
Qed.

(** Once every slot is initialised the slots from [j] on form one list. *)
Lemma initialised_pool_linked capacity pool n j :
  (∀ k, k < capacity → slot_initialised symbols capacity capacity pool k) →
  j + S n = capacity →
  cb_list pool (Some j) (seq j (S n)).
Proof.
  intros Hall. revert j. induction n as [|n IH]; intros j Hj.
  - destruct (Hall j) as (e & He & _ & _ & _ & _ & Hnil); [lia|].
    simpl. econstructor; [done|]. rewrite Hnil by lia. constructor.
  - destruct (Hall j) as (e & He & _ & _ & _ & Hnext & _); [lia|].
    change (seq j (S (S n))) with (j :: seq (S j) (S n)).
    econstructor; [done|]. rewrite Hnext by lia.
    replace (j + 1) with (S j) by lia. apply IH. lia.
Qed.

End Allocate.

Lemma allocate_inv symbols stream_tracing_verbosity tracy_id memory c :
  iree_hal_cuda_tracing_context_allocate symbols stream_tracing_verbosity
    tracy_id memory = Some c →
  event_freelist_head c = Some 0 ∧
  submitted_event_list c = mk_event_list None None ∧
  query_capacity c = length memory ∧
  allocate_event_pool symbols (length memory) (length memory) 0 memory
    = Some (event_pool c).
Proof.
  intros Halloc. unfold iree_hal_cuda_tracing_context_allocate in Halloc.
  destruct (allocate_event_pool _ _ _ _ _) as [pool|] eqn:Hpool; [|done].
  simpl in Halloc.
  destruct (cuEventCreate symbols (length memory)) as [base|]; [|done].
  simpl in Halloc.
  destruct (iree_hal_cuda_tracing_context_initial_calibration _ _); [|done].
  by injection Halloc as <-.
Qed.

Lemma allocate_pool_length symbols stream_tracing_verbosity tracy_id memory c :
  iree_hal_cuda_tracing_context_allocate symbols stream_tracing_verbosity
    tracy_id memory = Some c →
  length (event_pool c) = length memory.
Proof.
  intros (_ & _ & _ & Hpool)%allocate_inv.
  by destruct (allocate_event_pool_spec symbols (length memory) (length memory)
                 0 memory (event_pool c)) as [Hlen _]; [done|done|lia|done|].
Qed.

Lemma allocate_slots_clean symbols stream_tracing_verbosity tracy_id memory c i :
  iree_hal_cuda_tracing_context_allocate symbols stream_tracing_verbosity
    tracy_id memory = Some c →
  i < length memory →
  ∃ e, event_pool c !! i = Some e ∧
       next_submission e = None ∧ was_submitted e = false.
Proof.
  intros (_ & _ & _ & Hpool)%allocate_inv Hi.
  destruct (allocate_event_pool_spec symbols (length memory) (length memory)
              0 memory (event_pool c)) as [_ Hall]; [done|done|lia|done|].
  destruct (Hall i Hi) as (e & He & _ & Hns & Hws & _). by exists e.
Qed.

Lemma allocate_free_list symbols stream_tracing_verbosity tracy_id memory c :
  iree_hal_cuda_tracing_context_allocate symbols stream_tracing_verbosity
    tracy_id memory = Some c →
  0 < length memory →
  cb_list (event_pool c) (event_freelist_head c) (seq 0 (length memory)).
Proof.
  intros (Hhead & _ & _ & Hpool)%allocate_inv Hpos. rewrite Hhead.
  destruct (allocate_event_pool_spec symbols (length memory) (length memory)
              0 memory (event_pool c)) as [_ Hall]; [done|done|lia|done|].
  destruct (length memory) as [|n] eqn:Hn; [lia|].
  eapply initialised_pool_linked; [exact Hall|done].
Qed.

(** * Inserting a query *)

Lemma insert_query_spec assertions context event_list f fl l :
  cb_list (event_pool context) (event_freelist_head context) (f :: fl) →
  event_list_holds (event_pool context) event_list l →
  (∀ i, i ∈ l → i ∉ f :: fl) →
  (assertions = true → fl ≠ []) →
  ∃ context' event_list',
    iree_hal_cuda_stream_tracing_context_insert_query assertions
      context event_list
      = Done (context', event_list', uint16_t (uint32_t (pool_index f))) ∧
    same_header context context' ∧
    cb_list (event_pool context') (event_freelist_head context') fl ∧
    event_list_holds (event_pool context') event_list' (l ++ [f]) ∧
    pool_writes_within (f :: l) (event_pool context) (event_pool context').
Proof.
  intros Hfree [Hl Htail] Hdisj Hassert.
  pose proof (linked_NoDup _ _ _ _ Hfree) as Hnd.
  apply NoDup_cons in Hnd as [Hffl _].
  apply linked_cons_inv in Hfree as (Hhead & ef & Hef & Hfl).
  assert (Hflt : f < length (event_pool context)) by by eapply lookup_lt_Some.
  assert (Hfl_notin : f ∉ l).
  { intros Hin. apply (Hdisj f Hin). by left. }
  unfold iree_hal_cuda_stream_tracing_context_insert_query.
  rewrite Hhead, (load_Some _ _ _ Hef). outcome_step.
  rewrite IREE_ASSERT_holds; cycle 1.
  { intros Hon. apply bool_decide_eq_true. intros Hnone.
    rewrite Hnone in Hfl. apply linked_nil_inv in Hfl. by apply Hassert. }
  outcome_step. unfold set_event_freelist_head at 1. cbn [event_pool].
  rewrite (store_Some _ _ _ _ Hef). outcome_step.
  set (pool1 := <[f := set_next_in_command_buffer None ef]> (event_pool context)).
  assert (Hf1 : pool1 !! f = Some (set_next_in_command_buffer None ef))
    by by apply list_lookup_insert_eq.
  assert (Hw1 : pool_writes_within (f :: l) (event_pool context) pool1)
    by (apply pool_writes_within_insert; [done|by left]).
  unfold iree_hal_cuda_tracing_context_event_list_append_event.
  destruct l as [|a l'].
  - apply linked_empty_inv in Hl. rewrite Hl. outcome_step.
    do 2 eexists. split; [reflexivity|]. cbn.
    split; [done|]. split; [by apply linked_insert_ne|].
    split; [|done]. split; [|done].
    econstructor; [exact Hf1|]. constructor.
  - pose proof Hl as Hl0.
    apply linked_cons_inv in Hl as (Hel & ea & Hea & Hl').
    rewrite Hel. outcome_step.
    destruct (last (a :: l')) as [t|] eqn:Hlast;
      [|by apply last_None in Hlast].
    rewrite Htail by done.
    assert (Hin : t ∈ a :: l') by by eapply last_Some_elem_of.
    assert (Htf : t ≠ f) by (intros ->; done).
    destruct (lookup_lt_is_Some_2 (event_pool context) t) as [et Het];
      [by eapply linked_bound|].
    assert (Ht1 : pool1 !! t = Some et)
      by (unfold pool1; by rewrite list_lookup_insert_ne).
    rewrite (store_Some _ _ _ _ Ht1). outcome_step.
    do 2 eexists. split; [reflexivity|]. cbn.
    split; [done|]. split; [|split; [|]].
    + apply linked_insert_ne; [by apply linked_insert_ne|].
      intros Hin'. apply (Hdisj t Hin). by right.
    + split; [|intros _; symmetry; apply (last_snoc f (a :: l'))].
      rewrite Hel in Hl0.
      eapply (linked_snoc _ pool1 (Some a) (a :: l') f
                (set_next_in_command_buffer None ef)); try done.
      by apply linked_insert_ne.
    + eapply pool_writes_within_trans; [exact Hw1| |done|done].
      apply pool_writes_within_insert; [done|by right].
Qed.

Lemma insert_queries_spec (assertions : bool) (n : nat) :
  ∀ (context : iree_hal_cuda_tracing_context_t)
    (event_list : iree_hal_cuda_tracing_context_event_list_t)
    (fl l : list nat),
  cb_list (event_pool context) (event_freelist_head context) fl →
  event_list_holds (event_pool context) event_list l →
  (∀ i, i ∈ l → i ∉ fl) →
  (0 < n → n + (if assertions then 1 else 0) ≤ length fl) →
  ∃ context' event_list',
    insert_queries assertions n context event_list
      = Done (context', event_list',
              (λ i, uint16_t (uint32_t (pool_index i))) <$> take n fl) ∧
    same_header context context' ∧
    cb_list (event_pool context') (event_freelist_head context') (drop n fl) ∧
    event_list_holds (event_pool context') event_list' (l ++ take n fl) ∧
    pool_writes_within (l ++ take n fl) (event_pool context)
      (event_pool context').
Proof.
  induction n as [|n IH]; intros context event_list fl l Hfree Hl Hdisj Hroom.
  - exists context, event_list. simpl. rewrite take_0, drop_0, app_nil_r.
    split; [done|]. split; [apply same_header_refl|].
    split; [done|]. split; [done|apply pool_writes_within_refl].
  - destruct fl as [|f fl]; [simpl in Hroom; lia|].
    pose proof (linked_NoDup _ _ _ _ Hfree) as Hnd.
    apply NoDup_cons in Hnd as [Hffl _].
    destruct (insert_query_spec assertions context event_list f fl l)
      as (c1 & l1 & Hrun & Hhdr & Hfree1 & Hl1 & Hw1); try done.
    { intros ->. destruct fl; [simpl in Hroom; lia|done]. }
    destruct (IH c1 l1 fl (l ++ [f])) as (c2 & l2 & Hrun2 & Hhdr2 & Hfree2 & Hl2 & Hw2);
      try done.
    { intros i Hi Hin. apply elem_of_app in Hi as [Hi|Hi].
      - apply (Hdisj i Hi). by right.
      - apply list_elem_of_singleton in Hi as ->. done. }
    { intros Hn. destruct assertions; simpl in *; lia. }
    exists c2, l2. simpl. rewrite Hrun. outcome_step.
    rewrite Hrun2. outcome_step.
    rewrite <- app_assoc in Hl2, Hw2. simpl in Hl2, Hw2.
    split; [done|]. split; [by eapply same_header_trans|].
    split; [done|]. split; [done|].
    eapply pool_writes_within_trans; [exact Hw1|exact Hw2| |done].
    intros i Hi. apply elem_of_cons in Hi as [->|Hi].
    + apply elem_of_app. right. by left.
    + apply elem_of_app. by left.
Qed.

Lemma insert_query_last_free_event_asserts c event_list f e node_added :
  event_freelist_head c = Some f → event_pool c !! f = Some e →
  next_in_command_buffer e = None →
  iree_hal_cuda_stream_tracing_context_insert_query true c event_list
    = Fault AssertionFailure ∧
  iree_hal_cuda_graph_tracing_context_insert_query true node_added c event_list
    = Fault AssertionFailure.
Proof.
  intros Hhead He Hnext.
  unfold iree_hal_cuda_stream_tracing_context_insert_query,
    iree_hal_cuda_graph_tracing_context_insert_query.
  rewrite Hhead, (load_Some _ _ _ He). outcome_step.
  rewrite Hnext. done.
Qed.

Lemma insert_query_empty_free_list_faults assertions c event_list node_added :
  event_freelist_head c = None →
  iree_hal_cuda_stream_tracing_context_insert_query assertions c event_list
    = Fault NullDereference ∧
  iree_hal_cuda_graph_tracing_context_insert_query assertions node_added
    c event_list = Fault NullDereference.
Proof.
  intros Hhead.
  unfold iree_hal_cuda_stream_tracing_context_insert_query,
    iree_hal_cuda_graph_tracing_context_insert_query.
  by rewrite Hhead.
Qed.

(** With assertions on, a query insertion that returns leaves at least one
    event on the free list. *)
Lemma insert_query_keeps_one_free c event_list c' event_list' q :
  iree_hal_cuda_stream_tracing_context_insert_query true c event_list
    = Done (c', event_list', q) →
  event_freelist_head c' ≠ None.
Proof.
  unfold iree_hal_cuda_stream_tracing_context_insert_query.
  destruct (load (event_pool c) (event_freelist_head c)) as [e|] eqn:Hload;
    [|done].
  outcome_step. unfold IREE_ASSERT.
  destruct (next_in_command_buffer e) as [n|] eqn:Hnext; [|done].
  cbn [andb negb bool_decide decide_rel]. 
  rewrite bool_decide_eq_true_2 by done. outcome_step.
  destruct (store _ _ _) as [pool|]; [|done]. outcome_step.
  destruct (iree_hal_cuda_tracing_context_event_list_append_event _ _ _)
    as [[pool' l']|]; [|done].
  outcome_step. intros [= <- _ _]. done.
Qed.

Lemma insert_queries_exhaust (fl : list nat) :
  ∀ (n : nat) (c : iree_hal_cuda_tracing_context_t)
    (event_list : iree_hal_cuda_tracing_context_event_list_t) (l : list nat),
  cb_list (event_pool c) (event_freelist_head c) fl →
  event_list_holds (event_pool c) event_list l →
  (∀ i, i ∈ l → i ∉ fl) →
  0 < length fl ≤ n →
  insert_queries true n c event_list = Fault AssertionFailure.
Proof.
  induction fl as [|f fl IH]; intros n c event_list l Hfree Hl Hdisj Hn.
  - simpl in Hn. lia.
  - destruct n as [|n]; [lia|]. simpl in Hn.
    destruct fl as [|f' fl'].
    + apply linked_cons_inv in Hfree as (Hhead & e & He & Hnil).
      apply linked_empty_inv in Hnil.
      cbn [insert_queries].
      by rewrite (proj1 (insert_query_last_free_event_asserts
                           c event_list f e true Hhead He Hnil)).
    + pose proof (linked_NoDup _ _ _ _ Hfree) as Hnd.
      apply NoDup_cons in Hnd as [Hffl _].
      destruct (insert_query_spec true c event_list f (f' :: fl') l)
        as (c1 & l1 & Hrun & _ & Hfree1 & Hl1 & _); try done.
      cbn [insert_queries]. rewrite Hrun. outcome_step.
      rewrite (IH n c1 l1 (l ++ [f])); try done.
      * intros i Hi Hin. apply elem_of_app in Hi as [Hi|Hi].
        -- apply (Hdisj i Hi). by right.
        -- apply list_elem_of_singleton in Hi as ->. done.
      * simpl in *. lia.
Qed.

(** * Submitting *)

Lemma notify_submitted_empty c event_list :
  head event_list = None →
  iree_hal_cuda_tracing_notify_submitted c event_list = Done c.
Proof.
  intros H. unfold iree_hal_cuda_tracing_notify_submitted. by rewrite H.
Qed.

Lemma notify_submitted_spec c event_list h l chains eh :
  queue_holds c chains →
  event_list_holds (event_pool c) event_list (h :: l) →
  event_pool c !! h = Some eh → next_submission eh = None →
  (∀ i, i ∈ h :: l → i ∉ concat chains) →
  ∃ c',
    iree_hal_cuda_tracing_notify_submitted c event_list = Done c' ∧
    queue_holds c' (chains ++ [h :: l]) ∧
    event_freelist_head c' = event_freelist_head c ∧
    id c' = id c ∧ base_event c' = base_event c ∧
    same_events (event_pool c) (event_pool c') ∧
    (∀ p l0, cb_list (event_pool c) p l0 → cb_list (event_pool c') p l0).
Proof.
  intros (heads & Hheads & Hchains & Htail) [Hl _] Heh Hns Hdisj.
  pose proof Hl as Hl0.
  apply linked_cons_inv in Hl as (Hel & _).
  unfold iree_hal_cuda_tracing_notify_submitted. rewrite Hel.
  destruct heads as [|h0 hs].
  - apply linked_empty_inv in Hheads. rewrite Hheads.
    apply Forall2_nil_inv_l in Hchains as ->.
    eexists. split; [reflexivity|]. cbn.
    split; [|done].
    exists [h]. cbn. split; [|split; [|done]].
    + econstructor; [exact Heh|]. rewrite Hns. constructor.
    + constructor; [|constructor]. by rewrite <- Hel.
  - pose proof Hheads as Hheads0.
    apply linked_cons_inv in Hheads as (Hq & _). rewrite Hq.
    destruct (last (h0 :: hs)) as [t|] eqn:Hlast;
      [|by apply last_None in Hlast].
    rewrite Htail by done.
    assert (Hin : t ∈ h0 :: hs) by by eapply last_Some_elem_of.
    destruct (lookup_lt_is_Some_2 (event_pool c) t) as [et Het];
      [by eapply linked_bound|].
    rewrite (store_Some _ _ _ _ Het). outcome_step.
    set (pool' := <[t := set_next_submission (Some h) et]> (event_pool c)).
    assert (Hcb : ∀ p l0, cb_list (event_pool c) p l0 → cb_list pool' p l0).
    { intros p l0 H0. by eapply linked_insert_same. }
    assert (Hh_heads : h ∉ h0 :: hs).
    { intros Hin'. apply list_elem_of_lookup in Hin' as [k Hk].
      destruct (Forall2_lookup_l _ _ _ _ _ Hchains Hk) as (lk & Hlk & Hcbk).
      apply (Hdisj h); [by left|].
      apply elem_of_concat. exists lk. split.
      - by eapply list_elem_of_lookup_2.
      - by eapply linked_head_elem. }
    eexists. split; [reflexivity|]. cbn.
    split; [|split; [done|split; [done|split; [done|split; [|done]]]]].
    + exists ((h0 :: hs) ++ [h]). cbn. split; [|split].
      * change (h0 :: hs ++ [h]) with ((h0 :: hs) ++ [h]).
        eapply (linked_snoc _ _ _ _ h eh); try done. by rewrite <- Hq.
      * change (h0 :: hs ++ [h]) with ((h0 :: hs) ++ [h]).
        apply Forall2_app.
        -- eapply Forall2_impl; [exact Hchains|]. intros ???. by apply Hcb.
        -- constructor; [|constructor]. apply Hcb. by rewrite <- Hel.
      * intros _. symmetry. apply (last_snoc h (h0 :: hs)).
    + intros i. unfold pool'.
      rewrite lookup_insert_pool by by eapply lookup_lt_Some.
      case_decide; [subst; by rewrite Het|done].
Qed.

(** * Collecting *)

Section CollectFacts.
Context (symbols : iree_hal_cuda_dynamic_symbols_t).

Lemma collect_events_spec fuel context_id base pool p l :
  cb_list pool p l → length l ≤ fuel →
  collect_events symbols fuel context_id base pool p =
    Done (omap (notification symbols context_id base pool)
               (resolved_prefix symbols pool l)).
Proof.
  intros H. revert fuel.
  induction H as [|i e l Hi Hl IH]; intros fuel Hfuel.
  - by destruct fuel.
  - destruct fuel as [|fuel]; [simpl in Hfuel; lia|].
    simpl in Hfuel. cbn [collect_events resolved_prefix].
    rewrite (load_Some _ _ _ Hi). outcome_step.
    unfold device_ready_b. rewrite Hi.
    destruct (is_cuda_success (cuEventSynchronize symbols (event e)));
      [|done].
    destruct (is_cuda_success (cuEventQuery symbols (event e))); [|done].
    cbn [negb andb]. outcome_step.
    rewrite IH by lia. outcome_step.
    assert (Hn : notification symbols context_id base pool i =
                 Some (iree_tracing_gpu_zone_notify context_id
                         (uint32_t (pool_index i))
                         (cuEventElapsedTime symbols base (event e))))
      by (unfold notification; by rewrite Hi).
    cbn [omap list_omap]. by rewrite Hn.
Qed.

Lemma device_ready_b_true pool i :
  device_ready symbols pool i → device_ready_b symbols pool i = true.
Proof.
  intros (e & He & Hs & Hq). unfold device_ready_b.
  by rewrite He, Hs, Hq.
Qed.

Lemma resolved_prefix_ready pool l :
  Forall (device_ready symbols pool) l → resolved_prefix symbols pool l = l.
Proof.
  induction 1 as [|i l Hi Hl IH]; [done|].
  simpl. by rewrite (device_ready_b_true _ _ Hi), IH.
Qed.

Lemma resolved_prefix_same_events pool pool' l :
  same_events pool pool' →
  resolved_prefix symbols pool' l = resolved_prefix symbols pool l.
Proof.
  intros Hsame. induction l as [|i l IH]; [done|].
  simpl. rewrite IH.
  assert (Hb : device_ready_b symbols pool' i = device_ready_b symbols pool i).
  { unfold device_ready_b. specialize (Hsame i).
    destruct (pool !! i) as [e|], (pool' !! i) as [e'|]; try done.
    injection Hsame as Hev. by rewrite Hev. }
  by rewrite Hb.
Qed.

Lemma same_events_mark pool h e :
  pool !! h = Some e →
  same_events pool (<[h := set_was_submitted true e]> pool).
Proof.
  intros He i. rewrite lookup_insert_pool by by eapply lookup_lt_Some.
  case_decide; [subst; by rewrite He|done].
Qed.

Lemma collect_submissions_unfold fuel
    (c : iree_hal_cuda_tracing_context_t) (h : nat) :
  collect_submissions symbols (S fuel) c (Some h) =
    (notes ← collect_events symbols (S (length (event_pool c))) (id c)
               (base_event c) (event_pool c) (Some h);
     e ← load (event_pool c) (Some h);
     pool' ← store (event_pool c) (Some h) (set_was_submitted true);
     '(c'', notes') ←
        collect_submissions symbols fuel
          (set_submitted_event_list
             (mk_event_list (next_submission e)
                            (tail (submitted_event_list c)))
             (set_event_pool pool' c))
          (next_submission e);
     Done (c'', notes ++ notes')).
Proof. reflexivity. Qed.

Lemma notification_mark context_id base pool h e i :
  pool !! h = Some e →
  notification symbols context_id base (<[h := set_was_submitted true e]> pool) i
  = notification symbols context_id base pool i.
Proof.
  intros He. unfold notification.
  rewrite lookup_insert_pool by by eapply lookup_lt_Some.
  case_decide; [subst; by rewrite He|done].
Qed.

Lemma collect_submissions_spec heads :
  ∀ (chains : list (list nat)) (fuel : nat)
    (c : iree_hal_cuda_tracing_context_t) (p : event_ptr),
  head (submitted_event_list c) = p →
  submission_list (event_pool c) p heads →
  Forall2 (λ h l, cb_list (event_pool c) (Some h) l) heads chains →
  length heads ≤ fuel →
  ∃ c',
    collect_submissions symbols fuel c p =
      Done (c', omap (notification symbols (id c) (base_event c) (event_pool c))
                  (concat (resolved_prefix symbols (event_pool c) <$> chains))) ∧
    head (submitted_event_list c') = None ∧
    event_freelist_head c' = event_freelist_head c ∧
    id c' = id c ∧ base_event c' = base_event c ∧
    marked_submitted heads (event_pool c) (event_pool c').
Proof.
  induction heads as [|h hs IH];
    intros chains fuel c p Hp Hheads Hchains Hfuel.
  - apply linked_empty_inv in Hheads as ->.
    apply Forall2_nil_inv_l in Hchains as ->.
    exists c. destruct fuel; simpl; repeat split; try done.
  - apply linked_cons_inv in Hheads as (-> & e & He & Hhs).
    apply Forall2_cons_inv_l in Hchains as (l & ls & Hl & Hls & ->).
    destruct fuel as [|fuel]; [simpl in Hfuel; lia|]. simpl in Hfuel.
    rewrite collect_submissions_unfold.
    rewrite (collect_events_spec _ _ _ _ _ l); [|done|].
    2: { apply linked_length in Hl. lia. }
    outcome_step. rewrite (load_Some _ _ _ He). outcome_step.
    rewrite (store_Some _ _ _ _ He). outcome_step.
    set (pool1 := <[h := set_was_submitted true e]> (event_pool c)).
    set (c1 := set_submitted_event_list _ _).
    destruct (IH ls fuel c1 (next_submission e))
      as (c' & Hrun & Hhead & Hfree & Hid & Hbase & Hlen & Hmark).
    { done. }
    { by eapply linked_insert_same. }
    { eapply Forall2_impl; [exact Hls|]. intros h' l' Hl'.
      by eapply linked_insert_same. }
    { lia. }
    exists c'. rewrite Hrun. outcome_step.
    split.
    { f_equal. f_equal. rewrite fmap_cons. cbn [concat].
      rewrite omap_app. f_equal.
      assert (Hpre : resolved_prefix symbols (event_pool c1) <$> ls
                     = resolved_prefix symbols (event_pool c) <$> ls).
      { apply list_fmap_ext. intros k l' _.
        apply resolved_prefix_same_events. by apply same_events_mark. }
      rewrite Hpre.
      apply omap_ext_all. intros i. by apply notification_mark. }
    split; [done|]. split; [done|]. split; [done|]. split; [done|].
    split; [rewrite Hlen; apply length_insert|].
    intros i ei Hei.
    assert (Hh : h < length (event_pool c)) by by eapply lookup_lt_Some.
    destruct (decide (i = h)) as [->|Hne].
    + assert (ei = e) as -> by congruence.
      rewrite (Hmark h (set_was_submitted true e))
        by by apply list_lookup_insert_eq.
      destruct (decide (h ∈ h :: hs)) as [_|Hn]; [|exfalso; apply Hn; by left].
      by case_decide.
    + rewrite (Hmark i ei)
        by (subst c1 pool1; simpl; by rewrite list_lookup_insert_ne).
      destruct (decide (i ∈ hs)) as [Hin|Hin],
               (decide (i ∈ h :: hs)) as [Hin'|Hin']; try done.
      * exfalso. apply Hin'. by right.
      * apply elem_of_cons in Hin' as [?|?]; done.
Qed.

End CollectFacts.

(** Collect on a well-formed queue, whatever the device answers: for each
    queued command buffer, oldest first, it reports the events in front of
    the first unresolved one; then it marks the head submitted and takes
    the command buffer off the queue, resolved or not. *)
Lemma collect_spec symbols c chains :
  queue_holds c chains →
  ∃ c' heads,
    iree_hal_cuda_tracing_context_collect symbols c =
      Done (c', omap (notification symbols (id c) (base_event c) (event_pool c))
                  (concat (resolved_prefix symbols (event_pool c) <$> chains))) ∧
    head (submitted_event_list c') = None ∧
    event_freelist_head c' = event_freelist_head c ∧
    id c' = id c ∧ base_event c' = base_event c ∧
    Forall2 (λ h l, cb_list (event_pool c) (Some h) l) heads chains ∧
    marked_submitted heads (event_pool c) (event_pool c').
Proof.
  intros (heads & Hheads & Hchains & _).
  unfold iree_hal_cuda_tracing_context_collect.
  destruct (head (submitted_event_list c)) as [h|] eqn:Hhead.
  - rewrite <- Hhead in *.
    destruct (collect_submissions_spec symbols heads chains
                (S (length (event_pool c))) c (head (submitted_event_list c)))
      as (c' & Hrun & H1 & H2 & H3 & H4 & H5); try done.
    { apply linked_length in Hheads. lia. }
    exists c', heads. by rewrite Hrun.
  - apply linked_nil_inv in Hheads as ->.
    apply Forall2_nil_inv_l in Hchains as ->.
    exists c, []. simpl. repeat split; try done.
Qed.

Lemma collect_spec_ready symbols c chains :
  queue_holds c chains →
  Forall (device_ready symbols (event_pool c)) (concat chains) →
  ∃ c',
    iree_hal_cuda_tracing_context_collect symbols c =
      Done (c', omap (notification symbols (id c) (base_event c) (event_pool c))
                  (concat chains)) ∧
    head (submitted_event_list c') = None.
Proof.
  intros Hq Hready.
  destruct (collect_spec symbols c chains Hq) as (c' & heads & Hrun & Hhead & _).
  exists c'. split; [|done]. rewrite Hrun. do 3 f_equal.
  clear -Hready. induction chains as [|l ls IH]; [done|].
  rewrite fmap_cons. cbn [concat] in *.
  apply Forall_app in Hready as [Hl Hls].
  by rewrite (resolved_prefix_ready _ _ _ Hl), IH.
Qed.

Lemma collect_submissions_empties_queue symbols fuel :
  ∀ (c c' : iree_hal_cuda_tracing_context_t) (p : event_ptr) notes,
  head (submitted_event_list c) = p →
  collect_submissions symbols fuel c p = Done (c', notes) →
  head (submitted_event_list c') = None.
Proof.
  induction fuel as [|fuel IH]; intros c c' p notes Hp Hrun.
  - destruct p; [done|]. simpl in Hrun. by injection Hrun as <- _.
  - destruct p as [h|]; [|simpl in Hrun; by injection Hrun as <- _].
    rewrite collect_submissions_unfold in Hrun.
    destruct (collect_events _ _ _ _ _ _) as [notes0|]; [|done].
    rewrite outcome_bind_Done in Hrun.
    destruct (load _ _) as [e|]; [|done].
    rewrite outcome_bind_Done in Hrun.
    destruct (store _ _ _) as [pool'|]; [|done].
    rewrite outcome_bind_Done in Hrun.
    destruct (collect_submissions _ _ _ _) as [[c'' notes']|] eqn:Hrec; [|done].
    rewrite outcome_bind_Done in Hrun. injection Hrun as <- _.
    by eapply IH; [|exact Hrec].
Qed.

Lemma collect_empties_queue symbols c c' notes :
  iree_hal_cuda_tracing_context_collect symbols c = Done (c', notes) →
  head (submitted_event_list c') = None.
Proof.
  unfold iree_hal_cuda_tracing_context_collect.
  destruct (head (submitted_event_list c)) as [h|] eqn:Hhead.
  - rewrite <- Hhead. by apply collect_submissions_empties_queue.
  - by intros [= <- _].
Qed.

(** * Reclaiming an event list *)

Lemma free_notify_events_linked fuel context_id pool p l :
  cb_list pool p l → length l ≤ fuel →
  free_notify_events fuel context_id pool p =
    Done (zero_notifications context_id l).
Proof.
  intros H. revert fuel.
  induction H as [|i e l Hi Hl IH]; intros fuel Hfuel.
  - by destruct fuel.
  - destruct fuel as [|fuel]; [simpl in Hfuel; lia|].
    simpl in *. rewrite Hi. simpl. rewrite IH by lia. done.
Qed.

(** With at least one event on the free list, freeing a command buffer's
    events reports a zero timestamp for each of them unless the head is
    marked submitted, puts them in front of the free list in their order,
    clears the head's [next_submission] and [was_submitted] and empties the
    caller's handle. *)
Lemma free_onto_nonempty_free_list c event_list h l f fl e :
  cb_list (event_pool c) (event_freelist_head c) (f :: fl) →
  event_list_holds (event_pool c) event_list (h :: l) →
  (∀ i, i ∈ h :: l → i ∉ f :: fl) →
  event_pool c !! h = Some e →
  ∃ c' e',
    iree_hal_cuda_tracing_free c event_list =
      Done (c', mk_event_list None None,
            if was_submitted e then []
            else zero_notifications (id c) (h :: l)) ∧
    same_header c c' ∧
    cb_list (event_pool c') (event_freelist_head c') ((h :: l) ++ f :: fl) ∧
    event_pool c' !! h = Some e' ∧
    next_submission e' = None ∧ was_submitted e' = false ∧
    same_events (event_pool c) (event_pool c') ∧
    (∀ i, i ∉ h :: l → event_pool c' !! i = event_pool c !! i).
Proof.
  intros Hfree [Hl Htail] Hdisj He.
  pose proof Hl as Hl0.
  apply linked_cons_inv in Hl as (Hel & _).
  pose proof Hfree as Hfree0.
  apply linked_cons_inv in Hfree as (Hhead & _).
  destruct (last (h :: l)) as [t|] eqn:Hlast; [|by apply last_None in Hlast].
  specialize (Htail ltac:(done)).
  assert (Hin : t ∈ h :: l) by by eapply last_Some_elem_of.
  assert (Hhlt : h < length (event_pool c)) by by eapply lookup_lt_Some.
  set (e1 := set_was_submitted false (set_next_submission None e)).
  set (pool1 := <[h := e1]> (event_pool c)).
  assert (Hh1 : pool1 !! h = Some e1) by by apply list_lookup_insert_eq.
  assert (Hl1 : cb_list pool1 (Some h) (h :: l)).
  { rewrite <- Hel. eapply linked_insert_same; [done|done|done]. }
  assert (Hfree1 : cb_list pool1 (Some f) (f :: fl)).
  { rewrite <- Hhead. apply linked_insert_ne; [done|]. apply Hdisj. by left. }
  destruct (lookup_lt_is_Some_2 pool1 t) as [et Het];
    [by eapply (linked_bound _ pool1 (Some h) (h :: l))|].
  exists (set_event_freelist_head (Some h)
            (set_event_pool
               (<[t := set_next_in_command_buffer (Some f) et]> pool1) c)).
  exists (if decide (t = h) then set_next_in_command_buffer (Some f) e1 else e1).
  split.
  { unfold iree_hal_cuda_tracing_free.
    rewrite Hel, (load_Some _ _ _ He). outcome_step.
    assert (Hnotes :
      (if negb (was_submitted e)
       then free_notify_events (S (length (event_pool c))) (id c)
              (event_pool c) (Some h)
       else Done []) =
      Done (if was_submitted e then []
            else zero_notifications (id c) (h :: l))).
    { destruct (was_submitted e); [done|].
      change (negb false) with true. cbv iota.
      apply free_notify_events_linked; [by rewrite <- Hel|].
      apply linked_length in Hl0. lia. }
    rewrite Hnotes, Hhead. outcome_step.
    rewrite (store_Some _ _ _ _ He). outcome_step.
    erewrite store_Some by by apply list_lookup_insert_eq.
    outcome_step. rewrite list_insert_insert_eq, Htail.
    fold e1. fold pool1.
    rewrite (store_Some _ _ _ _ Het). outcome_step. done. }
  split; [done|]. cbn.
  split.
  { change (h :: l ++ f :: fl) with ((h :: l) ++ f :: fl).
    eapply linked_append; try done. }
  split.
  { rewrite lookup_insert_pool by by eapply lookup_lt_Some.
    case_decide as Hth; [subst t; congruence|done]. }
  split; [by case_decide|]. split; [by case_decide|].
  split.
  - intros i. rewrite lookup_insert_pool by by eapply lookup_lt_Some.
    case_decide as Hti.
    + subst i. unfold pool1 in Het.
      rewrite lookup_insert_pool in Het by done.
      case_decide; [|by rewrite Het].
      subst t. rewrite He. by injection Het as <-.
    + unfold pool1. rewrite lookup_insert_pool by done.
      case_decide; [subst i; by rewrite He|done].
  - intros i Hi.
    rewrite list_lookup_insert_ne by (intros ->; done).
    unfold pool1. rewrite list_lookup_insert_ne; [done|].
    intros ->. apply Hi. by left.
Qed.

(** * Insertions and frees keep the pool partitioned (build with assertions) *)

Lemma list_of_insert c (m : gmap nat iree_hal_cuda_tracing_context_event_list_t)
    k cb l x :
  list_of (mk_system c (<[cb := l]> m) k) x =
    if decide (cb = x) then l else default (mk_event_list None None) (m !! x).
Proof.
  unfold list_of. simpl. rewrite lookup_insert. by case_decide.
Qed.

Lemma step_partitioned s o s' :
  partitioned s → insert_or_free o → step true s o = Done s' →
  partitioned s'.
Proof.
  intros (fl & chain & Hfl & Hne & Hch & P1 & P2 & P3) Hop Hstep.
  destruct o as [cb| | |cb]; try done.
  - destruct fl as [|f fl]; [done|].
    destruct fl as [|f' fl'].
    { exfalso. apply linked_cons_inv in Hfl as (Hhead & e & He & Hnil).
      apply linked_empty_inv in Hnil. cbn [step] in Hstep.
      by rewrite (proj1 (insert_query_last_free_event_asserts
                           (context s) (list_of s cb) f e true Hhead He Hnil))
        in Hstep. }
    pose proof (linked_NoDup _ _ _ _ Hfl) as Hnd.
    apply NoDup_cons in Hnd as [Hffl _].
    destruct (insert_query_spec true (context s) (list_of s cb) f (f' :: fl')
                (chain cb)) as (c' & l' & Hrun & _ & Hfl' & Hl' & Hw);
      [done|done|by eauto|done|].
    cbn [step] in Hstep. rewrite Hrun in Hstep.
    rewrite outcome_bind_Done in Hstep. injection Hstep as <-.
    exists (f' :: fl'), (λ x, if decide (cb = x) then chain cb ++ [f] else chain x).
    cbn [context]. split; [done|]. split; [done|]. split; [|split; [|split]].
    + intros x. rewrite list_of_insert. case_decide as Hx; [done|].
      destruct (Hch x) as [Hlx Htx]. split; [|done].
      eapply cb_list_writes_elsewhere; [done|done|].
      intros i Hi Hin. apply elem_of_cons in Hin as [->|Hin].
      * by apply (P1 x f Hi); left.
      * by apply Hx, (P2 cb x i).
    + intros x i Hi Hin. case_decide as Hx.
      * apply elem_of_app in Hi as [Hi|Hi].
        -- apply (P1 cb i Hi). by right.
        -- apply list_elem_of_singleton in Hi as ->. done.
      * apply (P1 x i Hi). by right.
    + intros x y i Hi Hj.
      assert (Hf : ∀ z, f ∉ chain z) by (intros z Hz; apply (P1 z f Hz); by left).
      destruct (decide (cb = x)) as [Hx|Hx], (decide (cb = y)) as [Hy|Hy];
        try congruence.
      * subst x.
        apply elem_of_app in Hi as [Hi|Hi]; [by apply (P2 cb y i)|].
        apply list_elem_of_singleton in Hi as ->. by destruct (Hf y).
      * subst y.
        apply elem_of_app in Hj as [Hj|Hj]; [by apply (P2 x cb i)|].
        apply list_elem_of_singleton in Hj as ->. by destruct (Hf x).
      * by apply (P2 x y i).
    + intros i Hi. destruct Hw as [Hlen _]. rewrite Hlen in Hi.
      destruct (P3 i Hi) as [Hin|(x & Hx)].
      * apply elem_of_cons in Hin as [->|Hin]; [|by left].
        right. exists cb. rewrite decide_True by done.
        apply elem_of_app. right. by left.
      * right. exists x. case_decide; [subst x|done].
        apply elem_of_app. by left.
  - destruct (chain cb) as [|h l] eqn:Hc.
    + destruct (Hch cb) as [Hl _]. rewrite Hc in Hl.
      apply linked_empty_inv in Hl.
      cbn [step] in Hstep. unfold iree_hal_cuda_tracing_free in Hstep.
      rewrite Hl in Hstep. rewrite outcome_bind_Done in Hstep.
      injection Hstep as <-.
      exists fl, chain. cbn [context].
      split; [done|]. split; [done|]. split; [|done].
      intros x. rewrite list_of_insert. case_decide as Hx; [subst x|]; apply Hch.
    + destruct fl as [|f fl']; [done|].
      pose proof (Hch cb) as Hcb. rewrite Hc in Hcb.
      destruct Hcb as [Hl0 Ht0].
      destruct (lookup_lt_is_Some_2 (event_pool (context s)) h) as [e He].
      { eapply linked_bound; [exact Hl0|by left]. }
      destruct (free_onto_nonempty_free_list (context s) (list_of s cb)
                  h l f fl' e)
        as (c' & e' & Hrun & _ & Hfl' & _ & _ & _ & Hsame & Hframe);
        [done|done| |done|].
      { intros i Hi. apply (P1 cb). by rewrite Hc. }
      cbn [step] in Hstep. rewrite Hrun in Hstep.
      rewrite outcome_bind_Done in Hstep. injection Hstep as <-.
      exists ((h :: l) ++ f :: fl'), (λ x, if decide (cb = x) then [] else chain x).
      cbn [context]. split; [done|]. split; [done|]. split; [|split; [|split]].
      * intros x. rewrite list_of_insert. case_decide as Hx.
        { split; [constructor|done]. }
        destruct (Hch x) as [Hlx Htx]. split; [|done].
        eapply linked_frame; [exact Hlx|].
        intros i ei Hi Hei. exists ei. split; [|done].
        rewrite Hframe; [done|]. rewrite <- Hc. intros Hin.
        by apply Hx, (P2 cb x i).
      * intros x i Hi Hin. case_decide as Hx; [by apply elem_of_nil in Hi|].
        apply elem_of_app in Hin as [Hin|Hin].
        -- rewrite <- Hc in Hin. by apply Hx, (P2 cb x i).
        -- by apply (P1 x i).
      * intros x y i Hi Hj.
        destruct (decide (cb = x)); [by apply elem_of_nil in Hi|].
        destruct (decide (cb = y)); [by apply elem_of_nil in Hj|].
        by apply (P2 x y i).
      * intros i Hi. rewrite (same_events_length _ _ Hsame) in Hi.
        destruct (P3 i Hi) as [Hin|(x & Hx)].
        -- left. apply elem_of_app. by right.
        -- destruct (decide (cb = x)) as [->|Hne'].
           ++ left. apply elem_of_app. left. by rewrite <- Hc.
           ++ right. exists x. by rewrite decide_False.
Qed.

Lemma run_partitioned ops :
  ∀ s s', partitioned s → Forall insert_or_free ops →
  run true s ops = Done s' → partitioned s'.
Proof.
  induction ops as [|o ops IH]; intros s s' Hs Hops Hrun.
  - simpl in Hrun. by injection Hrun as <-.
  - apply Forall_cons in Hops as [Ho Hops]. cbn [run] in Hrun.
    destruct (step true s o) as [s1|] eqn:Hstep; [|done].
    rewrite outcome_bind_Done in Hrun.
    eapply IH; [|done|done]. by eapply step_partitioned.
Qed.

(** In a build with assertions, whatever insertions and frees a client of
    a freshly allocated context performs, as long as they return: every
    event is on the free list or in exactly one command buffer's list. *)
Lemma fresh_context_stays_partitioned
    symbols stream_tracing_verbosity tracy_id memory c ops s :
  iree_hal_cuda_tracing_context_allocate symbols stream_tracing_verbosity
    tracy_id memory = Some c →
  0 < length memory →
  Forall insert_or_free ops →
  run true (mk_system c ∅ []) ops = Done s →
  partitioned s.
Proof.
  intros Halloc Hpos Hops Hrun.
  eapply run_partitioned; [|done|done].
  exists (seq 0 (length memory)), (λ _, []). cbn [context].
  split; [by eapply allocate_free_list|].
  split; [destruct (length memory); [lia|done]|].
  split; [intros cb; split; [constructor|done]|].
  split; [intros cb i Hi; by apply elem_of_nil in Hi|].
  split; [intros cb cb' i Hi; by apply elem_of_nil in Hi|].
  intros i Hi. left. apply elem_of_seq.
  rewrite (allocate_pool_length _ _ _ _ _ Halloc) in Hi. lia.
Qed.


(** * Collecting and freeing a command buffer the device did not finish *)

(** One command buffer is queued.  Collect reports its events up to the
    first one the device has not completed and marks it submitted; the free
    that follows therefore reports nothing and returns every event to the
    free list.  The events from the first unresolved one on are never
    reported. *)
Lemma unresolved_events_are_never_reported symbols c event_list h l f fl :
  queue_holds c [h :: l] →
  event_list_holds (event_pool c) event_list (h :: l) →
  cb_list (event_pool c) (event_freelist_head c) (f :: fl) →
  (∀ i, i ∈ h :: l → i ∉ f :: fl) →
  ∃ c3 c4,
    iree_hal_cuda_tracing_context_collect symbols c =
      Done (c3, omap (notification symbols (id c) (base_event c) (event_pool c))
                  (resolved_prefix symbols (event_pool c) (h :: l))) ∧
    iree_hal_cuda_tracing_free c3 event_list =
      Done (c4, mk_event_list None None, []) ∧
    cb_list (event_pool c4) (event_freelist_head c4) ((h :: l) ++ f :: fl) ∧
    head (submitted_event_list c4) = None.
Proof.
  intros Hq Hl Hfl Hdisj.
  destruct (collect_spec symbols c _ Hq)
    as (c3 & heads & Hrun3 & Hhead3 & Hfree3 & _ & _ & Hheads & Hlen3 & Hmark3).
  apply Forall2_cons_inv_r in Hheads as (h' & hs & Hh & Hhs & ->).
  apply Forall2_nil_inv_r in Hhs as ->.
  pose proof (linked_cons_inv _ _ _ _ _ Hh) as ([= ->] & e & He & _).
  assert (Hcb3 : ∀ p l0, cb_list (event_pool c) p l0 → cb_list (event_pool c3) p l0).
  { intros p l0 Hl0. eapply linked_frame; [exact Hl0|].
    intros i ei _ Hei. rewrite (Hmark3 i ei Hei). eexists. split; [done|].
    by case_decide. }
  assert (He3 : event_pool c3 !! h = Some (set_was_submitted true e)).
  { rewrite (Hmark3 h e He). rewrite decide_True; [done|by left]. }
  destruct Hl as [Hl Ht].
  destruct (free_onto_nonempty_free_list c3 event_list h l f fl
              (set_was_submitted true e))
    as (c4 & e4 & Hrun4 & (_ & _ & Hsub4 & _) & Hfl4 & _); try done.
  { rewrite Hfree3. by apply Hcb3. }
  { split; [by apply Hcb3|done]. }
  exists c3, c4. simpl in Hrun3. rewrite app_nil_r in Hrun3.
  split; [exact Hrun3|]. split; [exact Hrun4|]. split; [done|].
  by rewrite Hsub4.
Qed.

(** * Freeing while the free list is empty (build without assertions) *)

Lemma free_onto_empty_free_list c event_list h e l :
  head event_list = Some h →
  event_pool c !! h = Some e →
  cb_list (event_pool c) (head event_list) l →
  event_freelist_head c = None →
  iree_hal_cuda_tracing_free c event_list =
    Done (set_event_freelist_head (Some h) c, event_list,
          if was_submitted e then [] else zero_notifications (id c) l).
Proof.
  intros Hh He Hl Hfree. unfold iree_hal_cuda_tracing_free.
  rewrite Hh, (load_Some _ _ _ He). outcome_step.
  assert (Hnotes :
    (if negb (was_submitted e)
     then free_notify_events (S (length (event_pool c))) (id c)
            (event_pool c) (Some h)
     else Done []) =
    Done (if was_submitted e then [] else zero_notifications (id c) l)).
  { destruct (was_submitted e); [done|].
    change (negb false) with true. cbv iota.
    apply free_notify_events_linked; [by rewrite <- Hh|].
    apply linked_length in Hl. lia. }
  rewrite Hnotes. outcome_step. by rewrite Hfree.
Qed.

(** At any capacity N: once a command buffer holds all N events and is
    freed, the N events form the free list and are still what the command
    buffer's handle points at. *)
Lemma freed_events_stay_in_the_handle
    symbols stream_tracing_verbosity tracy_id memory c :
  iree_hal_cuda_tracing_context_allocate symbols stream_tracing_verbosity
    tracy_id memory = Some c →
  0 < length memory →
  let N := length memory in
  ∃ c1 l1 qs c2 notes,
    insert_queries false N c (mk_event_list None None) = Done (c1, l1, qs) ∧
    iree_hal_cuda_tracing_free c1 l1 = Done (c2, l1, notes) ∧
    cb_list (event_pool c2) (event_freelist_head c2) (seq 0 N) ∧
    event_list_holds (event_pool c2) l1 (seq 0 N).
Proof.
  intros Halloc Hpos N.
  pose proof (allocate_free_list _ _ _ _ _ Halloc Hpos) as Hfl. fold N in Hfl.
  destruct (insert_queries_spec false N c (mk_event_list None None) (seq 0 N) [])
    as (c1 & l1 & Hrun & _ & Hfree1 & Hl1 & _); try done.
  { split; [constructor|done]. }
  { intros i Hi. by apply elem_of_nil in Hi. }
  { intros _. rewrite length_seq. simpl. lia. }
  rewrite drop_ge in Hfree1 by (rewrite length_seq; lia).
  apply linked_empty_inv in Hfree1.
  rewrite take_ge in Hl1 by (rewrite length_seq; lia). simpl in Hl1.
  destruct Hl1 as [Hl1 Ht1]. pose proof Hl1 as Hl1'.
  destruct N as [|n] eqn:HN; [lia|].
  change (seq 0 (S n)) with (0 :: seq 1 n) in Hl1'.
  apply linked_cons_inv in Hl1' as (Hh & e & He & _).
  do 5 eexists.
  split; [exact Hrun|].
  split; [by apply (free_onto_empty_free_list c1 l1 0 e (seq 0 (S n)))|].
  cbn [event_pool event_freelist_head set_event_freelist_head].
  rewrite <- Hh. done.
Qed.

(** At any capacity N ≥ 2: a command buffer takes all N events, is
    submitted, collected and freed.  The free runs with an empty free list
    and leaves [was_submitted] set on event 0.  The next command buffer
    takes event 0 and is discarded unsubmitted: its free reports nothing. *)
Lemma discarded_events_are_not_reported
    symbols device stream_tracing_verbosity tracy_id memory c :
  iree_hal_cuda_tracing_context_allocate symbols stream_tracing_verbosity
    tracy_id memory = Some c →
  2 ≤ length memory →
  let N := length memory in
  let empty := mk_event_list None None in
  ∃ c1 l1 qs c2 c3 notes c4 c5 l5 q c6,
    insert_queries false N c empty = Done (c1, l1, qs) ∧
    iree_hal_cuda_tracing_notify_submitted c1 l1 = Done c2 ∧
    iree_hal_cuda_tracing_context_collect device c2 = Done (c3, notes) ∧
    iree_hal_cuda_tracing_free c3 l1 = Done (c4, l1, []) ∧
    iree_hal_cuda_stream_tracing_context_insert_query false c4 empty
      = Done (c5, l5, q) ∧
    event_list_holds (event_pool c5) l5 [0] ∧
    iree_hal_cuda_tracing_free c5 l5 = Done (c6, empty, []).
Proof.
  intros Halloc HN N empty.
  assert (Hpos : 0 < length memory) by lia.
  pose proof (allocate_free_list _ _ _ _ _ Halloc Hpos) as Hfl. fold N in Hfl.
  destruct (allocate_inv _ _ _ _ _ Halloc) as (_ & Hsub & _).
  destruct (allocate_slots_clean _ _ _ _ _ 0 Halloc Hpos) as (e0 & He0 & Hns0 & _).
  assert (HNeq : seq 0 N = 0 :: 1 :: seq 2 (N - 2)).
  { assert (Hseq : ∀ n, 2 ≤ n → seq 0 n = 0 :: 1 :: seq 2 (n - 2)).
    { intros [|[|n]] Hn; [lia|lia|]. simpl. by rewrite Nat.sub_0_r. }
    by apply Hseq. }
  (* the first command buffer takes every event *)
  destruct (insert_queries_spec false N c empty (seq 0 N) [])
    as (c1 & l1 & Hrun1 & (_ & _ & Hsub1 & _) & Hfree1 & Hl1 & Hw1); try done.
  { split; [constructor|done]. }
  { intros i Hi. by apply elem_of_nil in Hi. }
  { intros _. rewrite length_seq. simpl. lia. }
  rewrite drop_ge in Hfree1 by (rewrite length_seq; lia).
  apply linked_empty_inv in Hfree1.
  rewrite take_ge in Hl1, Hw1 by (rewrite length_seq; lia).
  simpl in Hl1, Hw1.
  destruct (proj2 Hw1 0 e0 He0) as (e1 & He1 & _ & Hns1 & _).
  (* it is submitted *)
  rewrite HNeq in Hl1.
  destruct (notify_submitted_spec c1 l1 0 (1 :: seq 2 (N - 2)) [] e1)
    as (c2 & Hrun2 & Hq2 & Hfree2 & _ & _ & _ & Hcb2); try done.
  { exists []. rewrite Hsub1, Hsub. simpl.
    split; [constructor|]. split; [constructor|done]. }
  { congruence. }
  { intros i _ Hin. by apply elem_of_nil in Hin. }
  (* and collected: the head is marked *)
  destruct (collect_spec device c2 _ Hq2)
    as (c3 & heads & Hrun3 & _ & Hfree3 & _ & _ & Hheads & Hlen3 & Hmark3).
  simpl in Hheads.
  apply Forall2_cons_inv_r in Hheads as (h & hs & Hh & Hhs & ->).
  apply Forall2_nil_inv_r in Hhs as ->.
  pose proof (linked_cons_inv _ _ _ _ _ Hh) as ([= ->] & e2 & He2 & _).
  assert (Hcb3 : ∀ p l, cb_list (event_pool c2) p l → cb_list (event_pool c3) p l).
  { intros p l Hl. eapply linked_frame; [exact Hl|].
    intros i e _ He. rewrite (Hmark3 i e He). eexists. split; [done|].
    by case_decide. }
  assert (He3 : event_pool c3 !! 0 = Some (set_was_submitted true e2)).
  { rewrite (Hmark3 0 e2 He2). rewrite decide_True; [done|by left]. }
  (* freeing it returns early: the free list was empty *)
  assert (Hrun4 : iree_hal_cuda_tracing_free c3 l1 =
                  Done (set_event_freelist_head (Some 0) c3, l1, [])).
  { destruct Hl1 as [Hl1 _].
    pose proof (linked_cons_inv _ _ _ _ _ Hl1) as (Hhead1 & _).
    apply (free_onto_empty_free_list c3 l1 0 (set_was_submitted true e2)
             (0 :: 1 :: seq 2 (N - 2))); try done.
    - by apply Hcb3, Hcb2.
    - congruence. }
  (* a second command buffer receives event 0 *)
  set (c4 := set_event_freelist_head (Some 0) c3) in *.
  destruct (insert_query_spec false c4 empty 0 (1 :: seq 2 (N - 2)) [])
    as (c5 & l5 & Hrun5 & _ & Hfree5 & Hl5 & Hw5); try done.
  { cbn. rewrite <- HNeq. apply Hcb3. destruct Hl1 as [Hl1 _].
    pose proof (linked_cons_inv _ _ _ _ _ Hl1) as (Hhead1 & _).
    rewrite <- Hhead1, HNeq. by apply Hcb2. }
  { split; [constructor|done]. }
  { intros i Hi. by apply elem_of_nil in Hi. }
  simpl in Hl5.
  destruct (proj2 Hw5 0 _ He3) as (e5 & He5 & _ & _ & Hws5 & _).
  (* and is discarded without having been submitted *)
  destruct (free_onto_nonempty_free_list c5 l5 0 [] 1 (seq 2 (N - 2)) e5)
    as (c6 & e6 & Hrun6 & _); try done.
  { intros i Hi Hin. apply list_elem_of_singleton in Hi as ->.
    apply elem_of_cons in Hin as [?|Hin]; [done|].
    apply elem_of_seq in Hin. lia. }
  rewrite Hws5 in Hrun6. simpl in Hrun6.
  do 11 eexists.
  split; [exact Hrun1|]. split; [exact Hrun2|]. split; [exact Hrun3|].
  split; [exact Hrun4|]. split; [exact Hrun5|]. split; [exact Hl5|].
  exact Hrun6.
Qed.

(** * Collecting after the early return of Free (build without assertions) *)

(** At any capacity N ≥ 2: command buffer 0 takes one event and command
    buffer 1 the other N - 1; both are submitted and collected, and command
    buffer 0 is freed.  The free list is empty, so Free returns early and
    event 0 keeps its link to the head of command buffer 1.  A new command
    buffer then receives event 0 for its only query and is submitted: the
    next collect follows the old link and goes through the events of command
    buffer 1 once more.  On a device that has completed every event it
    reports N query ids for the one query. *)
Lemma stale_queue_link_is_followed
    symbols device stream_tracing_verbosity tracy_id memory c :
  iree_hal_cuda_tracing_context_allocate symbols stream_tracing_verbosity
    tracy_id memory = Some c →
  2 ≤ length memory →
  (Z.of_nat (length memory) ≤ 65536)%Z →
  let N := length memory in
  let empty := mk_event_list None None in
  ∃ c1 l0 c2 l1 qs c3 c4 c5 notes c6 c7 l7 c8 c9 notes',
    iree_hal_cuda_stream_tracing_context_insert_query false c empty
      = Done (c1, l0, 0%Z) ∧
    insert_queries false (N - 1) c1 empty = Done (c2, l1, qs) ∧
    iree_hal_cuda_tracing_notify_submitted c2 l0 = Done c3 ∧
    iree_hal_cuda_tracing_notify_submitted c3 l1 = Done c4 ∧
    iree_hal_cuda_tracing_context_collect device c4 = Done (c5, notes) ∧
    iree_hal_cuda_tracing_free c5 l0 = Done (c6, l0, []) ∧
    iree_hal_cuda_stream_tracing_context_insert_query false c6 empty
      = Done (c7, l7, 0%Z) ∧
    event_list_holds (event_pool c7) l7 [0] ∧
    iree_hal_cuda_tracing_notify_submitted c7 l7 = Done c8 ∧
    iree_hal_cuda_tracing_context_collect device c8 = Done (c9, notes') ∧
    notes' =
      omap (notification device (id c8) (base_event c8) (event_pool c8))
        (resolved_prefix device (event_pool c8) [0] ++
         resolved_prefix device (event_pool c8) (seq 1 (N - 1))) ∧
    (always_completes device →
     notified_query_ids notes' = Z.of_nat <$> seq 0 N).
Proof.
  intros Halloc HN Hcap N empty.
  assert (Hpos : 0 < length memory) by lia.
  pose proof (allocate_free_list _ _ _ _ _ Halloc Hpos) as Hfl. fold N in Hfl.
  pose proof (allocate_pool_length _ _ _ _ _ Halloc) as Hlen. fold N in Hlen.
  destruct (allocate_inv _ _ _ _ _ Halloc) as (_ & Hsub & _).
  destruct (allocate_slots_clean _ _ _ _ _ 0 Halloc Hpos)
    as (a0 & Ha0 & Hns0 & _).
  destruct (allocate_slots_clean _ _ _ _ _ 1 Halloc ltac:(lia))
    as (b0 & Hb0 & Hnsb0 & _).
  assert (Hseq : ∀ n, 2 ≤ n → seq 0 n = 0 :: seq 1 (n - 1) ∧
                               seq 1 (n - 1) = 1 :: seq 2 (n - 2)).
  { intros [|[|n]] Hn; [lia|lia|]. simpl. by rewrite Nat.sub_0_r. }
  destruct (Hseq N HN) as [HN0 HN1]. clear Hseq.
  assert (Hnot0 : 0 ∉ seq 1 (N - 1)).
  { intros Hin. apply elem_of_seq in Hin. lia. }
  assert (Hempty : ∀ pool, event_list_holds pool empty []).
  { intros pool. split; [constructor|done]. }
  (* command buffer 0 takes event 0 *)
  rewrite HN0 in Hfl.
  destruct (insert_query_spec false c empty 0 (seq 1 (N - 1)) [])
    as (c1 & l0 & Hrun1 & (_ & _ & Hsub1 & _) & Hfl1 & Hl0 & Hw1); try done.
  { intros i Hi. by apply elem_of_nil in Hi. }
  rewrite uint16_t_query_id in Hrun1 by lia. simpl in Hl0.
  (* command buffer 1 takes the other events *)
  destruct (insert_queries_spec false (N - 1) c1 empty (seq 1 (N - 1)) [])
    as (c2 & l1 & Hrun2 & (_ & _ & Hsub2 & _) & Hfl2 & Hl1 & Hw2); try done.
  { intros i Hi. by apply elem_of_nil in Hi. }
  { intros _. rewrite length_seq. simpl. lia. }
  rewrite drop_ge in Hfl2 by (rewrite length_seq; lia).
  apply linked_empty_inv in Hfl2.
  rewrite take_ge in Hl1, Hw2 by (rewrite length_seq; lia).
  simpl in Hl1, Hw2.
  destruct (proj2 Hw1 0 a0 Ha0) as (a1 & Ha1 & _ & Hnsa1 & _).
  destruct (proj2 Hw2 0 a1 Ha1) as (a2 & Ha2 & _ & Hnsa2 & _).
  destruct (proj2 Hw1 1 b0 Hb0) as (b1 & Hb1 & _ & Hnsb1 & _).
  destruct (proj2 Hw2 1 b1 Hb1) as (b2 & Hb2 & _ & Hnsb2 & _).
  assert (Hl0_2 : event_list_holds (event_pool c2) l0 [0]).
  { destruct Hl0 as [Hl0 Ht0]. split; [|done].
    eapply cb_list_writes_elsewhere; [exact Hl0|exact Hw2|].
    by intros i ->%list_elem_of_singleton. }
  (* both are submitted *)
  pose proof (proj1 Hl0_2) as Hcb0.
  pose proof (linked_cons_inv _ _ _ _ _ Hcb0) as (Hhead0 & _).
  set (c3 := set_submitted_event_list (mk_event_list (Some 0) (Some 0)) c2).
  assert (Hrun3 : iree_hal_cuda_tracing_notify_submitted c2 l0 = Done c3).
  { unfold iree_hal_cuda_tracing_notify_submitted.
    by rewrite Hhead0, Hsub2, Hsub1, Hsub. }
  assert (Hq3 : queue_holds c3 [[0]]).
  { exists [0]. cbn. split; [|split; [|done]].
    - econstructor; [exact Ha2|]. rewrite Hnsa2, Hnsa1, Hns0. constructor.
    - constructor; [|constructor]. by rewrite <- Hhead0. }
  rewrite HN1 in Hl1.
  destruct (notify_submitted_spec c3 l1 1 (seq 2 (N - 2)) [[0]] b2)
    as (c4 & Hrun4 & Hq4 & Hfree4 & _ & _ & Hsame4 & Hcb4); try done.
  { congruence. }
  { rewrite <- HN1. simpl. intros i Hi ->%list_elem_of_singleton. done. }
  simpl in Hq4. rewrite <- HN1 in Hq4, Hl1.
  (* the queue links event 0 to event 1 *)
  destruct Hq4 as (heads & Hheads & Hchains & _).
  apply Forall2_cons_inv_r in Hchains as (h0 & hs & Hh0 & Hhs & ->).
  apply Forall2_cons_inv_r in Hhs as (h1 & hs' & Hh1 & Hhs' & ->).
  apply Forall2_nil_inv_r in Hhs' as ->.
  pose proof (linked_cons_inv _ _ _ _ _ Hh0) as ([= ->] & _).
  rewrite HN1 in Hh1.
  pose proof (linked_cons_inv _ _ _ _ _ Hh1) as ([= ->] & _).
  rewrite <- HN1 in Hh1.
  pose proof (linked_cons_inv _ _ _ _ _ Hheads) as (Hqhead4 & _).
  rewrite Hqhead4 in Hheads.
  (* the collect marks both heads and empties the queue *)
  destruct (collect_submissions_spec device [0; 1] [[0]; seq 1 (N - 1)]
              (S (length (event_pool c4))) c4 (Some 0))
    as (c5 & Hrun5 & Hqhead5 & Hfree5 & _ & _ & Hlen5 & Hmark5); try done.
  { constructor; [done|]. by constructor. }
  { simpl. pose proof (linked_bound _ _ _ _ 1 Hh1) as Hb.
    rewrite HN1 in Hb. specialize (Hb ltac:(by left)). lia. }
  assert (Hcollect5 : iree_hal_cuda_tracing_context_collect device c4
                      = Done (c5, omap (notification device (id c4)
                                          (base_event c4) (event_pool c4))
                                   (concat (resolved_prefix device (event_pool c4)
                                              <$> [[0]; seq 1 (N - 1)])))).
  { unfold iree_hal_cuda_tracing_context_collect. by rewrite Hqhead4. }
  assert (Hkeep5 : ∀ link, (∀ e, link (set_was_submitted true e) = link e) →
            ∀ p l, linked link (event_pool c4) p l →
                   linked link (event_pool c5) p l).
  { intros link Hlink p l Hl. eapply linked_frame; [exact Hl|].
    intros i e _ He. rewrite (Hmark5 i e He). eexists. split; [done|].
    by case_decide. }
  destruct (lookup_lt_is_Some_2 (event_pool c4) 0) as [a4 Ha4].
  { eapply linked_bound; [exact Hh0|by left]. }
  assert (Ha5 : event_pool c5 !! 0 = Some (set_was_submitted true a4)).
  { rewrite (Hmark5 0 a4 Ha4). rewrite decide_True; [done|by left]. }
  (* freeing command buffer 0 returns early: the free list is empty *)
  assert (Hrun6 : iree_hal_cuda_tracing_free c5 l0 =
                  Done (set_event_freelist_head (Some 0) c5, l0, [])).
  { apply (free_onto_empty_free_list c5 l0 0 (set_was_submitted true a4) [0]);
      try done.
    - apply (Hkeep5 next_in_command_buffer); [done|]. by apply Hcb4.
    - by rewrite Hfree5, Hfree4. }
  set (c6 := set_event_freelist_head (Some 0) c5) in *.
  (* a new command buffer receives event 0 *)
  destruct (insert_query_spec false c6 empty 0 [] [])
    as (c7 & l7 & Hrun7 & (Hid7 & Hbase7 & Hsub7 & _) & _ & Hl7 & Hw7);
    try done.
  { cbn. apply (Hkeep5 next_in_command_buffer); [done|]. apply Hcb4.
    by rewrite <- Hhead0. }
  { intros i Hi. by apply elem_of_nil in Hi. }
  rewrite uint16_t_query_id in Hrun7 by lia. simpl in Hl7.
  (* and is submitted to the empty queue *)
  pose proof (linked_cons_inv _ _ _ _ _ (proj1 Hl7)) as (Hhead7 & _).
  set (c8 := set_submitted_event_list (mk_event_list (Some 0) (Some 0)) c7).
  assert (Hrun8 : iree_hal_cuda_tracing_notify_submitted c7 l7 = Done c8).
  { unfold iree_hal_cuda_tracing_notify_submitted.
    rewrite Hhead7, Hsub7. cbn. by rewrite Hqhead5. }
  (* the collect follows the link event 0 still has *)
  destruct (collect_submissions_spec device [0; 1] [[0]; seq 1 (N - 1)]
              (S (length (event_pool c8))) c8 (Some 0))
    as (c9 & Hrun9 & _); try done.
  { cbn. eapply submission_list_writes; [|exact Hw7]. cbn.
    by apply (Hkeep5 next_submission). }
  { cbn. constructor; [by rewrite <- Hhead7; apply Hl7|].
    constructor; [|constructor].
    eapply cb_list_writes_elsewhere; [|exact Hw7|].
    - cbn. apply (Hkeep5 next_in_command_buffer); [done|exact Hh1].
    - by intros i Hi ->%list_elem_of_singleton. }
  { simpl. pose proof (linked_bound _ _ _ _ 1 Hh1) as Hb.
    rewrite HN1 in Hb. specialize (Hb ltac:(by left)).
    cbn. rewrite (proj1 Hw7). cbn. rewrite Hlen5. lia. }
  simpl concat in Hrun9. rewrite app_nil_r in Hrun9.
  assert (Hcollect9 : iree_hal_cuda_tracing_context_collect device c8
    = Done (c9, omap (notification device (id c8) (base_event c8)
                        (event_pool c8))
                  (resolved_prefix device (event_pool c8) [0] ++
                   resolved_prefix device (event_pool c8) (seq 1 (N - 1))))).
  { unfold iree_hal_cuda_tracing_context_collect. cbn [c8 submitted_event_list
      set_submitted_event_list head]. exact Hrun9. }
  do 15 eexists.
  split; [exact Hrun1|]. split; [exact Hrun2|]. split; [exact Hrun3|].
  split; [exact Hrun4|]. split; [exact Hcollect5|]. split; [exact Hrun6|].
  split; [exact Hrun7|]. split; [exact Hl7|]. split; [exact Hrun8|].
  split; [exact Hcollect9|]. split; [done|].
  intros Hdev.
  assert (Hlen8 : length (event_pool c8) = N).
  { cbn. rewrite (proj1 Hw7). cbn. rewrite Hlen5.
    rewrite (same_events_length _ _ Hsame4). cbn.
    by rewrite (proj1 Hw2), (proj1 Hw1). }
  assert (Hready : ∀ l, (∀ i, i ∈ l → i < N) →
            resolved_prefix device (event_pool c8) l = l).
  { intros l Hl. apply resolved_prefix_ready, Forall_forall. intros i Hi.
    destruct (lookup_lt_is_Some_2 (event_pool c8) i) as [e He].
    { rewrite Hlen8. by apply Hl. }
    exists e. split; [done|]. apply Hdev. }
  rewrite !Hready.
  - change ([0] ++ seq 1 (N - 1)) with (0 :: seq 1 (N - 1)). rewrite <- HN0.
    apply notified_query_ids_notifications; [by rewrite Hlen8|].
    intros i Hi. rewrite Hlen8. apply elem_of_seq in Hi. lia.
  - intros i Hi. apply elem_of_seq in Hi. lia.
  - intros i ->%list_elem_of_singleton. lia.
Qed.

(** * The properties of the specification *)

(** C1. Two command buffers are queued, [0; 1] and then [2], and the device
    fails to synchronise on event 1.  Collect reports event 0, leaves the
    inner loop at event 1, and then still marks the first command buffer
    [was_submitted], removes it from the queue and goes on to report event 2
    of the second one: nothing is left in the queue for a later call. *)
Theorem collect_drops_rest_of_unresolved_chain :
  ∃ s0 s,
    client_after true 6
      [InsertQuery 0; InsertQuery 0; InsertQuery 1;
       NotifySubmitted 0; NotifySubmitted 1] = Some s0 ∧
    queue_holds (context s0) [[0; 1]; [2]] ∧
    step true s0 (Collect (device_failing_on 1)) = Done s ∧
    notified s = [(0, 1000); (2, 3000)]%Z ∧
    head (submitted_event_list (context s)) = None ∧
    was_submitted <$> event_pool (context s) !! 0 = Some true.
Proof.
  do 2 eexists. split; [vm_compute; reflexivity|].
  split.
  { exists [0; 2]. vm_compute. repeat econstructor. }
  split; [vm_compute; reflexivity|].
  by vm_compute.
Qed.

(** C2. Scenario A, capacity 4.  With assertions on, three insertions
    return query ids 0, 1, 2 and the fourth fails the assertion while event
    3 is still free.  With assertions compiled out four insertions return
    and the fifth dereferences the null free-list head: no assertion
    reports the exhausted pool. *)
Theorem fourth_insert_of_capacity_four_asserts :
  (∃ c l, insert_queries true 3 (fresh_context 4) (mk_event_list None None)
            = Done (c, l, [0; 1; 2]%Z) ∧
          cb_list (event_pool c) (event_freelist_head c) [3]) ∧
  insert_queries true 4 (fresh_context 4) (mk_event_list None None)
    = Fault AssertionFailure ∧
  (∃ c l, insert_queries false 4 (fresh_context 4) (mk_event_list None None)
            = Done (c, l, [0; 1; 2; 3]%Z) ∧
          event_freelist_head c = None) ∧
  insert_queries false 5 (fresh_context 4) (mk_event_list None None)
    = Fault NullDereference.
Proof.
  split.
  { do 2 eexists. split; [vm_compute; reflexivity|].
    vm_compute. repeat econstructor. }
  split; [by vm_compute|]. split; [|by vm_compute].
  do 2 eexists. split; [vm_compute; reflexivity|done].
Qed.

(** C3. Query ids 0 and 1 are handed out, the command buffer is submitted,
    and the device fails on event 1 during Collect.  Collect reports query
    0 only and marks the command buffer submitted, so the following Free
    reports nothing either.  Afterwards every event is back on the free
    list and the queue is empty: query id 1 is never reported. *)
Theorem query_after_failed_event_is_never_reported :
  ∃ c1 l1 c2 c3 notes3 c4 l4 notes4,
    insert_queries true 2 (fresh_context 4) (mk_event_list None None)
      = Done (c1, l1, [0; 1]%Z) ∧
    iree_hal_cuda_tracing_notify_submitted c1 l1 = Done c2 ∧
    iree_hal_cuda_tracing_context_collect (device_failing_on 1) c2
      = Done (c3, notes3) ∧
    iree_hal_cuda_tracing_free c3 l1 = Done (c4, l4, notes4) ∧
    notified_query_ids (notes3 ++ notes4) = [0%Z] ∧
    cb_list (event_pool c4) (event_freelist_head c4) [0; 1; 2; 3] ∧
    head (submitted_event_list c4) = None ∧
    l4 = mk_event_list None None.
Proof.
  do 8 eexists.
  split; [vm_compute; reflexivity|].
  split; [vm_compute; reflexivity|].
  split; [vm_compute; reflexivity|].
  split; [vm_compute; reflexivity|].
  split; [by vm_compute|].
  split; [vm_compute; repeat econstructor|done].
Qed.

(** C4. In an [NDEBUG] build with a pool of two: both events are used,
    submitted and collected, and command buffer 0 is freed while the free
    list is empty, so event 0 returns to the free list with
    [was_submitted] still set.  A new command buffer takes event 0 and is
    discarded without being submitted: Free reports nothing for it, leaves
    the head's fields as they were and does not clear the handle. *)
Theorem discard_after_early_return_reports_nothing :
  ∃ s,
    client_after false 2
      [InsertQuery 0; InsertQuery 1; NotifySubmitted 0; NotifySubmitted 1;
       Collect ready_device; Free 0; InsertQuery 2] = Some s ∧
    event_list_holds (event_pool (context s)) (list_of s 2) [0] ∧
    event_freelist_head (context s) = None ∧
    event_pool (context s) !! 0 = Some (mk_event 0 None (Some 1) true) ∧
    iree_hal_cuda_tracing_free (context s) (list_of s 2) =
      Done (set_event_freelist_head (Some 0) (context s), list_of s 2, []).
Proof.
  eexists. split; [vm_compute; reflexivity|].
  split; [split; [vm_compute; repeat econstructor|done]|].
  by vm_compute.
Qed.

(** C5. In an [NDEBUG] build with a pool of two: a command buffer takes
    both events and is freed while the free list is empty, which leaves its
    handle pointing at them; its next insertion then links the free list
    through the stale tail.  Event 0 ends up both in the command buffer's
    list and on the free list. *)
Theorem event_both_free_and_in_command_buffer :
  ∃ s1 s,
    client_after false 2 [InsertQuery 0; InsertQuery 0; Free 0] = Some s1 ∧
    cb_list (event_pool (context s1)) (event_freelist_head (context s1)) [0; 1] ∧
    event_list_holds (event_pool (context s1)) (list_of s1 0) [0; 1] ∧
    step false s1 (InsertQuery 0) = Done s ∧
    cb_list (event_pool (context s)) (event_freelist_head (context s)) [1; 0] ∧
    event_list_holds (event_pool (context s)) (list_of s 0) [0].
Proof.
  do 2 eexists. split; [vm_compute; reflexivity|].
  split; [vm_compute; repeat econstructor|].
  split; [split; [vm_compute; repeat econstructor|done]|].
  split; [vm_compute; reflexivity|].
  split; [vm_compute; repeat econstructor|].
  split; [vm_compute; repeat econstructor|done].
Qed.

(** On a context whose free events carry no queue link (as allocation
    leaves them; the early return of Free in a build without assertions
    breaks this): a command buffer built with N query insertions receives
    the first N events of the free list; its query ids are N distinct
    values.  Submitting an empty list changes nothing; submitting a
    non-empty one appends it behind the command buffers already queued.  A
    collect on which the device has completed every queued event then
    reports the query ids of the earlier command buffers, oldest first,
    followed by the N query ids of this command buffer in insertion order,
    and leaves the queue empty. *)
Theorem collect_reports_queries_in_submission_order
    (assertions : bool) symbols (c : iree_hal_cuda_tracing_context_t)
    (fl : list nat) (chains : list (list nat)) (N : nat) :
  cb_list (event_pool c) (event_freelist_head c) fl →
  queue_holds c chains →
  (∀ i, i ∈ fl → i ∉ concat chains) →
  (∀ i e, i ∈ fl → event_pool c !! i = Some e → next_submission e = None) →
  (Z.of_nat (length (event_pool c)) ≤ 65536)%Z →
  (0 < N → N + (if assertions then 1 else 0) ≤ length fl) →
  Forall (device_ready symbols (event_pool c)) (concat chains ++ take N fl) →
  ∃ c1 event_list c2 c3 notes,
    insert_queries assertions N c (mk_event_list None None)
      = Done (c1, event_list, Z.of_nat <$> take N fl) ∧
    length (take N fl) = N ∧
    NoDup (Z.of_nat <$> take N fl) ∧
    event_list_holds (event_pool c1) event_list (take N fl) ∧
    iree_hal_cuda_tracing_notify_submitted c1 event_list = Done c2 ∧
    (N = 0 → c2 = c1) ∧
    queue_holds c2 (if decide (N = 0) then chains else chains ++ [take N fl]) ∧
    iree_hal_cuda_tracing_context_collect symbols c2 = Done (c3, notes) ∧
    notified_query_ids notes =
      (Z.of_nat <$> concat chains) ++ (Z.of_nat <$> take N fl) ∧
    head (submitted_event_list c3) = None.
Proof.
  intros Hfree Hqueue Hdisj Hns Hcap Hroom Hready.
  apply Forall_app in Hready as [Hready_q Hready_n].
  assert (Hbound : ∀ i, i ∈ fl → i < length (event_pool c))
    by (intros i Hi; by eapply linked_bound).
  destruct (insert_queries_spec assertions N c (mk_event_list None None) fl [])
    as (c1 & el & Hrun & Hhdr & Hfree1 & Hel & Hw); try done.
  { split; [constructor|done]. }
  { intros i Hi. by apply elem_of_nil in Hi. }
  simpl in Hel, Hw.
  assert (Hids : (λ i, uint16_t (uint32_t (pool_index i))) <$> take N fl
                 = Z.of_nat <$> take N fl).
  { apply list_fmap_ext. intros k i Hk. apply uint16_t_query_id.
    assert (Hin : i ∈ fl)
      by (eapply elem_of_take_full; by eapply list_elem_of_lookup_2).
    specialize (Hbound i Hin). lia. }
  rewrite Hids in Hrun.
  assert (Hlen : length (take N fl) = N).
  { rewrite length_take. destruct N; [lia|]. destruct assertions; lia. }
  assert (Hnd : NoDup (Z.of_nat <$> take N fl)).
  { apply NoDup_fmap; [apply _|].
    apply NoDup_take_full. by eapply linked_NoDup. }
  destruct Hhdr as (Hid & Hbase & Hsub & _ & _).
  assert (Hqueue1 : queue_holds c1 chains).
  { eapply queue_holds_writes; [done|done|done|].
    intros i Hi Hin. apply (Hdisj i); [by eapply elem_of_take_full|done]. }
  pose proof (pool_writes_within_same_events _ _ _ Hw) as Hsame1.
  assert (Hlen1 : length (event_pool c1) = length (event_pool c)) by apply Hw.
  assert (Hready1 : ∀ l, Forall (device_ready symbols (event_pool c)) l →
                         Forall (device_ready symbols (event_pool c1)) l).
  { intros l Hl. eapply Forall_impl; [exact Hl|]. intros i Hi.
    by eapply device_ready_same_events. }
  destruct (decide (N = 0)) as [HN|HN].
  - subst N. rewrite take_0 in *.
    destruct Hel as [Hel _]. apply linked_empty_inv in Hel.
    destruct (collect_spec_ready symbols c1 chains)
      as (c3 & Hcollect & Hhead3); [done|by apply Hready1|].
    exists c1, el, c1, c3. eexists.
    split; [exact Hrun|]. split; [done|]. split; [done|].
    split; [split; [rewrite Hel; constructor|done]|].
    split; [by apply notify_submitted_empty|]. split; [done|].
    split; [done|]. split; [exact Hcollect|]. split; [|done].
    simpl. rewrite app_nil_r.
    apply notified_query_ids_notifications; [lia|].
    intros i Hi. by eapply queue_holds_bound.
  - destruct (take N fl) as [|f l'] eqn:Htake; [simpl in Hlen; lia|].
    assert (Hsub_fl : ∀ i, i ∈ f :: l' → i ∈ fl).
    { intros i Hi. rewrite <- Htake in Hi. by eapply elem_of_take_full. }
    assert (Hf : f ∈ fl) by (apply Hsub_fl; by left).
    destruct (lookup_lt_is_Some_2 (event_pool c) f (Hbound f Hf)) as [e0 He0].
    destruct Hw as [Hwlen Hwpt].
    destruct (Hwpt f e0 He0) as (eh & Heh & _ & Hnseh & _).
    destruct (notify_submitted_spec c1 el f l' chains eh)
      as (c2 & Hnotify & Hqueue2 & _ & Hid2 & Hbase2 & Hsame2 & _); try done.
    { rewrite Hnseh. by eapply Hns. }
    { intros i Hi. apply Hdisj. by apply Hsub_fl. }
    pose proof (same_events_length _ _ Hsame2) as Hlen2.
    destruct (collect_spec_ready symbols c2 (chains ++ [f :: l']))
      as (c3 & Hcollect & Hhead3); [done| |].
    { rewrite concat_app. simpl. rewrite app_nil_r.
      apply Forall_app. split.
      - eapply Forall_impl; [apply (Hready1 _ Hready_q)|]. intros i Hi.
        by eapply device_ready_same_events.
      - eapply Forall_impl; [apply (Hready1 _ Hready_n)|]. intros i Hi.
        by eapply device_ready_same_events. }
    exists c1, el, c2, c3. eexists.
    split; [exact Hrun|]. split; [done|]. split; [done|].
    split; [done|]. split; [exact Hnotify|]. split; [done|].
    split; [done|]. split; [exact Hcollect|]. split; [|done].
    rewrite notified_query_ids_notifications; [|lia|].
    + rewrite concat_app. simpl. rewrite app_nil_r. by rewrite fmap_app.
    + intros i Hi. by eapply queue_holds_bound.
Qed.

Lemma collect_reports_queries_in_submission_order_witness :
  ∃ c1 event_list c2 c3 notes,
    insert_queries true 2 context_with_one_submitted (mk_event_list None None)
      = Done (c1, event_list, [1; 2]%Z) ∧
    iree_hal_cuda_tracing_notify_submitted c1 event_list = Done c2 ∧
    queue_holds c2 [[0]; [1; 2]] ∧
    iree_hal_cuda_tracing_context_collect ready_device c2 = Done (c3, notes) ∧
    notified_query_ids notes = [0; 1; 2]%Z ∧
    head (submitted_event_list c3) = None.
Proof.
  destruct (collect_reports_queries_in_submission_order true ready_device
              context_with_one_submitted [1; 2; 3; 4; 5] [[0]] 2)
    as (c1 & el & c2 & c3 & notes & H1 & _ & _ & _ & H2 & _ & H3 & H4 & H5 & H6).
  - vm_compute. repeat econstructor.
  - exists [0]. vm_compute. repeat econstructor.
  - intros i Hi Hin. simpl in Hin.
    apply list_elem_of_singleton in Hin as ->.
    repeat (apply elem_of_cons in Hi as [Hi|Hi]; [lia|]).
    by apply elem_of_nil in Hi.
  - intros i e Hi. vm_compute in Hi.
    repeat (apply elem_of_cons in Hi as [->|Hi]; [by intros [= <-]|]).
    by apply elem_of_nil in Hi.
  - vm_compute. by intros [=].
  - simpl. lia.
  - vm_compute. repeat constructor; eexists; repeat split.
  - exists c1, el, c2, c3, notes. done.
Defined.

(** C6. In an [NDEBUG] build with a pool of two, on a device that has
    completed every event: two command buffers take one event each, are
    submitted and collected, and command buffer 0 is freed while the free
    list is empty, so event 0 returns to the free list with its
    [next_submission] still pointing at event 1.  A third command buffer
    is built with one query insertion, which hands it event 0, and is
    submitted to the empty queue.  The collect that follows reports two
    query ids for this one query: its own id 0 and, through the old link,
    id 1 of command buffer 1, which was collected before. *)
Theorem collect_follows_stale_queue_link :
  ∃ s c' notes,
    client_after false 2
      [InsertQuery 0; InsertQuery 1; NotifySubmitted 0; NotifySubmitted 1;
       Collect ready_device; Free 0; InsertQuery 2; NotifySubmitted 2]
      = Some s ∧
    notified_query_ids (sink s) = [0; 1]%Z ∧
    event_list_holds (event_pool (context s)) (list_of s 2) [0] ∧
    event_list_holds (event_pool (context s)) (list_of s 1) [1] ∧
    submitted_event_list (context s) = mk_event_list (Some 0) (Some 0) ∧
    event_pool (context s) !! 0 = Some (mk_event 0 None (Some 1) true) ∧
    iree_hal_cuda_tracing_context_collect ready_device (context s)
      = Done (c', notes) ∧
    notified_query_ids notes = [0; 1]%Z ∧
    head (submitted_event_list c') = None.
Proof.
  do 3 eexists. split; [vm_compute; reflexivity|].
  split; [vm_compute; reflexivity|].
  split; [split; [vm_compute; repeat econstructor|done]|].
  split; [split; [vm_compute; repeat econstructor|done]|].
  split; [vm_compute; reflexivity|].
  split; [vm_compute; reflexivity|].
  split; [vm_compute; reflexivity|].
  split; by vm_compute.
Qed.

(** C7. [iree_hal_cuda_tracing_context_collect] on a context whose
    submission queue is empty returns the context unchanged and makes no
    call to the sink; a client state is left exactly as it was. *)
Theorem collect_on_empty_queue_is_noop symbols assertions (s : system) :
  head (submitted_event_list (context s)) = None →
  iree_hal_cuda_tracing_context_collect symbols (context s)
    = Done (context s, []) ∧
  step assertions s (Collect symbols) = Done s.
Proof.
  intros Hempty.
  assert (Hc : iree_hal_cuda_tracing_context_collect symbols (context s)
               = Done (context s, [])).
  { unfold iree_hal_cuda_tracing_context_collect. by rewrite Hempty. }
  split; [exact Hc|].
  simpl. rewrite Hc. simpl. rewrite app_nil_r. by destruct s.
Qed.

Lemma collect_on_empty_queue_is_noop_witness :
  iree_hal_cuda_tracing_context_collect ready_device (fresh_context 4)
    = Done (fresh_context 4, []) ∧
  step true (mk_system (fresh_context 4) ∅ []) (Collect ready_device)
    = Done (mk_system (fresh_context 4) ∅ []).
Proof.
  apply (collect_on_empty_queue_is_noop ready_device true
           (mk_system (fresh_context 4) ∅ [])).
  reflexivity.
Defined.

(** C8. After a successful [iree_hal_cuda_tracing_context_allocate] with a
    pool of N slots, the free-list head is slot 0, every slot [i] links to
    slot [i + 1] through [next_in_command_buffer] except the last one, whose
    link is null, every slot has a null [next_submission] and
    [was_submitted = false], and (for N > 0) the free list is the single
    list 0, 1, ..., N-1. *)
Theorem allocate_links_all_slots_into_free_list
    symbols stream_tracing_verbosity tracy_id memory context :
  iree_hal_cuda_tracing_context_allocate symbols stream_tracing_verbosity
    tracy_id memory = Some context →
  let N := length memory in
  query_capacity context = N ∧
  length (event_pool context) = N ∧
  event_freelist_head context = Some 0 ∧
  submitted_event_list context = mk_event_list None None ∧
  (∀ i, i < N →
     ∃ e, event_pool context !! i = Some e ∧
          next_in_command_buffer e =
            (if decide (i + 1 = N) then None else Some (i + 1)) ∧
          next_submission e = None ∧
          was_submitted e = false) ∧
  (0 < N → cb_list (event_pool context) (event_freelist_head context) (seq 0 N)).
Proof.
  intros Halloc N. unfold iree_hal_cuda_tracing_context_allocate in Halloc.
  destruct (allocate_event_pool _ _ _ _ _) as [pool|] eqn:Hpool; [|done].
  simpl in Halloc.
  destruct (cuEventCreate symbols (length memory)) as [base|]; [|done].
  simpl in Halloc.
  destruct (iree_hal_cuda_tracing_context_initial_calibration _ _); [|done].
  injection Halloc as <-. simpl.
  destruct (allocate_event_pool_spec symbols (length memory) (length memory)
              0 memory pool) as [Hlen Hall]; [done|done|lia|done|].
  repeat split; try done.
  - intros i Hi. destruct (Hall i Hi) as (e & He & _ & Hns & Hws & Hnext & Hnil).
    exists e. repeat split; try done.
    case_decide; [by apply Hnil|]. apply Hnext. fold N. lia.
  - intros HN. destruct N as [|n] eqn:HNeq; [lia|].
    eapply initialised_pool_linked; [exact Hall|]. fold N. lia.
Qed.

Lemma allocate_links_all_slots_into_free_list_witness :
  ∃ context,
    iree_hal_cuda_tracing_context_allocate ready_device 2 1 (raw_memory 4)
      = Some context ∧
    event_freelist_head context = Some 0 ∧
    cb_list (event_pool context) (event_freelist_head context) [0; 1; 2; 3].
Proof.
  eexists. split; [reflexivity|].
  pose proof (allocate_links_all_slots_into_free_list ready_device 2 1
                (raw_memory 4) _ eq_refl) as H.
  destruct H as (_ & _ & Hhead & _ & _ & Hlist).
  split; [exact Hhead|]. apply Hlist. simpl. lia.
Defined.

(** C9. On a freshly allocated context of capacity N > 0, in a build with
    assertions: any number n < N of query insertions succeeds and leaves
    N - n events free; once N - 1 events are handed out a single event is
    still free, yet the next insertion (stream or graph variant) pops it,
    finds its [next_in_command_buffer] null and fails the assertion, so no
    run of N or more insertions returns.  With assertions compiled out the
    N-th insertion empties the free list and every further insertion
    dereferences the null free-list head. *)
Theorem insert_query_asserts_on_last_free_event
    symbols stream_tracing_verbosity tracy_id memory
    (c : iree_hal_cuda_tracing_context_t) :
  iree_hal_cuda_tracing_context_allocate symbols stream_tracing_verbosity
    tracy_id memory = Some c →
  0 < length memory →
  let N := length memory in
  let empty := mk_event_list None None in
  (∀ n, n < N →
     ∃ c' l qs,
       insert_queries true n c empty = Done (c', l, qs) ∧
       cb_list (event_pool c') (event_freelist_head c') (seq n (N - n))) ∧
  (∃ c' l qs,
     insert_queries true (N - 1) c empty = Done (c', l, qs) ∧
     cb_list (event_pool c') (event_freelist_head c') [N - 1] ∧
     ∀ node_added,
       iree_hal_cuda_stream_tracing_context_insert_query true c' l
         = Fault AssertionFailure ∧
       iree_hal_cuda_graph_tracing_context_insert_query true node_added c' l
         = Fault AssertionFailure) ∧
  (∀ n, N ≤ n → insert_queries true n c empty = Fault AssertionFailure) ∧
  (∃ c' l qs,
     insert_queries false N c empty = Done (c', l, qs) ∧
     event_freelist_head c' = None ∧
     ∀ assertions node_added,
       iree_hal_cuda_stream_tracing_context_insert_query assertions c' l
         = Fault NullDereference ∧
       iree_hal_cuda_graph_tracing_context_insert_query assertions
         node_added c' l = Fault NullDereference).
Proof.
  intros Halloc Hpos N empty.
  pose proof (allocate_free_list _ _ _ _ _ Halloc Hpos) as Hfree. fold N in Hfree.
  assert (Hempty : event_list_holds (event_pool c) empty [])
    by (split; [constructor|done]).
  assert (Hdisj : ∀ i, i ∈ @nil nat → i ∉ seq 0 N)
    by (intros i Hi; by apply elem_of_nil in Hi).
  assert (Hsome : ∀ n, n < N →
     ∃ c' l qs,
       insert_queries true n c empty = Done (c', l, qs) ∧
       cb_list (event_pool c') (event_freelist_head c') (seq n (N - n))).
  { intros n Hn.
    destruct (insert_queries_spec true n c empty (seq 0 N) [])
      as (c' & l & Hrun & _ & Hfree' & _ & _); try done.
    { intros _. rewrite length_seq. lia. }
    rewrite drop_seq in Hfree'. do 3 eexists. split; [exact Hrun|done]. }
  split; [exact Hsome|]. split; [|split].
  - destruct (Hsome (N - 1)) as (c' & l & qs & Hrun & Hfree'); [lia|].
    exists c', l, qs. split; [done|].
    replace (N - (N - 1)) with 1 in Hfree' by lia. simpl in Hfree'.
    split; [done|]. intros node_added.
    apply linked_cons_inv in Hfree' as (Hhead & e & He & Hnil).
    apply linked_empty_inv in Hnil.
    by apply (insert_query_last_free_event_asserts _ _ (N - 1) e).
  - intros n Hn. eapply insert_queries_exhaust; try done.
    rewrite length_seq. lia.
  - destruct (insert_queries_spec false N c empty (seq 0 N) [])
      as (c' & l & Hrun & _ & Hfree' & _ & _); try done.
    { intros _. rewrite length_seq. simpl. lia. }
    rewrite drop_seq in Hfree'.
    replace (N - N) with 0 in Hfree' by lia. simpl in Hfree'.
    apply linked_empty_inv in Hfree'.
    do 3 eexists. split; [exact Hrun|]. split; [done|].
    intros assertions node_added.
    by apply insert_query_empty_free_list_faults.
Qed.

Lemma insert_query_asserts_on_last_free_event_witness :
  (∃ c' l qs,
     insert_queries true 3 (fresh_context 4) (mk_event_list None None)
       = Done (c', l, qs) ∧
     cb_list (event_pool c') (event_freelist_head c') [3] ∧
     iree_hal_cuda_stream_tracing_context_insert_query true c' l
       = Fault AssertionFailure) ∧
  insert_queries true 4 (fresh_context 4) (mk_event_list None None)
    = Fault AssertionFailure.
Proof.
  destruct (insert_query_asserts_on_last_free_event ready_device 2 1
              (raw_memory 4) (fresh_context 4))
    as (_ & (c' & l & qs & Hrun & Hfree & Hassert) & Hall & _).
  - reflexivity.
  - simpl. lia.
  - split.
    + exists c', l, qs. split; [exact Hrun|]. split; [exact Hfree|].
      apply (Hassert true).
    + apply Hall. simpl. lia.
Defined.

(** C10. [iree_hal_cuda_tracing_free] of a non-empty event list: when the
    free list is empty the list head becomes the free-list head and the
    function returns with the pool untouched (so [was_submitted] and
    [next_submission] of the head keep their values) and with the caller's
    handle unchanged, head and tail still set; when the free list is not
    empty the head's two fields are reset and the handle is cleared. *)
Theorem free_returns_early_on_empty_free_list context event_list h t e l :
  head event_list = Some h →
  tail event_list = Some t →
  event_pool context !! h = Some e →
  t < length (event_pool context) →
  cb_list (event_pool context) (head event_list) l →
  let notes :=
    if was_submitted e then [] else zero_notifications (id context) l in
  (event_freelist_head context = None →
   iree_hal_cuda_tracing_free context event_list =
     Done (set_event_freelist_head (Some h) context, event_list, notes)) ∧
  (∀ f, event_freelist_head context = Some f →
   ∃ pool' e',
     iree_hal_cuda_tracing_free context event_list =
       Done (set_event_freelist_head (Some h) (set_event_pool pool' context),
             mk_event_list None None, notes) ∧
     pool' !! h = Some e' ∧
     next_submission e' = None ∧ was_submitted e' = false).
Proof.
  intros Hh Ht He Hlt Hl notes.
  assert (Hnotes :
    (if negb (was_submitted e)
     then free_notify_events (S (length (event_pool context))) (id context)
            (event_pool context) (head event_list)
     else Done []) = Done notes).
  { unfold notes. destruct (was_submitted e); [done|].
    change (negb false) with true. cbv iota.
    apply free_notify_events_linked; [done|].
    apply linked_length in Hl. lia. }
  assert (Hhlt : h < length (event_pool context)) by by eapply lookup_lt_Some.
  rewrite Hh in Hnotes.
  split.
  - intros Hfree. unfold iree_hal_cuda_tracing_free.
    rewrite Hh, (load_Some _ _ _ He). outcome_step.
    rewrite Hnotes. outcome_step. by rewrite Hfree.
  - intros f Hfree. unfold iree_hal_cuda_tracing_free.
    rewrite Hh, (load_Some _ _ _ He). outcome_step.
    rewrite Hnotes. outcome_step. rewrite Hfree. outcome_step.
    rewrite (store_Some _ _ _ _ He). outcome_step.
    erewrite store_Some by by apply list_lookup_insert_eq.
    outcome_step. rewrite list_insert_insert_eq, Ht.
    destruct (decide (t = h)) as [->|Hne].
    + erewrite store_Some by by apply list_lookup_insert_eq.
      outcome_step. do 2 eexists. split; [reflexivity|].
      split; [apply list_lookup_insert_eq; by rewrite length_insert|done].
    + destruct (lookup_lt_is_Some_2 (event_pool context) t Hlt) as [et Het].
      erewrite store_Some by (rewrite list_lookup_insert_ne by done; exact Het).
      outcome_step. do 2 eexists. split; [reflexivity|].
      rewrite list_lookup_insert_ne by done.
      rewrite list_lookup_insert_eq by done. done.
Qed.

Lemma free_returns_early_on_empty_free_list_witness :
  iree_hal_cuda_tracing_free exhausted_context full_event_list =
    Done (set_event_freelist_head (Some 0) exhausted_context, full_event_list,
          zero_notifications 1 [0; 1]).
Proof.
  destruct (free_returns_early_on_empty_free_list exhausted_context
              full_event_list 0 1 (mk_event 0 (Some 1) None false) [0; 1])
    as [Hempty _].
  - reflexivity.
  - reflexivity.
  - reflexivity.
  - simpl. lia.
  - vm_compute. repeat econstructor.
  - apply Hempty. reflexivity.
Defined.

(** * What the operations leave alone *)

Lemma slotwise_refl R pool :
  (∀ i e, R i e e) → slotwise R pool pool.
Proof. intros HR. split; [done|]. intros i e He. by exists e. Qed.

Lemma slotwise_trans R pool1 pool2 pool3 :
  (∀ i e1 e2 e3, R i e1 e2 → R i e2 e3 → R i e1 e3) →
  slotwise R pool1 pool2 → slotwise R pool2 pool3 → slotwise R pool1 pool3.
Proof.
  intros HR [Hlen1 H1] [Hlen2 H2]. split; [congruence|].
  intros i e He. destruct (H1 i e He) as (e2 & He2 & HR12).
  destruct (H2 i e2 He2) as (e3 & He3 & HR23). exists e3. eauto.
Qed.

Lemma slotwise_impl (R R' : nat → _ → _ → Prop) pool pool' :
  (∀ i e e', R i e e' → R' i e e') → slotwise R pool pool' →
  slotwise R' pool pool'.
Proof.
  intros HR [Hlen H]. split; [done|]. intros i e He.
  destruct (H i e He) as (e' & He' & HRe). exists e'. eauto.
Qed.

Lemma store_slotwise R pool p f pool' :
  store pool p f = Done pool' →
  (∀ i e, R i e e) →
  (∀ i e, p = Some i → pool !! i = Some e → R i e (f e)) →
  slotwise R pool pool'.
Proof.
  intros Hstore Hrefl Hf. unfold store in Hstore.
  destruct p as [i|]; [|done].
  destruct (pool !! i) as [e|] eqn:He; [|done]. injection Hstore as <-.
  split; [by rewrite length_insert|].
  intros j ej Hj. rewrite lookup_insert_pool by by eapply lookup_lt_Some.
  case_decide as Hij.
  - subst j. assert (ej = e) as -> by congruence. eexists. split; [done|].
    by apply Hf.
  - by exists ej.
Qed.

Lemma slotwise_same_events pool pool' :
  slotwise keeps_event pool pool' → same_events pool pool'.
Proof.
  intros [Hlen H] i. destruct (pool !! i) as [e|] eqn:He.
  - destruct (H i e He) as (e' & -> & Hev). simpl. by rewrite Hev.
  - apply lookup_ge_None in He.
    rewrite (proj2 (lookup_ge_None _ _)); [done|lia].
Qed.

Lemma append_event_slotwise pool l ev pool' l' :
  iree_hal_cuda_tracing_context_event_list_append_event pool l ev
    = Done (pool', l') →
  slotwise insert_touches pool pool'.
Proof.
  unfold iree_hal_cuda_tracing_context_event_list_append_event.
  destruct (head l); [|intros [= <- _]; by apply slotwise_refl].
  destruct (store _ _ _) as [pool1|] eqn:Hstore; [|done].
  rewrite outcome_bind_Done. intros [= <- _].
  eapply store_slotwise; [exact Hstore|done|done].
Qed.

Lemma insert_touches_trans i e1 e2 e3 :
  insert_touches i e1 e2 → insert_touches i e2 e3 → insert_touches i e1 e3.
Proof. intros (?&?&?) (?&?&?). repeat split; congruence. Qed.

(** A query insertion that returns hands out the index of the free-list
    head and writes nothing but [next_in_command_buffer] links. *)
Lemma insert_query_footprint assertions c l c' l' q :
  iree_hal_cuda_stream_tracing_context_insert_query assertions c l
    = Done (c', l', q) →
  same_identity c c' ∧
  submitted_event_list c' = submitted_event_list c ∧
  slotwise insert_touches (event_pool c) (event_pool c') ∧
  ∃ f, event_freelist_head c = Some f ∧
       q = uint16_t (uint32_t (pool_index f)).
Proof.
  unfold iree_hal_cuda_stream_tracing_context_insert_query.
  destruct (event_freelist_head c) as [f|] eqn:Hhead; [|done].
  destruct (load (event_pool c) (Some f)) as [e|]; [|done].
  outcome_step.
  destruct (IREE_ASSERT _ _); [|done]. outcome_step.
  unfold set_event_freelist_head at 1. cbn [event_pool].
  destruct (store _ _ _) as [pool1|] eqn:Hstore; [|done]. outcome_step.
  destruct (iree_hal_cuda_tracing_context_event_list_append_event _ _ _)
    as [[pool2 l2]|] eqn:Happ; [|done].
  outcome_step. intros [= <- <- <-].
  split; [done|]. split; [done|]. split; [|by exists f].
  eapply slotwise_trans; [apply insert_touches_trans| |].
  - eapply store_slotwise; [exact Hstore|done|done].
  - by eapply append_event_slotwise.
Qed.

(** The graph variant does exactly what the stream variant does, unless the
    graph node cannot be added in a build with assertions. *)
Lemma graph_insert_query_as_stream assertions node_added c l :
  (assertions = true → node_added = true) →
  iree_hal_cuda_graph_tracing_context_insert_query assertions node_added c l
  = iree_hal_cuda_stream_tracing_context_insert_query assertions c l.
Proof.
  intros Hok.
  unfold iree_hal_cuda_graph_tracing_context_insert_query,
    iree_hal_cuda_stream_tracing_context_insert_query.
  destruct (load _ _) as [e|]; [|done]. outcome_step.
  destruct (IREE_ASSERT assertions (bool_decide _)); [|done]. outcome_step.
  destruct (store _ _ _) as [pool1|]; [|done]. outcome_step.
  by rewrite IREE_ASSERT_holds.
Qed.

Lemma notify_submitted_footprint c l c' :
  iree_hal_cuda_tracing_notify_submitted c l = Done c' →
  same_identity c c' ∧
  event_freelist_head c' = event_freelist_head c ∧
  slotwise (notify_touches (tail (submitted_event_list c)) (head l))
    (event_pool c) (event_pool c').
Proof.
  unfold iree_hal_cuda_tracing_notify_submitted.
  destruct (head l) as [h|] eqn:Hh.
  2: { intros [= <-]. repeat split; try done. intros i e He. exists e.
       split; [done|]. repeat split; auto. }
  destruct (head (submitted_event_list c)).
  2: { intros [= <-]. repeat split; try done. intros i e He. exists e.
       split; [done|]. repeat split; auto. }
  destruct (store _ _ _) as [pool1|] eqn:Hstore; [|done].
  rewrite outcome_bind_Done. intros [= <-].
  split; [done|]. split; [done|]. cbn [event_pool set_submitted_event_list set_event_pool].
  eapply store_slotwise; [exact Hstore| |].
  - intros i e. repeat split; auto.
  - intros i e Hi He. repeat split; auto.
Qed.

Lemma collect_touches_trans i e1 e2 e3 :
  collect_touches i e1 e2 → collect_touches i e2 e3 → collect_touches i e1 e3.
Proof.
  intros (?&?&?&Hw1) (?&?&?&Hw2). repeat split; try congruence.
  destruct Hw2 as [Hw2|Hw2]; [|by right]. rewrite Hw2. done.
Qed.

Lemma collect_submissions_footprint symbols fuel :
  ∀ c p c' notes,
  collect_submissions symbols fuel c p = Done (c', notes) →
  same_identity c c' ∧
  event_freelist_head c' = event_freelist_head c ∧
  slotwise collect_touches (event_pool c) (event_pool c').
Proof.
  induction fuel as [|fuel IH]; intros c p c' notes Hrun.
  - destruct p; [done|]. simpl in Hrun. injection Hrun as <- _.
    repeat split; try done. intros i e He. exists e. split; [done|].
    repeat split; auto.
  - destruct p as [h|].
    2: { simpl in Hrun. injection Hrun as <- _.
         repeat split; try done. intros i e He. exists e. split; [done|].
         repeat split; auto. }
    rewrite collect_submissions_unfold in Hrun.
    destruct (collect_events _ _ _ _ _ _) as [notes0|]; [|done].
    rewrite outcome_bind_Done in Hrun.
    destruct (load _ _) as [e|]; [|done].
    rewrite outcome_bind_Done in Hrun.
    destruct (store _ _ _) as [pool'|] eqn:Hstore; [|done].
    rewrite outcome_bind_Done in Hrun.
    destruct (collect_submissions _ _ _ _) as [[c'' notes']|] eqn:Hrec; [|done].
    rewrite outcome_bind_Done in Hrun. injection Hrun as <- _.
    destruct (IH _ _ _ _ Hrec) as (Hid & Hfree & Hslots).
    split; [done|]. split; [done|].
    eapply slotwise_trans; [apply collect_touches_trans| |exact Hslots].
    cbn [event_pool set_submitted_event_list set_event_pool].
    eapply store_slotwise; [exact Hstore| |].
    + intros i ei. repeat split; auto.
    + intros i ei _ _. repeat split; auto.
Qed.

Lemma collect_footprint symbols c c' notes :
  iree_hal_cuda_tracing_context_collect symbols c = Done (c', notes) →
  same_identity c c' ∧
  event_freelist_head c' = event_freelist_head c ∧
  slotwise collect_touches (event_pool c) (event_pool c').
Proof.
  unfold iree_hal_cuda_tracing_context_collect.
  destruct (head (submitted_event_list c)).
  - apply collect_submissions_footprint.
  - intros [= <- _]. repeat split; try done. intros i e He. exists e.
    split; [done|]. repeat split; auto.
Qed.

Lemma free_touches_trans hd i e1 e2 e3 :
  free_touches hd i e1 e2 → free_touches hd i e2 e3 → free_touches hd i e1 e3.
Proof.
  intros (Hev1 & Hf1) (Hev2 & Hf2). split; [congruence|].
  intros Hne. destruct (Hf1 Hne), (Hf2 Hne). split; congruence.
Qed.

Lemma free_footprint c l c' l' notes :
  iree_hal_cuda_tracing_free c l = Done (c', l', notes) →
  same_identity c c' ∧
  submitted_event_list c' = submitted_event_list c ∧
  slotwise (free_touches (head l)) (event_pool c) (event_pool c').
Proof.
  assert (Hrefl : ∀ i e, free_touches (head l) i e e) by by split.
  unfold iree_hal_cuda_tracing_free.
  destruct (head l) as [h|] eqn:Hh.
  2: { intros [= <- _ _]. repeat split; try done.
       by apply slotwise_refl. }
  destruct (load _ _) as [e|]; [|done]. outcome_step.
  match goal with |- context [(?m ≫= _)] => destruct m as [notes0|] end;
    [|done].
  outcome_step.
  destruct (event_freelist_head c).
  2: { intros [= <- _ _]. repeat split; try done.
       by apply slotwise_refl. }
  destruct (store _ _ _) as [pool1|] eqn:Hs1; [|done]. outcome_step.
  destruct (store pool1 _ _) as [pool2|] eqn:Hs2; [|done]. outcome_step.
  destruct (store pool2 _ _) as [pool3|] eqn:Hs3; [|done]. outcome_step.
  intros [= <- _ _]. split; [done|]. split; [done|].
  cbn [event_pool set_event_freelist_head set_event_pool].
  eapply slotwise_trans; [apply free_touches_trans| |].
  { eapply store_slotwise; [exact Hs1|done|].
    intros i ei [= ->] _. split; [done|]. by intros []. }
  eapply slotwise_trans; [apply free_touches_trans| |].
  { eapply store_slotwise; [exact Hs2|done|].
    intros i ei [= ->] _. split; [done|]. by intros []. }
  eapply store_slotwise; [exact Hs3|done|].
  intros i ei _ _. by split.
Qed.

Lemma step_footprint assertions s o s' :
  step assertions s o = Done s' →
  same_identity (context s) (context s') ∧
  slotwise keeps_event (event_pool (context s)) (event_pool (context s')).
Proof.
  destruct o as [cb|cb|symbols|cb]; cbn [step].
  - destruct (iree_hal_cuda_stream_tracing_context_insert_query _ _ _)
      as [[[c l] q]|] eqn:Hrun; [|done].
    rewrite outcome_bind_Done. intros [= <-].
    apply insert_query_footprint in Hrun as (Hid & _ & Hslots & _).
    split; [done|]. eapply slotwise_impl; [|exact Hslots].
    by intros i e e' (? & _).
  - destruct (iree_hal_cuda_tracing_notify_submitted _ _) as [c|] eqn:Hrun;
      [|done].
    rewrite outcome_bind_Done. intros [= <-].
    apply notify_submitted_footprint in Hrun as (Hid & _ & Hslots).
    split; [done|]. eapply slotwise_impl; [|exact Hslots].
    by intros i e e' (? & _).
  - destruct (iree_hal_cuda_tracing_context_collect _ _) as [[c notes]|]
      eqn:Hrun; [|done].
    rewrite outcome_bind_Done. intros [= <-].
    apply collect_footprint in Hrun as (Hid & _ & Hslots).
    split; [done|]. eapply slotwise_impl; [|exact Hslots].
    by intros i e e' (? & _).
  - destruct (iree_hal_cuda_tracing_free _ _) as [[[c l] notes]|] eqn:Hrun;
      [|done].
    rewrite outcome_bind_Done. intros [= <-].
    apply free_footprint in Hrun as (Hid & _ & Hslots).
    split; [done|]. eapply slotwise_impl; [|exact Hslots].
    by intros i e e' (? & _).
Qed.

Lemma same_identity_trans c1 c2 c3 :
  same_identity c1 c2 → same_identity c2 c3 → same_identity c1 c3.
Proof. intros (?&?&?&?) (?&?&?&?). repeat split; congruence. Qed.

(** * Further properties of the operations *)

(** X1. Whatever a client does, in either build: as long as the run
    returns, no operation replaces the device event of a slot or resizes
    the pool, and the context keeps its zone id, base event, capacity and
    verbosity. *)
Theorem run_keeps_device_events assertions s ops s' :
  run assertions s ops = Done s' →
  same_identity (context s) (context s') ∧
  length (event_pool (context s')) = length (event_pool (context s)) ∧
  ∀ i, event <$> event_pool (context s') !! i
       = event <$> event_pool (context s) !! i.
Proof.
  revert s. induction ops as [|o ops IH]; intros s Hrun.
  - simpl in Hrun. injection Hrun as <-. by repeat split.
  - cbn [run] in Hrun.
    destruct (step assertions s o) as [s1|] eqn:Hstep; [|done].
    rewrite outcome_bind_Done in Hrun.
    destruct (step_footprint _ _ _ _ Hstep) as (Hid1 & Hslots).
    apply slotwise_same_events in Hslots as Hev1.
    destruct (IH s1 Hrun) as (Hid & Hlen & Hev).
    split; [by eapply same_identity_trans|].
    split; [rewrite Hlen; apply Hslots|].
    intros i. by rewrite Hev, Hev1.
Qed.

Lemma run_keeps_device_events_witness :
  ∃ s',
    run false (mk_system (fresh_context 2) ∅ [])
      [InsertQuery 0; InsertQuery 0; NotifySubmitted 0;
       Collect (device_failing_on 1); Free 0; InsertQuery 1] = Done s' ∧
    length (event_pool (context s')) = 2 ∧
    (event <$> event_pool (context s')) = [0; 1].
Proof.
  destruct (run false (mk_system (fresh_context 2) ∅ [])
              [InsertQuery 0; InsertQuery 0; NotifySubmitted 0;
               Collect (device_failing_on 1); Free 0; InsertQuery 1])
    as [s'|] eqn:Hrun; [|by vm_compute in Hrun].
  exists s'. split; [done|].
  destruct (run_keeps_device_events _ _ _ _ Hrun) as (_ & Hlen & Hev).
  split; [exact Hlen|].
  apply list_eq. intros i. rewrite list_lookup_fmap, Hev.
  by destruct i as [|[|i]].
Defined.

(** X2. Once a collect has returned, whatever the device answered, the
    queue is empty: a second collect, and the final collect of a teardown,
    report nothing and change nothing. *)
Theorem collect_again_reports_nothing symbols symbols' c c' notes :
  iree_hal_cuda_tracing_context_collect symbols c = Done (c', notes) →
  iree_hal_cuda_tracing_context_collect symbols' c' = Done (c', []) ∧
  iree_hal_cuda_tracing_context_free symbols' (Some c') = Done [].
Proof.
  intros Hrun. apply collect_empties_queue in Hrun as Hhead.
  assert (Hagain : iree_hal_cuda_tracing_context_collect symbols' c'
                   = Done (c', [])).
  { unfold iree_hal_cuda_tracing_context_collect. by rewrite Hhead. }
  split; [exact Hagain|].
  unfold iree_hal_cuda_tracing_context_free. by rewrite Hagain.
Qed.

Lemma collect_again_reports_nothing_witness :
  ∃ c' notes,
    iree_hal_cuda_tracing_context_collect (device_failing_on 0)
      context_with_one_submitted = Done (c', notes) ∧
    iree_hal_cuda_tracing_context_collect ready_device c' = Done (c', []).
Proof.
  destruct (iree_hal_cuda_tracing_context_collect (device_failing_on 0)
              context_with_one_submitted) as [[c' notes]|] eqn:Hrun;
    [|by vm_compute in Hrun].
  exists c', notes. split; [done|].
  apply (collect_again_reports_nothing _ ready_device _ _ _ Hrun).
Defined.

(** * Allocation: failures and what the result depends on *)

Lemma allocate_event_pool_is_Some symbols capacity remaining :
  ∀ i pool,
  is_Some (allocate_event_pool symbols capacity remaining i pool) ↔
  ∀ j, i ≤ j < i + remaining → is_Some (cuEventCreate symbols j).
Proof.
  induction remaining as [|r IH]; intros i pool.
  - simpl. split; [intros _ j Hj; lia|by eauto].
  - simpl. destruct (cuEventCreate symbols i) as [ev|] eqn:Hev.
    + rewrite IH. split.
      * intros H j Hj. destruct (decide (j = i)) as [->|Hne]; [by eauto|].
        apply H. lia.
      * intros H j Hj. apply H. lia.
    + split; [by intros [? [=]]|].
      intros H. destruct (H i) as [ev Hev']; [lia|congruence].
Qed.

(** A fully initialised slot is determined by the device's answers. *)
Lemma slot_initialised_unique symbols capacity pool1 pool2 j e1 e2 :
  j < capacity →
  slot_initialised symbols capacity capacity pool1 j →
  slot_initialised symbols capacity capacity pool2 j →
  pool1 !! j = Some e1 → pool2 !! j = Some e2 → e1 = e2.
Proof.
  intros Hj (a & Ha & Hca & Hnsa & Hwsa & Hnexta & Hnila)
            (b & Hb & Hcb & Hnsb & Hwsb & Hnextb & Hnilb) H1 H2.
  assert (a = e1) as -> by congruence. assert (b = e2) as -> by congruence.
  assert (Hevent : event e1 = event e2) by congruence.
  assert (Hnext : next_in_command_buffer e1 = next_in_command_buffer e2).
  { destruct (decide (j + 1 = capacity)) as [Hlast|Hlast].
    - by rewrite Hnila, Hnilb.
    - rewrite Hnexta, Hnextb by lia. done. }
  destruct e1, e2; simpl in *; congruence.
Qed.

(** Once the host allocation has succeeded, the rest of the allocation
    succeeds exactly when the device creates an event for every slot and
    the base event, and recording and synchronising the base event
    succeed. *)
Lemma allocate_on_memory_succeeds_iff
    symbols stream_tracing_verbosity tracy_id memory :
  is_Some (iree_hal_cuda_tracing_context_allocate symbols
             stream_tracing_verbosity tracy_id memory) ↔
  (∀ i, i < length memory → is_Some (cuEventCreate symbols i)) ∧
  ∃ base, cuEventCreate symbols (length memory) = Some base ∧
          cuEventRecord symbols base = CUDA_SUCCESS ∧
          cuEventSynchronize symbols base = CUDA_SUCCESS.
Proof.
  unfold iree_hal_cuda_tracing_context_allocate,
    iree_hal_cuda_tracing_context_initial_calibration.
  pose proof (allocate_event_pool_is_Some symbols (length memory)
                (length memory) 0 memory) as Hpool.
  destruct (allocate_event_pool _ _ _ _ _) as [pool|]; simpl.
  - assert (Hall : ∀ i, i < length memory → is_Some (cuEventCreate symbols i)).
    { intros i Hi. apply Hpool; [by eauto|lia]. }
    destruct (cuEventCreate symbols (length memory)) as [base|]; simpl.
    + destruct (cuEventRecord symbols base) eqn:Hrec,
               (cuEventSynchronize symbols base) eqn:Hsync; simpl.
      * split; [|by eauto]. intros _. split; [done|]. by exists base.
      * split; [by intros [? [=]]|]. intros (_ & b & [= <-] & _ & Hs).
        congruence.
      * split; [by intros [? [=]]|]. intros (_ & b & [= <-] & Hr & _).
        congruence.
      * split; [by intros [? [=]]|]. intros (_ & b & [= <-] & Hr & _).
        congruence.
    + split; [by intros [? [=]]|]. by intros (_ & b & [=] & _).
  - split; [by intros [? [=]]|]. intros (Hall & _).
    assert (Hnone : is_Some (@None (list iree_hal_cuda_tracing_context_event_t))).
    { apply Hpool. intros j Hj. apply Hall. lia. }
    by destruct Hnone.
Qed.

(** X3. Allocation returns a context exactly when the host allocator
    returns the block for it, the device creates an event for every slot
    and the base event, and recording and synchronising the base event
    succeed; when any of these fails, no context is returned. *)
Theorem allocate_succeeds_iff
    allocation symbols stream_tracing_verbosity tracy_id :
  is_Some (iree_hal_cuda_tracing_context_allocate_on allocation symbols
             stream_tracing_verbosity tracy_id) ↔
  ∃ memory,
    allocation = Some memory ∧
    (∀ i, i < length memory → is_Some (cuEventCreate symbols i)) ∧
    ∃ base, cuEventCreate symbols (length memory) = Some base ∧
            cuEventRecord symbols base = CUDA_SUCCESS ∧
            cuEventSynchronize symbols base = CUDA_SUCCESS.
Proof.
  unfold iree_hal_cuda_tracing_context_allocate_on.
  destruct allocation as [memory|]; simpl.
  - rewrite allocate_on_memory_succeeds_iff. split.
    + intros H. by exists memory.
    + by intros (memory' & [= <-] & H).
  - split; [by intros [? [=]]|]. by intros (memory & [=] & _).
Qed.

(** X4. Allocation initialises every field of every slot: the context it
    returns does not depend on what the pool memory held before. *)
Theorem allocate_ignores_memory_contents
    symbols stream_tracing_verbosity tracy_id memory memory' c :
  iree_hal_cuda_tracing_context_allocate symbols stream_tracing_verbosity
    tracy_id memory = Some c →
  length memory' = length memory →
  iree_hal_cuda_tracing_context_allocate symbols stream_tracing_verbosity
    tracy_id memory' = Some c.
Proof.
  intros Halloc Hlen.
  pose proof (allocate_inv _ _ _ _ _ Halloc) as (_ & _ & _ & Hpool).
  assert (Hsome : is_Some (allocate_event_pool symbols (length memory)
                             (length memory) 0 memory')).
  { apply allocate_event_pool_is_Some.
    apply (allocate_event_pool_is_Some symbols (length memory)
             (length memory) 0 memory). by rewrite Hpool. }
  destruct Hsome as [pool' Hpool'].
  destruct (allocate_event_pool_spec symbols (length memory) (length memory)
              0 memory (event_pool c)) as [Hl1 Hall1]; [done|done|lia|done|].
  destruct (allocate_event_pool_spec symbols (length memory) (length memory)
              0 memory' pool') as [Hl2 Hall2]; [done|done|lia|done|].
  assert (Heq : pool' = event_pool c).
  { apply list_eq_same_length with (length memory); [done|done|].
    intros i e2 e1 Hi H2 H1.
    eapply (slot_initialised_unique symbols (length memory)
              pool' (event_pool c) i); [exact Hi|by apply Hall2
              |by apply Hall1|exact H2|exact H1]. }
  unfold iree_hal_cuda_tracing_context_allocate in *.
  rewrite Hlen, Hpool', Heq. by rewrite Hpool in Halloc.
Qed.

Lemma allocate_ignores_memory_contents_witness :
  iree_hal_cuda_tracing_context_allocate ready_device 2 1
    (replicate 4 (mk_event 0 None None false)) = Some (fresh_context 4).
Proof.
  apply (allocate_ignores_memory_contents ready_device 2 1 (raw_memory 4));
    reflexivity.
Defined.

(** * Round trips through the free list *)

(** A submission writes to the head of the last queued command buffer and
    to no other slot. *)
Lemma notify_submitted_frame c l c' chains i :
  queue_holds c chains →
  iree_hal_cuda_tracing_notify_submitted c l = Done c' →
  i ∉ concat chains →
  event_pool c' !! i = event_pool c !! i.
Proof.
  intros (heads & Hheads & Hchains & Htail).
  unfold iree_hal_cuda_tracing_notify_submitted.
  destruct (head l); [|by intros [= <-]].
  destruct (head (submitted_event_list c)) as [q|] eqn:Hq;
    [|by intros [= <-]].
  destruct heads as [|h0 hs]; [by apply linked_empty_inv in Hheads|].
  destruct (last (h0 :: hs)) as [t|] eqn:Hlast; [|by apply last_None in Hlast].
  rewrite Htail by done.
  destruct (store _ _ _) as [pool'|] eqn:Hstore; [|done].
  rewrite outcome_bind_Done. intros [= <-] Hi.
  cbn [event_pool set_submitted_event_list set_event_pool].
  unfold store in Hstore.
  destruct (event_pool c !! t) as [et|] eqn:Het; [|done].
  injection Hstore as <-.
  apply list_lookup_insert_ne. intros ->. apply Hi.
  assert (Hin : i ∈ h0 :: hs) by by eapply last_Some_elem_of.
  apply list_elem_of_lookup in Hin as [k Hk].
  destruct (Forall2_lookup_l _ _ _ _ _ Hchains Hk) as (lk & Hlk & Hcbk).
  apply elem_of_concat. exists lk. split.
  - by eapply list_elem_of_lookup_2.
  - by eapply linked_head_elem.
Qed.

(** X5. On a context whose submission queue is well formed and shares no
    event with the free list, and whose free events all have a null
    [next_submission] (allocation leaves them so; the early return of Free
    on an empty free list, in a build without assertions, can leave an old
    link behind, and then this round trip is not guaranteed): a command
    buffer that takes N events from the free list, is submitted, collected
    (whatever the device answers) and freed while at least one other event
    is free gives its events back in their old places.  The free list is
    the list it was before the first insertion, the queue is empty, the
    handle is cleared, every free event has a null [next_submission]
    again, and the free reports nothing. *)
Theorem submit_collect_free_restores_free_list
    (assertions : bool) symbols (c : iree_hal_cuda_tracing_context_t)
    (fl : list nat) (chains : list (list nat)) (N : nat) :
  cb_list (event_pool c) (event_freelist_head c) fl →
  queue_holds c chains →
  (∀ i, i ∈ fl → i ∉ concat chains) →
  (∀ i e, i ∈ fl → event_pool c !! i = Some e → next_submission e = None) →
  0 < N < length fl →
  ∃ c1 l1 qs c2 c3 notes c4,
    insert_queries assertions N c (mk_event_list None None)
      = Done (c1, l1, qs) ∧
    iree_hal_cuda_tracing_notify_submitted c1 l1 = Done c2 ∧
    iree_hal_cuda_tracing_context_collect symbols c2 = Done (c3, notes) ∧
    iree_hal_cuda_tracing_free c3 l1 = Done (c4, mk_event_list None None, []) ∧
    cb_list (event_pool c4) (event_freelist_head c4) fl ∧
    head (submitted_event_list c4) = None ∧
    (∀ i e, i ∈ fl → event_pool c4 !! i = Some e → next_submission e = None).
Proof.
  intros Hfl Hq Hdisj Hns HN.
  (* N insertions *)
  destruct (insert_queries_spec assertions N c (mk_event_list None None) fl [])
    as (c1 & l1 & Hrun1 & (_ & _ & Hsub1 & _) & Hfree1 & Hl1 & Hw1); try done.
  { split; [constructor|done]. }
  { intros i Hi. by apply elem_of_nil in Hi. }
  { intros _. destruct assertions; lia. }
  simpl in Hl1, Hw1.
  assert (Htake : ∀ i, i ∈ take N fl → i ∈ fl) by (intros i; apply elem_of_take_full).
  assert (Hdrop : ∀ i, i ∈ drop N fl → i ∈ fl).
  { intros i Hi. rewrite <- (take_drop N fl). apply elem_of_app. by right. }
  pose proof (linked_NoDup _ _ _ _ Hfl) as Hnd.
  rewrite <- (take_drop N fl) in Hnd.
  apply NoDup_app in Hnd as (_ & Hsplit & _).
  destruct (take N fl) as [|h l] eqn:Hchain.
  { apply (f_equal length) in Hchain. rewrite length_take in Hchain.
    simpl in Hchain. lia. }
  destruct (drop N fl) as [|f fl'] eqn:Hrest.
  { apply (f_equal length) in Hrest. rewrite length_drop in Hrest.
    simpl in Hrest. lia. }
  assert (Hh : h ∈ fl) by (apply Htake; by left).
  destruct (lookup_lt_is_Some_2 (event_pool c) h) as [e0 He0];
    [by eapply linked_bound|].
  destruct (proj2 Hw1 h e0 He0) as (e1 & He1 & _ & Hns1 & _).
  assert (Hq1 : queue_holds c1 chains).
  { eapply queue_holds_writes; [done|done|done|].
    intros i Hi Hin. apply (Hdisj i); [by apply Htake|done]. }
  (* the submission *)
  destruct (notify_submitted_spec c1 l1 h l chains e1)
    as (c2 & Hrun2 & Hq2 & Hfree2 & _ & _ & _ & Hcb2); try done.
  { rewrite Hns1. by eapply Hns. }
  { intros i Hi. apply Hdisj. by apply Htake. }
  (* the collect: every head is marked *)
  destruct (collect_spec symbols c2 _ Hq2)
    as (c3 & heads & Hrun3 & Hhead3 & Hfree3 & _ & _ & Hheads & Hlen3 & Hmark3).
  assert (Hcb3 : ∀ p l0, cb_list (event_pool c2) p l0 → cb_list (event_pool c3) p l0).
  { intros p l0 Hl0. eapply linked_frame; [exact Hl0|].
    intros i ei _ Hei. rewrite (Hmark3 i ei Hei). eexists. split; [done|].
    by case_decide. }
  apply Forall2_app_inv_r in Hheads as (hs & hl & Hhs & Hhl & ->).
  apply Forall2_cons_inv_r in Hhl as (h' & hl' & Hh' & Hnil & ->).
  apply Forall2_nil_inv_r in Hnil as ->.
  pose proof (linked_cons_inv _ _ _ _ _ Hh') as ([= ->] & e2 & He2 & _).
  assert (He3 : event_pool c3 !! h = Some (set_was_submitted true e2)).
  { rewrite (Hmark3 h e2 He2). rewrite decide_True; [done|].
    apply elem_of_app. right. by left. }
  (* the free *)
  destruct Hl1 as [Hl1 Ht1].
  destruct (free_onto_nonempty_free_list c3 l1 h l f fl'
              (set_was_submitted true e2))
    as (c4 & e4 & Hrun4 & (_ & _ & Hsub4 & _) & Hfl4 & He4 & Hns4 & _ & _ & Hframe4);
    try done.
  { rewrite Hfree3, Hfree2. by apply Hcb3, Hcb2. }
  { split; [by apply Hcb3, Hcb2|done]. }
  simpl in Hrun4.
  do 7 eexists.
  split; [exact Hrun1|]. split; [exact Hrun2|]. split; [exact Hrun3|].
  split; [exact Hrun4|].
  split; [by rewrite <- (take_drop N fl), Hchain, Hrest|].
  split; [by rewrite Hsub4|].
  (* the flags of the free events *)
  intros i e Hi He.
  destruct (decide (i = h)) as [->|Hih]; [congruence|].
  destruct (free_footprint _ _ _ _ _ Hrun4) as (_ & _ & _ & Hfp4).
  pose proof (linked_cons_inv _ _ _ _ _ Hl1) as (Hhd1 & _).
  assert (Hi_q : i ∉ concat chains) by by apply Hdisj.
  destruct (lookup_lt_is_Some_2 (event_pool c) i) as [ei0 Hei0];
    [by eapply linked_bound|].
  destruct (proj2 Hw1 i ei0 Hei0) as (ei1 & Hei1 & _ & Hnsi1 & _).
  assert (Hei2 : event_pool c2 !! i = Some ei1)
    by by rewrite (notify_submitted_frame c1 l1 c2 chains i Hq1 Hrun2 Hi_q).
  pose proof (Hmark3 i ei1 Hei2) as Hei3.
  destruct (Hfp4 i _ Hei3) as (ei4 & Hei4 & _ & Hkeep).
  assert (ei4 = e) as -> by congruence.
  destruct Hkeep as [Hnsi4 _]; [rewrite Hhd1; congruence|].
  rewrite Hnsi4. case_decide; simpl; rewrite Hnsi1; by eapply Hns.
Qed.

Lemma submit_collect_free_restores_free_list_witness :
  ∃ c1 l1 qs c2 c3 notes c4,
    insert_queries true 2 (fresh_context 4) (mk_event_list None None)
      = Done (c1, l1, qs) ∧
    iree_hal_cuda_tracing_notify_submitted c1 l1 = Done c2 ∧
    iree_hal_cuda_tracing_context_collect (device_failing_on 1) c2
      = Done (c3, notes) ∧
    iree_hal_cuda_tracing_free c3 l1 = Done (c4, mk_event_list None None, []) ∧
    cb_list (event_pool c4) (event_freelist_head c4) [0; 1; 2; 3] ∧
    head (submitted_event_list c4) = None.
Proof.
  destruct (submit_collect_free_restores_free_list true (device_failing_on 1)
              (fresh_context 4) [0; 1; 2; 3] [] 2)
    as (c1 & l1 & qs & c2 & c3 & notes & c4 & H1 & H2 & H3 & H4 & H5 & H6 & _).
  - vm_compute. repeat econstructor.
  - exists []. vm_compute. repeat econstructor.
  - intros i _ Hin. by apply elem_of_nil in Hin.
  - intros i e Hi. vm_compute in Hi.
    repeat (apply elem_of_cons in Hi as [->|Hi]; [by intros [= <-]|]).
    by apply elem_of_nil in Hi.
  - simpl. lia.
  - by exists c1, l1, qs, c2, c3, notes, c4.
Defined.

(** X6. On a context with at most 65536 slots whose free events all have
    [was_submitted] unset (allocation leaves them so; the early return of
    Free on an empty free list, in a build without assertions, can leave
    the mark on a free event, and then a discarded list is not reported):
    a command buffer that takes N events and is discarded without being
    submitted, while at least one other event is free.  The free reports a
    zero timestamp for each of the N query ids that the insertions
    returned, in insertion order, clears the handle and leaves the free
    list as it was before the first insertion, so that the next N
    insertions hand out the same ids again. *)
Theorem discard_reports_zero_and_restores_free_list
    (assertions : bool) (c : iree_hal_cuda_tracing_context_t)
    (fl : list nat) (N : nat) :
  cb_list (event_pool c) (event_freelist_head c) fl →
  (∀ i e, i ∈ fl → event_pool c !! i = Some e → was_submitted e = false) →
  (Z.of_nat (length (event_pool c)) ≤ 65536)%Z →
  0 < N < length fl →
  ∃ c1 l1 c2 c3 l3,
    let qs := Z.of_nat <$> take N fl in
    insert_queries assertions N c (mk_event_list None None)
      = Done (c1, l1, qs) ∧
    iree_hal_cuda_tracing_free c1 l1 =
      Done (c2, mk_event_list None None,
            (λ q, iree_tracing_gpu_zone_notify (id c) q 0) <$> qs) ∧
    cb_list (event_pool c2) (event_freelist_head c2) fl ∧
    submitted_event_list c2 = submitted_event_list c ∧
    insert_queries assertions N c2 (mk_event_list None None)
      = Done (c3, l3, qs).
Proof.
  intros Hfl Hws Hcap HN.
  assert (Hbound : ∀ i, i ∈ fl → i < length (event_pool c))
    by (intros i Hi; by eapply linked_bound).
  assert (Hids : (λ i, uint16_t (uint32_t (pool_index i))) <$> take N fl
                 = Z.of_nat <$> take N fl).
  { apply list_fmap_ext. intros k i Hk. apply uint16_t_query_id.
    assert (Hin : i ∈ fl)
      by (eapply elem_of_take_full; by eapply list_elem_of_lookup_2).
    specialize (Hbound i Hin). lia. }
  destruct (insert_queries_spec assertions N c (mk_event_list None None) fl [])
    as (c1 & l1 & Hrun1 & (Hid1 & _ & Hsub1 & _) & Hfree1 & Hl1 & Hw1); try done.
  { split; [constructor|done]. }
  { intros i Hi. by apply elem_of_nil in Hi. }
  { intros _. destruct assertions; lia. }
  simpl in Hl1, Hw1. rewrite Hids in Hrun1.
  pose proof (linked_NoDup _ _ _ _ Hfl) as Hnd.
  rewrite <- (take_drop N fl) in Hnd.
  apply NoDup_app in Hnd as (_ & Hsplit & _).
  destruct (take N fl) as [|h l] eqn:Hchain.
  { apply (f_equal length) in Hchain. rewrite length_take in Hchain.
    simpl in Hchain. lia. }
  destruct (drop N fl) as [|f fl'] eqn:Hrest.
  { apply (f_equal length) in Hrest. rewrite length_drop in Hrest.
    simpl in Hrest. lia. }
  assert (Hh : h ∈ fl).
  { rewrite <- (take_drop N fl), Hchain. by left. }
  destruct (lookup_lt_is_Some_2 (event_pool c) h (Hbound h Hh)) as [e0 He0].
  destruct (proj2 Hw1 h e0 He0) as (e1 & He1 & _ & _ & Hws1 & _).
  rewrite (Hws h e0 Hh He0) in Hws1.
  destruct (free_onto_nonempty_free_list c1 l1 h l f fl' e1)
    as (c2 & e2 & Hrun2 & (Hid2 & _ & Hsub2 & _) & Hfl2 & _); try done.
  rewrite Hws1 in Hrun2.
  assert (Hfl2' : cb_list (event_pool c2) (event_freelist_head c2) fl)
    by by rewrite <- (take_drop N fl), Hchain, Hrest.
  destruct (insert_queries_spec assertions N c2 (mk_event_list None None) fl [])
    as (c3 & l3 & Hrun3 & _); try done.
  { split; [constructor|done]. }
  { intros i Hi. by apply elem_of_nil in Hi. }
  { intros _. destruct assertions; lia. }
  rewrite Hchain, Hids in Hrun3.
  exists c1, l1, c2, c3, l3. cbn zeta.
  split; [exact Hrun1|]. split; [|split; [done|split; [congruence|exact Hrun3]]].
  rewrite Hrun2. do 3 f_equal.
  unfold zero_notifications. rewrite <- list_fmap_compose.
  apply list_fmap_ext. intros k i Hk. simpl. rewrite Hid1.
  f_equal. apply uint32_t_pool_index.
  assert (Hin : i ∈ fl).
  { rewrite <- (take_drop N fl), Hchain. apply elem_of_app. left.
    by eapply list_elem_of_lookup_2. }
  specialize (Hbound i Hin). lia.
Qed.

Lemma discard_reports_zero_and_restores_free_list_witness :
  ∃ c1 l1 c2 c3 l3,
    insert_queries true 2 (fresh_context 4) (mk_event_list None None)
      = Done (c1, l1, [0; 1]%Z) ∧
    iree_hal_cuda_tracing_free c1 l1 =
      Done (c2, mk_event_list None None,
            [iree_tracing_gpu_zone_notify 1 0 0;
             iree_tracing_gpu_zone_notify 1 1 0]) ∧
    cb_list (event_pool c2) (event_freelist_head c2) [0; 1; 2; 3] ∧
    insert_queries true 2 c2 (mk_event_list None None)
      = Done (c3, l3, [0; 1]%Z).
Proof.
  destruct (discard_reports_zero_and_restores_free_list true
              (fresh_context 4) [0; 1; 2; 3] 2)
    as (c1 & l1 & c2 & c3 & l3 & H1 & H2 & H3 & _ & H4).
  - vm_compute. repeat econstructor.
  - intros i e Hi. vm_compute in Hi.
    repeat (apply elem_of_cons in Hi as [->|Hi]; [by intros [= <-]|]).
    by apply elem_of_nil in Hi.
  - vm_compute. by intros [=].
  - simpl. lia.
  - by exists c1, l1, c2, c3, l3.
Defined.

(** * Zones *)

(** X7. A zone begun and ended at a verbosity the context traces, on a
    context with at least two free events and at most 65536 slots, and a
    command buffer list that shares no event with the free list.  The zone
    begin takes the first free event: the sink is told of a zone begin
    with that event's index as query id, under the context's zone id.  The
    zone end takes the second free event in the same way and the two
    events are appended to the command buffer's list in this order, except
    in a build with assertions when no third event is free: there the zone
    end stops at the assertion that one event must stay free.  Above the
    context's verbosity every zone call returns at once: no event is taken
    and the sink hears nothing. *)
Theorem zone_takes_two_events
    (assertions : bool) (c : iree_hal_cuda_tracing_context_t)
    (l : iree_hal_cuda_tracing_context_event_list_t)
    (f1 f2 : nat) (fl chain : list nat) (level : Z) :
  cb_list (event_pool c) (event_freelist_head c) (f1 :: f2 :: fl) →
  event_list_holds (event_pool c) l chain →
  (∀ i, i ∈ chain → i ∉ f1 :: f2 :: fl) →
  (level ≤ verbosity c)%Z →
  (Z.of_nat (length (event_pool c)) ≤ 65536)%Z →
  (∃ c1 l1,
     iree_hal_cuda_stream_tracing_zone_begin_impl assertions c l level
       = Done (c1, l1, [iree_tracing_gpu_zone_begin (id c) (Z.of_nat f1)]) ∧
     (assertions = true → fl = [] →
      iree_hal_cuda_stream_tracing_zone_end_impl assertions c1 l1 level
        = Fault AssertionFailure) ∧
     ((assertions = true → fl ≠ []) →
      ∃ c2 l2,
        iree_hal_cuda_stream_tracing_zone_end_impl assertions c1 l1 level
          = Done (c2, l2, [iree_tracing_gpu_zone_end (id c) (Z.of_nat f2)]) ∧
        event_list_holds (event_pool c2) l2 (chain ++ [f1; f2]) ∧
        cb_list (event_pool c2) (event_freelist_head c2) fl)) ∧
  (∀ level' node_added, (level' > verbosity c)%Z →
     iree_hal_cuda_stream_tracing_zone_begin_impl assertions c l level'
       = Done (c, l, []) ∧
     iree_hal_cuda_stream_tracing_zone_begin_external_impl assertions c l level'
       = Done (c, l, []) ∧
     iree_hal_cuda_graph_tracing_zone_begin_external_impl assertions
       node_added c l level' = Done (c, l, []) ∧
     iree_hal_cuda_stream_tracing_zone_end_impl assertions c l level'
       = Done (c, l, []) ∧
     iree_hal_cuda_graph_tracing_zone_end_impl assertions node_added c l level'
       = Done (c, l, [])).
Proof.
  intros Hfl Hl Hdisj Hlevel Hcap.
  assert (Hbound : ∀ i, i ∈ f1 :: f2 :: fl → (Z.of_nat i < 65536)%Z).
  { intros i Hi. pose proof (linked_bound _ _ _ _ i Hfl Hi). lia. }
  pose proof (linked_NoDup _ _ _ _ Hfl) as Hnd.
  apply NoDup_cons in Hnd as [Hf1 _].
  assert (Hgate : (level >? verbosity c)%Z = false) by lia.
  split.
  - destruct (insert_query_spec assertions c l f1 (f2 :: fl) chain)
      as (c1 & l1 & Hrun1 & (Hid1 & _ & _ & _ & Hv1) & Hfl1 & Hl1 & _);
      try done.
    rewrite uint16_t_query_id in Hrun1 by (apply Hbound; by left).
    exists c1, l1.
    unfold iree_hal_cuda_stream_tracing_zone_begin_impl,
      iree_hal_cuda_stream_tracing_zone_end_impl.
    rewrite Hv1, Hgate, Hrun1. outcome_step. rewrite Hid1.
    split; [done|]. split.
    + intros -> ->.
      apply linked_cons_inv in Hfl1 as (Hhead & e & He & Hnil).
      apply linked_empty_inv in Hnil.
      by rewrite (proj1 (insert_query_last_free_event_asserts
                           c1 l1 f2 e true Hhead He Hnil)).
    + intros Hroom.
      destruct (insert_query_spec assertions c1 l1 f2 fl (chain ++ [f1]))
        as (c2 & l2 & Hrun2 & (Hid2 & _) & Hfl2 & Hl2 & _); try done.
      { intros i Hi Hin. apply elem_of_app in Hi as [Hi|Hi].
        - apply (Hdisj i Hi). by right.
        - apply list_elem_of_singleton in Hi as ->. by apply Hf1. }
      rewrite uint16_t_query_id in Hrun2 by (apply Hbound; right; by left).
      exists c2, l2. rewrite Hrun2. outcome_step. rewrite Hid2, Hid1.
      split; [done|]. rewrite <- app_assoc in Hl2. done.
  - intros level' node_added Hlevel'.
    assert (Hgate' : (level' >? verbosity c)%Z = true) by lia.
    unfold iree_hal_cuda_stream_tracing_zone_begin_impl,
      iree_hal_cuda_stream_tracing_zone_begin_external_impl,
      iree_hal_cuda_graph_tracing_zone_begin_external_impl,
      iree_hal_cuda_stream_tracing_zone_end_impl,
      iree_hal_cuda_graph_tracing_zone_end_impl.
    by rewrite Hgate'.
Qed.

Lemma zone_takes_two_events_witness :
  (∃ c1 l1 c2 l2,
     iree_hal_cuda_stream_tracing_zone_begin_impl true (fresh_context 4)
       (mk_event_list None None) 1
       = Done (c1, l1, [iree_tracing_gpu_zone_begin 1 0]) ∧
     iree_hal_cuda_stream_tracing_zone_end_impl true c1 l1 1
       = Done (c2, l2, [iree_tracing_gpu_zone_end 1 1]) ∧
     event_list_holds (event_pool c2) l2 [0; 1]) ∧
  (∃ c1 l1,
     iree_hal_cuda_stream_tracing_zone_begin_impl true (fresh_context 2)
       (mk_event_list None None) 1
       = Done (c1, l1, [iree_tracing_gpu_zone_begin 1 0]) ∧
     iree_hal_cuda_stream_tracing_zone_end_impl true c1 l1 1
       = Fault AssertionFailure) ∧
  iree_hal_cuda_stream_tracing_zone_begin_impl true (fresh_context 4)
    (mk_event_list None None) 3
    = Done (fresh_context 4, mk_event_list None None, []).
Proof.
  destruct (zone_takes_two_events true (fresh_context 4)
              (mk_event_list None None) 0 1 [2; 3] [] 1)
    as [(c1 & l1 & H1 & _ & Hend) Hgate].
  { vm_compute. repeat econstructor. }
  { split; [constructor|done]. }
  { intros i Hi. by apply elem_of_nil in Hi. }
  { vm_compute. by intros [=]. }
  { vm_compute. by intros [=]. }
  destruct Hend as (c2 & l2 & H2 & H3 & _); [done|].
  destruct (zone_takes_two_events true (fresh_context 2)
              (mk_event_list None None) 0 1 [] [] 1)
    as [(d1 & m1 & G1 & Gfail & _) _].
  { vm_compute. repeat econstructor. }
  { split; [constructor|done]. }
  { intros i Hi. by apply elem_of_nil in Hi. }
  { vm_compute. by intros [=]. }
  { vm_compute. by intros [=]. }
  split; [by exists c1, l1, c2, l2|].
  split; [exists d1, m1; split; [exact G1|by apply Gfail]|].
  apply (Hgate 3%Z true). reflexivity.
Defined.

(** X8. The graph variants behave as the stream variants whenever the
    event-record node is added to the graph, and also when it is not added
    in a build without assertions (the failure is ignored and the event is
    handed out all the same).  In a build with assertions a node that
    cannot be added aborts the insertion, with events still free. *)
Theorem graph_variants_follow_stream
    (c : iree_hal_cuda_tracing_context_t)
    (l : iree_hal_cuda_tracing_context_event_list_t)
    (f1 f2 : nat) (fl : list nat) (level : Z) :
  cb_list (event_pool c) (event_freelist_head c) (f1 :: f2 :: fl) →
  (level ≤ verbosity c)%Z →
  (∀ assertions node_added, (assertions = true → node_added = true) →
     iree_hal_cuda_graph_tracing_context_insert_query assertions node_added c l
       = iree_hal_cuda_stream_tracing_context_insert_query assertions c l ∧
     iree_hal_cuda_graph_tracing_zone_begin_external_impl assertions
       node_added c l level
       = iree_hal_cuda_stream_tracing_zone_begin_external_impl assertions
           c l level ∧
     iree_hal_cuda_graph_tracing_zone_end_impl assertions node_added c l level
       = iree_hal_cuda_stream_tracing_zone_end_impl assertions c l level) ∧
  iree_hal_cuda_graph_tracing_context_insert_query true false c l
    = Fault AssertionFailure ∧
  iree_hal_cuda_graph_tracing_zone_begin_external_impl true false c l level
    = Fault AssertionFailure ∧
  iree_hal_cuda_graph_tracing_zone_end_impl true false c l level
    = Fault AssertionFailure.
Proof.
  intros Hfl Hlevel.
  assert (Hgate : (level >? verbosity c)%Z = false) by lia.
  split.
  - intros assertions node_added Hok.
    pose proof (graph_insert_query_as_stream assertions node_added c l Hok)
      as Heq.
    unfold iree_hal_cuda_graph_tracing_zone_begin_external_impl,
      iree_hal_cuda_stream_tracing_zone_begin_external_impl,
      iree_hal_cuda_graph_tracing_zone_end_impl,
      iree_hal_cuda_stream_tracing_zone_end_impl.
    by rewrite Heq.
  - assert (Hfault :
      iree_hal_cuda_graph_tracing_context_insert_query true false c l
        = Fault AssertionFailure).
    { apply linked_cons_inv in Hfl as (Hhead & e & He & Hrest).
      apply linked_cons_inv in Hrest as (Hnext & _).
      unfold iree_hal_cuda_graph_tracing_context_insert_query.
      rewrite Hhead, (load_Some _ _ _ He). outcome_step.
      rewrite Hnext. cbn [IREE_ASSERT andb negb bool_decide decide_rel].
      rewrite bool_decide_eq_true_2 by done. outcome_step.
      unfold set_event_freelist_head at 1. cbn [event_pool].
      rewrite (store_Some _ _ _ _ He). by outcome_step. }
    split; [exact Hfault|].
    unfold iree_hal_cuda_graph_tracing_zone_begin_external_impl,
      iree_hal_cuda_graph_tracing_zone_end_impl.
    by rewrite Hgate, Hfault.
Qed.

Lemma graph_variants_follow_stream_witness :
  iree_hal_cuda_graph_tracing_zone_end_impl false false (fresh_context 4)
    (mk_event_list None None) 1
  = iree_hal_cuda_stream_tracing_zone_end_impl false (fresh_context 4)
      (mk_event_list None None) 1 ∧
  iree_hal_cuda_graph_tracing_context_insert_query true false
    (fresh_context 4) (mk_event_list None None) = Fault AssertionFailure.
Proof.
  destruct (graph_variants_follow_stream (fresh_context 4)
              (mk_event_list None None) 0 1 [2; 3] 1)
    as (Hsame & Hfault & _).
  - vm_compute. repeat econstructor.
  - vm_compute. by intros [=].
  - split; [|exact Hfault]. by apply (Hsame false false).
Defined.

(** * A client that follows the protocol *)

(** A submission writes to the head of the last queued command buffer and
    to no other slot. *)
Lemma notify_submitted_frame_heads c l c' chains i :
  queue_holds c chains →
  iree_hal_cuda_tracing_notify_submitted c l = Done c' →
  (∀ l0, i :: l0 ∉ chains) →
  event_pool c' !! i = event_pool c !! i.
Proof.
  intros (heads & Hheads & Hchains & Htail).
  unfold iree_hal_cuda_tracing_notify_submitted.
  destruct (head l); [|by intros [= <-]].
  destruct (head (submitted_event_list c)) as [q|] eqn:Hq;
    [|by intros [= <-]].
  destruct heads as [|h0 hs]; [by apply linked_empty_inv in Hheads|].
  destruct (last (h0 :: hs)) as [t|] eqn:Hlast; [|by apply last_None in Hlast].
  rewrite Htail by done.
  destruct (store _ _ _) as [pool'|] eqn:Hstore; [|done].
  rewrite outcome_bind_Done. intros [= <-] Hi.
  cbn [event_pool set_submitted_event_list set_event_pool].
  unfold store in Hstore.
  destruct (event_pool c !! t) as [et|] eqn:Het; [|done].
  injection Hstore as <-.
  apply list_lookup_insert_ne. intros ->.
  assert (Hin : i ∈ h0 :: hs) by by eapply last_Some_elem_of.
  apply list_elem_of_lookup in Hin as [k Hk].
  destruct (Forall2_lookup_l _ _ _ _ _ Hchains Hk) as (lk & Hlk & Hcbk).
  inversion Hcbk; subst. eapply Hi. by eapply list_elem_of_lookup_2.
Qed.

(** The heads of the queue are the first events of the queued chains. *)
Lemma queue_heads pool heads chains h :
  Forall2 (λ h l, cb_list pool (Some h) l) heads chains →
  h ∈ heads ↔ ∃ l, h :: l ∈ chains.
Proof.
  induction 1 as [|h0 l0 heads chains Hh0 _ IH].
  - split; [by intros ?%elem_of_nil|]. by intros (l & ?%elem_of_nil).
  - rewrite elem_of_cons, IH. inversion Hh0; subst. split.
    + intros [->|(l1 & Hl1)]; [eexists; by left|]. exists l1. by right.
    + intros (l1 & Hl1). apply elem_of_cons in Hl1 as [[= -> _]|Hl1];
        [by left|]. right. by exists l1.
Qed.

(** The queue reads the slots of the queued chains only. *)
Lemma queue_holds_frame (c c' : iree_hal_cuda_tracing_context_t) chains :
  queue_holds c chains →
  submitted_event_list c' = submitted_event_list c →
  (∀ i, i ∈ concat chains → event_pool c' !! i = event_pool c !! i) →
  queue_holds c' chains.
Proof.
  intros (heads & Hheads & Hchains & Htail) Hsub Hframe.
  assert (Hin : ∀ h, h ∈ heads → h ∈ concat chains).
  { intros h Hh. apply (queue_heads _ _ _ _ Hchains) in Hh as (l & Hl).
    apply elem_of_concat. exists (h :: l). split; [done|by left]. }
  exists heads. rewrite Hsub. split; [|split; [|done]].
  - eapply linked_frame; [exact Hheads|].
    intros i e Hi He. exists e. by rewrite Hframe by by apply Hin.
  - clear Hheads Htail Hin.
    induction Hchains as [|h l heads chains Hh _ IH]; constructor.
    + eapply linked_frame; [exact Hh|].
      intros i e Hi He. exists e. split; [|done]. rewrite Hframe; [done|].
      simpl. apply elem_of_app. by left.
    + apply IH. intros i Hi. apply Hframe. simpl. apply elem_of_app. by right.
Qed.

Lemma elem_of_queued_chains (chain : nat → list nat) (q : list nat) i :
  i ∈ concat (chain <$> q) ↔ ∃ cb, cb ∈ q ∧ i ∈ chain cb.
Proof.
  rewrite elem_of_concat. split.
  - intros (l & Hl & Hi). apply list_elem_of_fmap in Hl as (cb & -> & Hcb).
    by exists cb.
  - intros (cb & Hcb & Hi). exists (chain cb). split; [|done].
    apply list_elem_of_fmap. by exists cb.
Qed.

Lemma NoDup_queued_chains (chain : nat → list nat) (q : list nat) :
  NoDup q → (∀ cb, NoDup (chain cb)) →
  (∀ cb cb' i, i ∈ chain cb → i ∈ chain cb' → cb = cb') →
  NoDup (concat (chain <$> q)).
Proof.
  intros Hq Hnd Hdisj. induction Hq as [|a q Ha Hq IH]; [constructor|].
  rewrite fmap_cons. cbn [concat]. apply NoDup_app. split; [done|].
  split; [|done]. intros i Hi Hin.
  apply elem_of_queued_chains in Hin as (cb & Hcb & Hicb).
  by rewrite (Hdisj a cb i Hi Hicb) in Ha.
Qed.

Lemma chains_unchanged (chain chain' : nat → list nat) (q : list nat) :
  (∀ cb, cb ∈ q → chain' cb = chain cb) → chain' <$> q = chain <$> q.
Proof.
  induction q as [|a q IH]; intros H; [done|].
  rewrite !fmap_cons, H by by left. f_equal. apply IH.
  intros cb Hcb. apply H. by right.
Qed.

(** Inserting a query into a recording command buffer: refused by the
    assertion when one event is left, else the first free event moves to
    the end of the command buffer's chain. *)
Lemma insert_query_lifecycle ph fl chain q s cb :
  lifecycle ph fl chain q s → ph cb = Recording →
  step true s (InsertQuery cb) = Fault AssertionFailure ∨
  ∃ f fl' s',
    fl = f :: fl' ∧
    step true s (InsertQuery cb) = Done s' ∧
    issued_by true s (InsertQuery cb)
      = [uint16_t (uint32_t (pool_index f))] ∧
    sink s' = sink s ∧
    length (event_pool (context s')) = length (event_pool (context s)) ∧
    lifecycle ph fl'
      (λ x, if decide (cb = x) then chain cb ++ [f] else chain x) q s'.
Proof.
  intros (Hfl & Hne & Hch & P1 & P2 & P3 & Hq & Hqnd & Hqph & F1 & F3) Hrec.
  destruct fl as [|f fl]; [done|].
  destruct fl as [|f' fl'].
  { left. apply linked_cons_inv in Hfl as (Hhead & e & He & Hnil).
    apply linked_empty_inv in Hnil. cbn [step].
    by rewrite (proj1 (insert_query_last_free_event_asserts
                         (context s) (list_of s cb) f e true Hhead He Hnil)). }
  right.
  pose proof (linked_NoDup _ _ _ _ Hfl) as Hnd.
  apply NoDup_cons in Hnd as [Hffl _].
  destruct (insert_query_spec true (context s) (list_of s cb) f (f' :: fl')
              (chain cb)) as (c' & l' & Hrun & Hhdr & Hfl' & Hl' & Hw);
    [done|done|by eauto|done|].
  exists f, (f' :: fl'), (mk_system c' (<[cb := l']> (lists s)) (sink s)).
  split; [done|]. cbn [step issued_by]. rewrite Hrun, outcome_bind_Done.
  split; [done|]. split; [done|]. split; [done|]. split; [apply Hw|].
  assert (Hflag : ∀ i e', event_pool c' !! i = Some e' →
            ∃ e, event_pool (context s) !! i = Some e ∧
                 next_submission e' = next_submission e ∧
                 was_submitted e' = was_submitted e).
  { intros i e' He'. destruct Hw as [Hlen Hw].
    destruct (lookup_lt_is_Some_2 (event_pool (context s)) i) as [e He].
    { rewrite <- Hlen. by eapply lookup_lt_Some. }
    destruct (Hw i e He) as (e'' & He'' & _ & Hns & Hws & _).
    exists e. assert (e'' = e') as -> by congruence. done. }
  assert (Hcbq : cb ∉ q).
  { intros Hin. apply Hqph in Hin as [Hin _]. congruence. }
  unfold lifecycle. cbn [context].
  split; [done|]. split; [done|].
  split; [|split; [|split; [|split; [|split; [|split; [|split; [|split]]]]]]].
  - intros x. rewrite list_of_insert. case_decide as Hx; [done|].
    destruct (Hch x) as [Hlx Htx]. split; [|done].
    eapply cb_list_writes_elsewhere; [done|done|].
    intros i Hi Hin. apply elem_of_cons in Hin as [->|Hin].
    + by apply (P1 x f Hi); left.
    + by apply Hx, (P2 cb x i).
  - intros x i Hi Hin. case_decide as Hx.
    + apply elem_of_app in Hi as [Hi|Hi].
      * apply (P1 cb i Hi). by right.
      * apply list_elem_of_singleton in Hi as ->. done.
    + apply (P1 x i Hi). by right.
  - intros x y i Hi Hj.
    assert (Hf : ∀ z, f ∉ chain z) by (intros z Hz; apply (P1 z f Hz); by left).
    destruct (decide (cb = x)) as [Hx|Hx], (decide (cb = y)) as [Hy|Hy];
      try congruence.
    + subst x.
      apply elem_of_app in Hi as [Hi|Hi]; [by apply (P2 cb y i)|].
      apply list_elem_of_singleton in Hi as ->. by destruct (Hf y).
    + subst y.
      apply elem_of_app in Hj as [Hj|Hj]; [by apply (P2 x cb i)|].
      apply list_elem_of_singleton in Hj as ->. by destruct (Hf x).
    + by apply (P2 x y i).
  - intros i Hi. destruct Hw as [Hlen _]. rewrite Hlen in Hi.
    destruct (P3 i Hi) as [Hin|(x & Hx)].
    + apply elem_of_cons in Hin as [->|Hin]; [|by left].
      right. exists cb. rewrite decide_True by done.
      apply elem_of_app. right. by left.
    + right. exists x. case_decide; [subst x|done].
      apply elem_of_app. by left.
  - rewrite (chains_unchanged chain).
    2: { intros x Hx. rewrite decide_False; [done|]. by intros ->. }
    eapply queue_holds_writes; [exact Hq|apply Hhdr|exact Hw|].
    intros i Hi Hin. apply elem_of_queued_chains in Hi as (x & Hx & Hix).
    apply elem_of_cons in Hin as [->|Hin].
    + apply (P1 x f Hix). by left.
    + apply Hcbq. by rewrite (P2 cb x i Hin Hix).
  - done.
  - intros x. rewrite Hqph. case_decide as Hx; [subst x|done].
    split; intros [H1 H2]; congruence.
  - intros i e' He' Hprem. destruct (Hflag i e' He') as (e & He & Hns & Hws).
    destruct (F1 i e He) as [H1 H2].
    { intros x l Hx Hcx. apply (Hprem x l Hx).
      rewrite decide_False; [done|]. intros ->. done. }
    split; congruence.
  - intros x h l e' Hx Hcx He'.
    destruct (decide (cb = x)) as [->|Hne']; [congruence|].
    destruct (Hflag h e' He') as (e & He & _ & Hws). rewrite Hws.
    by eapply F3.
Qed.

(** Submitting a recording command buffer: its chain, unless empty, goes to
    the end of the queue. *)
Lemma notify_submitted_lifecycle ph fl chain q s cb :
  lifecycle ph fl chain q s → ph cb = Recording →
  ∃ s',
    step true s (NotifySubmitted cb) = Done s' ∧
    sink s' = sink s ∧
    length (event_pool (context s')) = length (event_pool (context s)) ∧
    lifecycle (λ x, if decide (cb = x) then Queued else ph x) fl chain
      (if decide (chain cb = []) then q else q ++ [cb]) s'.
Proof.
  intros (Hfl & Hne & Hch & P1 & P2 & P3 & Hq & Hqnd & Hqph & F1 & F3) Hrec.
  assert (Hcbq : cb ∉ q).
  { intros Hin. apply Hqph in Hin as [Hin _]. congruence. }
  assert (Hph : ∀ x, ph x ≠ Recording →
            (if decide (cb = x) then Queued else ph x) = ph x).
  { intros x Hx. rewrite decide_False; [done|]. by intros ->. }
  destruct (chain cb) as [|h l] eqn:Hc.
  - destruct (Hch cb) as [Hl _]. rewrite Hc in Hl. apply linked_empty_inv in Hl.
    exists (mk_system (context s) (lists s) (sink s)).
    cbn [step]. rewrite (notify_submitted_empty _ _ Hl), outcome_bind_Done.
    split; [done|]. split; [done|]. split; [done|].
    rewrite decide_True by done.
    unfold lifecycle. cbn [context].
    split; [done|]. split; [done|]. split; [exact Hch|].
    split; [done|]. split; [done|]. split; [done|]. split; [done|].
    split; [done|]. split; [|split].
    + intros x. rewrite Hqph. case_decide as Hx; [subst x|done].
      split; [intros [H _]; congruence|intros [_ H]; congruence].
    + intros i e He Hprem. apply (F1 i e He).
      intros x l0 Hx. apply Hprem. by rewrite Hph.
    + intros x h l e Hx. case_decide; [done|]. by apply F3.
  - pose proof (Hch cb) as Hcb. rewrite Hc in Hcb.
    pose proof Hcb as [Hl0 _].
    apply linked_cons_inv in Hl0 as (_ & eh & Heh & _).
    destruct (F1 h eh Heh) as [Hns _].
    { intros x l0 Hx Hcx. assert (x = cb) as ->; [|done].
      apply (P2 x cb h); [rewrite Hcx; by left|rewrite Hc; by left]. }
    destruct (notify_submitted_spec (context s) (list_of s cb) h l
                (chain <$> q) eh)
      as (c' & Hrun & Hq' & Hfree' & _ & _ & Hsame & Hcb');
      [done|done|done|done| |].
    { intros i Hi Hin. apply elem_of_queued_chains in Hin as (x & Hx & Hix).
      apply Hcbq. rewrite <- Hc in Hi. by rewrite (P2 cb x i Hi Hix). }
    assert (Hframe : ∀ i, (∀ x l0, x ∈ q → chain x ≠ i :: l0) →
              event_pool c' !! i = event_pool (context s) !! i).
    { intros i Hprem.
      eapply notify_submitted_frame_heads; [exact Hq|exact Hrun|].
      intros l0 Hin. apply list_elem_of_fmap in Hin as (x & Hx & Hxq).
      by apply (Hprem x l0). }
    exists (mk_system c' (lists s) (sink s)).
    cbn [step]. rewrite Hrun, outcome_bind_Done.
    split; [done|]. split; [done|]. split; [by apply same_events_length|].
    rewrite decide_False by done.
    unfold lifecycle. cbn [context].
    split. { rewrite Hfree'. by apply Hcb'. }
    split; [done|].
    split. { intros x. destruct (Hch x) as [Hlx Htx].
             split; [by apply Hcb'|done]. }
    split; [done|]. split; [done|].
    split. { intros i Hi. apply P3.
             by rewrite <- (same_events_length _ _ Hsame). }
    split. { rewrite fmap_app. simpl. by rewrite Hc. }
    split. { apply NoDup_app. split; [done|]. split; [|apply NoDup_singleton].
             by intros x Hx ->%list_elem_of_singleton. }
    split.
    { intros x. rewrite elem_of_app, list_elem_of_singleton, Hqph.
      case_decide as Hx.
      - subst x. split; [intros _; split; [done|by rewrite Hc]|by right].
      - split; [intros [H|H]; [done|congruence]|by left]. }
    split.
    + intros i e' He' Hprem. rewrite Hframe in He'.
      * apply (F1 i e' He'). intros x l0 Hx. apply Hprem. by rewrite Hph.
      * intros x l0 Hx. apply Hprem. apply Hqph in Hx as [Hx _].
        case_decide; congruence.
    + intros x h' l' e' Hx Hcx He'.
      destruct (decide (cb = x)) as [->|Hne']; [done|].
      rewrite Hframe in He'; [by eapply F3|].
      intros y l0 Hy Hcy. apply Hqph in Hy as [Hy _].
      assert (y = x) as ->; [|congruence].
      apply (P2 y x h'); [rewrite Hcy; by left|rewrite Hcx; by left].
Qed.

(** Collecting, whatever the device answers: every queued chain is
    reported up to its first unresolved event and leaves the queue. *)
Lemma collect_lifecycle ph fl chain q s symbols :
  lifecycle ph fl chain q s →
  ∃ s',
    step true s (Collect symbols) = Done s' ∧
    sink s' = sink s ++
      omap (notification symbols (id (context s)) (base_event (context s))
              (event_pool (context s)))
        (concat (resolved_prefix symbols (event_pool (context s))
                   <$> (chain <$> q))) ∧
    length (event_pool (context s')) = length (event_pool (context s)) ∧
    lifecycle (λ x, if decide (ph x = Queued) then Collected else ph x)
      fl chain [] s'.
Proof.
  intros (Hfl & Hne & Hch & P1 & P2 & P3 & Hq & Hqnd & Hqph & F1 & F3).
  destruct (collect_spec symbols (context s) _ Hq)
    as (c' & heads & Hrun & Hhead & Hfree & _ & _ & Hheads & Hlen & Hmark).
  assert (Hcb : ∀ p l0, cb_list (event_pool (context s)) p l0 →
                        cb_list (event_pool c') p l0).
  { intros p l0 Hl0. eapply linked_frame; [exact Hl0|].
    intros i ei _ Hei. rewrite (Hmark i ei Hei). eexists. split; [done|].
    by case_decide. }
  assert (Hhd : ∀ i, i ∈ heads ↔ ∃ x l0, x ∈ q ∧ chain x = i :: l0).
  { intros i. rewrite (queue_heads _ _ _ i Hheads). split.
    - intros (l0 & Hl0). apply list_elem_of_fmap in Hl0 as (x & Hx & Hxq).
      by exists x, l0.
    - intros (x & l0 & Hx & Hcx). exists l0. apply list_elem_of_fmap.
      by exists x. }
  assert (Hold : ∀ i e', event_pool c' !! i = Some e' →
                 ∃ e, event_pool (context s) !! i = Some e).
  { intros i e' He'. apply lookup_lt_is_Some_2. rewrite <- Hlen.
    by eapply lookup_lt_Some. }
  eexists (mk_system c' (lists s) (sink s ++ _)).
  cbn [step]. rewrite Hrun, outcome_bind_Done.
  split; [done|]. split; [done|]. split; [done|].
  unfold lifecycle. cbn [context].
  split. { rewrite Hfree. by apply Hcb. }
  split; [done|].
  split. { intros x. destruct (Hch x). split; [by apply Hcb|done]. }
  split; [done|]. split; [done|].
  split. { intros i Hi. apply P3. by rewrite <- Hlen. }
  split. { exists []. rewrite Hhead. split; [constructor|].
           split; [constructor|done]. }
  split; [constructor|].
  split. { intros x. split; [by intros ?%elem_of_nil|]. intros [Hx _].
           case_decide; congruence. }
  split.
  - intros i e' He' Hprem. destruct (Hold i e' He') as [e He].
    rewrite (Hmark i e He) in He'. rewrite decide_False in He'.
    2: { rewrite Hhd. intros (x & l0 & Hx & Hcx). apply (Hprem x l0); [|done].
         apply Hqph in Hx as [Hx _]. by rewrite decide_True by done. }
    injection He' as <-. apply (F1 i e He).
    intros x l0 Hx. apply Hprem. by case_decide.
  - intros x h l e' Hx Hcx He'. destruct (Hold h e' He') as [e He].
    rewrite (Hmark h e He) in He'.
    destruct (decide (h ∈ heads)) as [Hin|Hin]; injection He' as <-; [done|].
    destruct (decide (ph x = Queued)) as [Hxq|Hxq].
    + exfalso. apply Hin, Hhd. exists x, l. split; [|done].
      apply Hqph. split; [done|]. by rewrite Hcx.
    + by eapply F3.
Qed.

(** Freeing the list of a command buffer that is not queued: a list that
    was never submitted is reported with zero timestamps, a collected one
    is not reported again; either way the chain returns to the front of
    the free list. *)
Lemma free_lifecycle ph fl chain q s cb :
  lifecycle ph fl chain q s → ph cb ≠ Queued →
  ∃ s',
    step true s (Free cb) = Done s' ∧
    sink s' = sink s ++
      (if decide (ph cb = Recording)
       then zero_notifications (id (context s)) (chain cb) else []) ∧
    length (event_pool (context s')) = length (event_pool (context s)) ∧
    lifecycle (λ x, if decide (cb = x) then Recording else ph x)
      (chain cb ++ fl) (λ x, if decide (cb = x) then [] else chain x) q s'.
Proof.
  intros (Hfl & Hne & Hch & P1 & P2 & P3 & Hq & Hqnd & Hqph & F1 & F3) Hnq.
  assert (Hcbq : cb ∉ q).
  { intros Hin. by apply Hqph in Hin as [Hin _]. }
  assert (Hchains : (λ x, if decide (cb = x) then [] else chain x) <$> q
                    = chain <$> q).
  { apply chains_unchanged. intros x Hx. rewrite decide_False; [done|].
    by intros ->. }
  assert (Hphases : ∀ x, x ∈ q ↔
            (if decide (cb = x) then Recording else ph x) = Queued ∧
            (if decide (cb = x) then [] else chain x) ≠ []).
  { intros x. rewrite Hqph. destruct (decide (cb = x)) as [<-|Hx]; [|done].
    split; by intros [? _]. }
  assert (Hdisj : ∀ x y i,
            i ∈ (if decide (cb = x) then [] else chain x) →
            i ∈ (if decide (cb = y) then [] else chain y) → x = y).
  { intros x y i. destruct (decide (cb = x)), (decide (cb = y));
      try by intros ?%elem_of_nil.
    - by intros _ ?%elem_of_nil.
    - apply P2. }
  destruct (chain cb) as [|h l] eqn:Hc.
  - destruct (Hch cb) as [Hl _]. rewrite Hc in Hl. apply linked_empty_inv in Hl.
    eexists (mk_system (context s) (<[cb := list_of s cb]> (lists s))
               (sink s ++ [])).
    cbn [step]. unfold iree_hal_cuda_tracing_free.
    rewrite Hl, outcome_bind_Done.
    split; [done|]. split; [cbn [sink]; by destruct (decide _)|].
    split; [done|].
    unfold lifecycle. cbn [context]. simpl app.
    split; [done|]. split; [done|].
    split.
    { intros x. rewrite list_of_insert.
      destruct (decide (cb = x)) as [<-|Hx]; [|apply Hch].
      pose proof (Hch cb) as H. by rewrite Hc in H. }
    split.
    { intros x i. destruct (decide (cb = x)); [by intros ?%elem_of_nil|].
      apply P1. }
    split; [exact Hdisj|].
    split.
    { intros i Hi. destruct (P3 i Hi) as [?|(x & Hx)]; [by left|].
      right. exists x. rewrite decide_False; [done|].
      intros ->. rewrite Hc in Hx. by apply elem_of_nil in Hx. }
    split; [by rewrite Hchains|]. split; [done|]. split; [exact Hphases|].
    split.
    + intros i e He Hprem. apply (F1 i e He). intros x l0 Hx Hcx.
      destruct (decide (cb = x)) as [<-|Hne']; [by rewrite Hc in Hcx|].
      apply (Hprem x l0); by rewrite decide_False.
    + intros x h l e Hx Hcx He.
      destruct (decide (cb = x)) as [<-|Hne']; [done|]. by eapply F3.
  - destruct fl as [|f fl']; [done|].
    pose proof (Hch cb) as Hcb. rewrite Hc in Hcb. destruct Hcb as [Hl0 Ht0].
    destruct (lookup_lt_is_Some_2 (event_pool (context s)) h) as [e He].
    { eapply linked_bound; [exact Hl0|by left]. }
    destruct (free_onto_nonempty_free_list (context s) (list_of s cb)
                h l f fl' e)
      as (c' & e' & Hrun & Hhdr & Hfl' & He' & Hns' & Hws' & Hsame & Hframe);
      [done|done| |done|].
    { intros i Hi. apply (P1 cb). by rewrite Hc. }
    destruct (free_footprint _ _ _ _ _ Hrun) as (_ & _ & Hlen & Htouch).
    assert (Hhead : head (list_of s cb) = Some h).
    { by apply linked_cons_inv in Hl0 as [? _]. }
    rewrite Hhead in Htouch.
    assert (Hown : ∀ x l0, chain x = h :: l0 → x = cb).
    { intros x l0 Hcx.
      apply (P2 x cb h); [rewrite Hcx; by left|rewrite Hc; by left]. }
    assert (Hnotes :
      (if was_submitted e then []
       else zero_notifications (id (context s)) (h :: l))
      = (if decide (ph cb = Recording)
         then zero_notifications (id (context s)) (h :: l) else [])).
    { destruct (decide (ph cb = Recording)) as [Hr|Hr].
      - destruct (F1 h e He) as [_ ->]; [|done].
        intros x l0 Hx Hcx. by rewrite (Hown x l0 Hcx) in Hx.
      - rewrite (F3 cb h l e); [done| |done|done]. by destruct (ph cb). }
    eexists (mk_system c' (<[cb := mk_event_list None None]> (lists s))
               (sink s ++ _)).
    cbn [step]. rewrite Hrun, outcome_bind_Done.
    split; [done|]. split; [cbn [sink]; by rewrite Hnotes|]. split; [done|].
    unfold lifecycle. cbn [context].
    split; [done|]. split; [done|].
    split.
    { intros x. rewrite list_of_insert.
      destruct (decide (cb = x)) as [<-|Hx]; [split; [constructor|done]|].
      destruct (Hch x) as [Hlx Htx]. split; [|done].
      eapply linked_frame; [exact Hlx|].
      intros i ei Hi Hei. exists ei. split; [|done].
      rewrite Hframe; [done|]. rewrite <- Hc. intros Hin.
      by apply Hx, (P2 cb x i). }
    split.
    { intros x i. destruct (decide (cb = x)) as [<-|Hx];
        [by intros ?%elem_of_nil|].
      intros Hi Hin. apply elem_of_app in Hin as [Hin|Hin].
      - rewrite <- Hc in Hin. by apply Hx, (P2 cb x i).
      - by apply (P1 x i). }
    split; [exact Hdisj|].
    split.
    { intros i Hi. rewrite Hlen in Hi.
      destruct (P3 i Hi) as [Hin|(x & Hx)].
      - left. apply elem_of_app. by right.
      - destruct (decide (cb = x)) as [<-|Hne'].
        + left. apply elem_of_app. left. by rewrite <- Hc.
        + right. exists x. by rewrite decide_False. }
    split.
    { rewrite Hchains. eapply queue_holds_frame; [exact Hq|apply Hhdr|].
      intros i Hi. apply Hframe. rewrite <- Hc. intros Hin.
      apply elem_of_queued_chains in Hi as (x & Hx & Hix).
      apply Hcbq. by rewrite (P2 cb x i Hin Hix). }
    split; [done|]. split; [exact Hphases|].
    split.
    + intros i e1 He1 Hprem.
      destruct (decide (i = h)) as [->|Hih].
      { assert (e1 = e') as -> by congruence. by split. }
      assert (Hold : ∀ x l0, ph x ≠ Recording → chain x ≠ i :: l0).
      { intros x l0 Hx Hcx. destruct (decide (cb = x)) as [<-|Hne'].
        - rewrite Hc in Hcx. congruence.
        - apply (Hprem x l0); by rewrite decide_False. }
      destruct (lookup_lt_is_Some_2 (event_pool (context s)) i) as [e0 He0].
      { rewrite <- Hlen. by eapply lookup_lt_Some. }
      destruct (Htouch i e0 He0) as (e2 & He2 & _ & Hflags).
      assert (e2 = e1) as -> by congruence.
      destruct Hflags as [Hn Hw]; [by intros [= ->]|].
      destruct (F1 i e0 He0 Hold) as [H1 H2]. split; congruence.
    + intros x h' l' e1 Hx Hcx He1.
      destruct (decide (cb = x)) as [<-|Hne']; [done|].
      rewrite Hframe in He1; [by eapply F3|].
      rewrite <- Hc. intros Hin. apply Hne', (P2 cb x h'); [done|].
      rewrite Hcx. by left.
Qed.

(** ** Counting reports against issued ids *)

Lemma count_occ_slots (l : list nat) (i : nat) :
  NoDup l →
  count_occ Z.eq_dec (Z.of_nat <$> l) (Z.of_nat i)
  = if decide (i ∈ l) then 1 else 0.
Proof.
  induction 1 as [|j l Hj Hl IH]; [done|].
  rewrite fmap_cons. cbn [count_occ]. rewrite IH.
  destruct (Z.eq_dec (Z.of_nat j) (Z.of_nat i)) as [Heq|Hneq].
  - apply Nat2Z.inj in Heq as ->.
    rewrite decide_False by done. rewrite decide_True; [done|by left].
  - destruct (decide (i ∈ l)) as [Hin|Hin].
    + rewrite decide_True; [done|by right].
    + rewrite decide_False; [done|].
      intros [->|?]%elem_of_cons; [by apply Hneq|done].
Qed.

Lemma notified_query_ids_app (a b : list sink_call) :
  notified_query_ids (a ++ b) = notified_query_ids a ++ notified_query_ids b.
Proof. unfold notified_query_ids. apply omap_app. Qed.

Lemma notified_query_ids_zero context_id (n : nat) (l : list nat) :
  (Z.of_nat n ≤ 65536)%Z → (∀ i, i ∈ l → i < n) →
  notified_query_ids (zero_notifications context_id l) = Z.of_nat <$> l.
Proof.
  intros Hcap. induction l as [|i l IH]; intros Hl; [done|].
  assert (Hi : i < n) by (apply Hl; by left).
  unfold zero_notifications. rewrite !fmap_cons.
  cbn [notified_query_ids omap list_omap].
  rewrite uint32_t_pool_index by lia. f_equal.
  apply IH. intros j Hj. apply Hl. by right.
Qed.

Lemma accounted_insert ph chain cb f reported handed_out :
  accounted ph chain reported handed_out →
  ph cb = Recording → (∀ x, f ∉ chain x) →
  accounted ph (λ x, if decide (cb = x) then chain cb ++ [f] else chain x)
    reported (handed_out ++ [Z.of_nat f]).
Proof.
  intros [Hrange Hacc] Hrec Hf. split.
  - intros z [Hz|Hz]; [apply Hrange; by left|].
    apply elem_of_app in Hz as [Hz|Hz]; [apply Hrange; by right|].
    apply list_elem_of_singleton in Hz as ->. lia.
  - intros i. rewrite count_occ_app. cbn [count_occ].
    destruct (Z.eq_dec (Z.of_nat f) (Z.of_nat i)) as [Heq|Hneq].
    + apply Nat2Z.inj in Heq as <-.
      destruct (Hacc f) as [H1 _].
      assert (Hfree : ∀ x, f ∈ chain x → ph x = Collected)
        by (intros x Hx; destruct (Hf x Hx)).
      specialize (H1 Hfree). split.
      * intros Hall. specialize (Hall cb). rewrite decide_True in Hall by done.
        rewrite Hall in Hrec; [done|]. apply elem_of_app. right. by left.
      * intros x Hx Hph. lia.
    + assert (Hif : i ≠ f) by congruence.
      destruct (Hacc i) as [H1 H2]. split.
      * intros Hall. rewrite H1; [lia|]. intros x Hx. apply Hall.
        destruct (decide (cb = x)) as [<-|]; [apply elem_of_app; by left|done].
      * intros x Hx Hph. rewrite <- (H2 x); [lia| |done].
        destruct (decide (cb = x)) as [<-|]; [|done].
        apply elem_of_app in Hx as [Hx|Hx]; [done|].
        by apply list_elem_of_singleton in Hx.
Qed.

Lemma accounted_notify ph chain cb reported handed_out :
  accounted ph chain reported handed_out → ph cb = Recording →
  accounted (λ x, if decide (cb = x) then Queued else ph x) chain
    reported handed_out.
Proof.
  intros [Hrange Hacc] Hrec. split; [done|].
  intros i. destruct (Hacc i) as [H1 H2]. split.
  - intros Hall. apply H1. intros x Hx. specialize (Hall x Hx).
    by destruct (decide (cb = x)).
  - intros x Hx Hph. apply (H2 x Hx).
    destruct (decide (cb = x)) as [<-|]; [congruence|done].
Qed.

Lemma accounted_collect ph chain q reported handed_out :
  accounted ph chain reported handed_out →
  NoDup (concat (chain <$> q)) →
  (∀ x, x ∈ q ↔ ph x = Queued ∧ chain x ≠ []) →
  (∀ x y i, i ∈ chain x → i ∈ chain y → x = y) →
  accounted (λ x, if decide (ph x = Queued) then Collected else ph x) chain
    (reported ++ (Z.of_nat <$> concat (chain <$> q))) handed_out.
Proof.
  intros [Hrange Hacc] Hnd Hqph P2. split.
  - intros z [Hz|Hz]; [|apply Hrange; by right].
    apply elem_of_app in Hz as [Hz|Hz]; [apply Hrange; by left|].
    apply list_elem_of_fmap in Hz as (i & -> & _). lia.
  - intros i. rewrite count_occ_app, (count_occ_slots _ _ Hnd).
    destruct (Hacc i) as [H1 H2].
    destruct (decide (i ∈ concat (chain <$> q))) as [Hin|Hin].
    + apply elem_of_queued_chains in Hin as (y & Hy & Hiy).
      pose proof (proj1 (Hqph y) Hy) as [Hyq _]. split.
      * intros _. rewrite <- (H2 y Hiy); [lia|congruence].
      * intros x Hx Hph. exfalso. rewrite (P2 x y i Hx Hiy) in Hph.
        by rewrite decide_True in Hph by done.
    + split.
      * intros Hall. rewrite <- H1; [lia|]. intros x Hx.
        specialize (Hall x Hx).
        destruct (decide (ph x = Queued)) as [Hxq|]; [|done].
        exfalso. apply Hin, elem_of_queued_chains. exists x. split; [|done].
        apply Hqph. split; [done|]. intros Hnil. rewrite Hnil in Hx.
        by apply elem_of_nil in Hx.
      * intros x Hx Hph. rewrite <- (H2 x Hx); [lia|].
        by destruct (decide (ph x = Queued)).
Qed.

Lemma accounted_free ph chain cb reported handed_out :
  accounted ph chain reported handed_out →
  ph cb ≠ Queued → NoDup (chain cb) →
  (∀ x y i, i ∈ chain x → i ∈ chain y → x = y) →
  accounted (λ x, if decide (cb = x) then Recording else ph x)
    (λ x, if decide (cb = x) then [] else chain x)
    (reported ++
       (if decide (ph cb = Recording) then Z.of_nat <$> chain cb else []))
    handed_out.
Proof.
  intros [Hrange Hacc] Hnq Hnd P2. split.
  - intros z [Hz|Hz]; [|apply Hrange; by right].
    apply elem_of_app in Hz as [Hz|Hz]; [apply Hrange; by left|].
    destruct (decide (ph cb = Recording)); [|by apply elem_of_nil in Hz].
    apply list_elem_of_fmap in Hz as (i & -> & _). lia.
  - intros i. rewrite count_occ_app. destruct (Hacc i) as [H1 H2].
    destruct (decide (i ∈ chain cb)) as [Hin|Hin].
    + split.
      * intros _. destruct (decide (ph cb = Recording)) as [Hr|Hr].
        -- rewrite (count_occ_slots _ _ Hnd), decide_True by done.
           rewrite <- (H2 cb Hin); [lia|congruence].
        -- cbn. rewrite H1; [lia|]. intros x Hx.
           rewrite <- (P2 cb x i Hin Hx). by destruct (ph cb).
      * intros x. destruct (decide (cb = x)) as [<-|Hne];
          [by intros ?%elem_of_nil|].
        intros Hx. destruct Hne. by apply (P2 cb x i).
    + assert (Hzero :
        count_occ Z.eq_dec
          (if decide (ph cb = Recording) then Z.of_nat <$> chain cb else [])
          (Z.of_nat i) = 0).
      { destruct (decide (ph cb = Recording)); [|done].
        by rewrite (count_occ_slots _ _ Hnd), decide_False. }
      rewrite Hzero. split.
      * intros Hall. rewrite H1; [lia|]. intros x Hx. specialize (Hall x).
        destruct (decide (cb = x)) as [<-|]; [done|by apply Hall].
      * intros x. destruct (decide (cb = x)) as [<-|Hne];
          [by intros ?%elem_of_nil|].
        intros Hx Hph. rewrite <- (H2 x Hx Hph). lia.
Qed.

(** ** From allocation on *)

Lemma allocate_lifecycle symbols stream_tracing_verbosity tracy_id memory c :
  iree_hal_cuda_tracing_context_allocate symbols stream_tracing_verbosity
    tracy_id memory = Some c →
  0 < length memory →
  lifecycle (λ _, Recording) (seq 0 (length memory)) (λ _, []) []
    (mk_system c ∅ []).
Proof.
  intros Halloc Hpos. unfold lifecycle. cbn [context].
  split; [by eapply allocate_free_list|].
  split; [destruct (length memory); [lia|done]|].
  split; [intros cb; split; [constructor|done]|].
  split; [intros cb i Hi; by apply elem_of_nil in Hi|].
  split; [intros cb cb' i Hi; by apply elem_of_nil in Hi|].
  split.
  { intros i Hi. left. apply elem_of_seq.
    rewrite (allocate_pool_length _ _ _ _ _ Halloc) in Hi. lia. }
  split.
  { exists []. destruct (allocate_inv _ _ _ _ _ Halloc) as (_ & -> & _).
    split; [constructor|]. split; [constructor|done]. }
  split; [constructor|].
  split; [intros cb; split; [by intros ?%elem_of_nil|by intros [? _]]|].
  split; [|done].
  intros i e He _.
  destruct (allocate_slots_clean _ _ _ _ _ i Halloc) as (e' & He' & Hc).
  { rewrite <- (allocate_pool_length _ _ _ _ _ Halloc).
    by eapply lookup_lt_Some. }
  by assert (e' = e) as -> by congruence.
Qed.

Lemma step_lifecycle ph ph' fl chain q s o :
  lifecycle ph fl chain q s → advance ph o = Some ph' →
  step true s o = Fault AssertionFailure ∨
  ∃ s' fl' chain' q',
    step true s o = Done s' ∧ lifecycle ph' fl' chain' q' s' ∧
    length (event_pool (context s')) = length (event_pool (context s)).
Proof.
  intros Hinv Hadv. destruct o as [cb|cb|symbols|cb]; cbn [advance] in Hadv.
  - destruct (decide (ph cb = Recording)) as [Hrec|]; [|done].
    injection Hadv as <-.
    destruct (insert_query_lifecycle _ _ _ _ _ cb Hinv Hrec)
      as [Hf|(f & fl' & s' & _ & Hstep & _ & _ & Hlen & Hinv')]; [by left|].
    right. by eexists s', fl', _, q.
  - destruct (decide (ph cb = Recording)) as [Hrec|]; [|done].
    injection Hadv as <-.
    destruct (notify_submitted_lifecycle _ _ _ _ _ cb Hinv Hrec)
      as (s' & Hstep & _ & Hlen & Hinv').
    right. by eexists s', fl, chain, _.
  - injection Hadv as <-.
    destruct (collect_lifecycle _ _ _ _ _ symbols Hinv)
      as (s' & Hstep & _ & Hlen & Hinv').
    right. by eexists s', fl, chain, [].
  - destruct (decide (ph cb = Queued)) as [|Hnq]; [done|].
    injection Hadv as <-.
    destruct (free_lifecycle _ _ _ _ _ cb Hinv Hnq)
      as (s' & Hstep & _ & Hlen & Hinv').
    right. by eexists s', _, _, q.
Qed.

Lemma step_accounted ph ph' fl chain q s o s' handed_out :
  lifecycle ph fl chain q s →
  (Z.of_nat (length (event_pool (context s))) ≤ 65536)%Z →
  advance ph o = Some ph' → on_completing_device o →
  accounted ph chain (notified_query_ids (sink s)) handed_out →
  step true s o = Done s' →
  ∃ fl' chain' q',
    lifecycle ph' fl' chain' q' s' ∧
    length (event_pool (context s')) = length (event_pool (context s)) ∧
    accounted ph' chain' (notified_query_ids (sink s'))
      (handed_out ++ issued_by true s o).
Proof.
  intros Hinv Hcap Hadv Hdev Hacc Hstep.
  pose proof Hinv
    as (Hfl & Hne & Hch & P1 & P2 & P3 & Hq & Hqnd & Hqph & F1 & F3).
  assert (Hchnd : ∀ x, NoDup (chain x)).
  { intros x. destruct (Hch x) as [H _]. by eapply linked_NoDup. }
  assert (Hbound : ∀ x i, i ∈ chain x →
            i < length (event_pool (context s))).
  { intros x i Hi. destruct (Hch x) as [H _]. by eapply linked_bound. }
  destruct o as [cb|cb|symbols|cb]; cbn [advance] in Hadv.
  - destruct (decide (ph cb = Recording)) as [Hrec|]; [|done].
    injection Hadv as <-.
    destruct (insert_query_lifecycle _ _ _ _ _ cb Hinv Hrec)
      as [Hf|(f & fl' & s1 & -> & Hstep1 & Hiss & Hsink & Hlen & Hinv')];
      [congruence|].
    assert (s1 = s') as -> by congruence.
    eexists fl', _, q. split; [exact Hinv'|]. split; [done|].
    rewrite Hsink, Hiss, uint16_t_query_id.
    2: { assert (f < length (event_pool (context s))); [|lia].
         eapply linked_bound; [exact Hfl|by left]. }
    apply accounted_insert; [done|done|].
    intros x Hx. apply (P1 x f Hx). by left.
  - destruct (decide (ph cb = Recording)) as [Hrec|]; [|done].
    injection Hadv as <-.
    destruct (notify_submitted_lifecycle _ _ _ _ _ cb Hinv Hrec)
      as (s1 & Hstep1 & Hsink & Hlen & Hinv').
    assert (s1 = s') as -> by congruence.
    eexists fl, chain, _. split; [exact Hinv'|]. split; [done|].
    rewrite Hsink. cbn [issued_by]. rewrite app_nil_r.
    by apply accounted_notify.
  - injection Hadv as <-.
    destruct (collect_lifecycle _ _ _ _ _ symbols Hinv)
      as (s1 & Hstep1 & Hsink & Hlen & Hinv').
    assert (s1 = s') as -> by congruence.
    exists fl, chain, []. split; [exact Hinv'|]. split; [done|].
    rewrite Hsink, notified_query_ids_app. cbn [issued_by].
    rewrite app_nil_r.
    assert (Hall : resolved_prefix symbols (event_pool (context s))
                     <$> (chain <$> q) = chain <$> q).
    { rewrite <- list_fmap_compose. apply chains_unchanged.
      intros x _. simpl. apply resolved_prefix_ready, Forall_forall.
      intros i Hi.
      destruct (lookup_lt_is_Some_2 (event_pool (context s)) i) as [e He];
        [by eapply Hbound|].
      exists e. split; [done|]. apply Hdev. }
    rewrite Hall, notified_query_ids_notifications; [|done|].
    2: { intros i Hi. apply elem_of_queued_chains in Hi as (x & _ & Hi).
         by eapply Hbound. }
    apply accounted_collect; [done| |done|done].
    by apply NoDup_queued_chains.
  - destruct (decide (ph cb = Queued)) as [|Hnq]; [done|].
    injection Hadv as <-.
    destruct (free_lifecycle _ _ _ _ _ cb Hinv Hnq)
      as (s1 & Hstep1 & Hsink & Hlen & Hinv').
    assert (s1 = s') as -> by congruence.
    eexists _, _, q. split; [exact Hinv'|]. split; [done|].
    rewrite Hsink, notified_query_ids_app. cbn [issued_by].
    rewrite app_nil_r.
    assert (Hids :
      notified_query_ids
        (if decide (ph cb = Recording)
         then zero_notifications (id (context s)) (chain cb) else [])
      = if decide (ph cb = Recording) then Z.of_nat <$> chain cb else []).
    { destruct (decide _); [|done].
      eapply notified_query_ids_zero; [exact Hcap|]. intros i. apply Hbound. }
    rewrite Hids. by apply accounted_free.
Qed.

(** X9. In a build with assertions, a client of a freshly allocated
    context that follows the protocol (it records into, submits, collects
    and frees event lists in this order, and may free a list it never
    submitted) never reads through a null or stray pointer and never loops
    for ever, whatever the device answers: every operation returns, or an
    insertion stops at the assertion that one event must stay free.  After
    the run the free list and the event lists still partition the pool and
    the submission queue is well formed. *)
Theorem protocol_client_is_memory_safe
    symbols stream_tracing_verbosity tracy_id memory c ops :
  iree_hal_cuda_tracing_context_allocate symbols stream_tracing_verbosity
    tracy_id memory = Some c →
  0 < length memory →
  follows_protocol (λ _, Recording) ops = true →
  run true (mk_system c ∅ []) ops = Fault AssertionFailure ∨
  ∃ s ph fl chain q,
    run true (mk_system c ∅ []) ops = Done s ∧ lifecycle ph fl chain q s.
Proof.
  intros Halloc Hpos Hproto.
  pose proof (allocate_lifecycle _ _ _ _ _ Halloc Hpos) as Hinit.
  assert (Hgen : ∀ ops ph fl chain q s,
            lifecycle ph fl chain q s → follows_protocol ph ops = true →
            run true s ops = Fault AssertionFailure ∨
            ∃ s' ph' fl' chain' q',
              run true s ops = Done s' ∧ lifecycle ph' fl' chain' q' s').
  { clear. induction ops as [|o ops IH]; intros ph fl chain q s Hinv Hp.
    - right. by exists s, ph, fl, chain, q.
    - cbn [follows_protocol] in Hp.
      destruct (advance ph o) as [ph1|] eqn:Hadv; [|done].
      cbn [run].
      destruct (step_lifecycle _ _ _ _ _ _ _ Hinv Hadv)
        as [Hf|(s1 & fl1 & chain1 & q1 & Hstep & Hinv1 & _)].
      + left. by rewrite Hf.
      + rewrite Hstep, outcome_bind_Done. by eapply IH. }
  by eapply Hgen.
Qed.

Lemma protocol_client_is_memory_safe_witness :
  run true (mk_system (fresh_context 4) ∅ [])
    [InsertQuery 0; InsertQuery 0; NotifySubmitted 0; InsertQuery 1;
     Collect (device_failing_on 1); Free 0; Free 1; InsertQuery 0]
    = Fault AssertionFailure ∨
  ∃ s ph fl chain q,
    run true (mk_system (fresh_context 4) ∅ [])
      [InsertQuery 0; InsertQuery 0; NotifySubmitted 0; InsertQuery 1;
       Collect (device_failing_on 1); Free 0; Free 1; InsertQuery 0]
      = Done s ∧ lifecycle ph fl chain q s.
Proof.
  apply (protocol_client_is_memory_safe ready_device 2 1 (raw_memory 4)).
  - reflexivity.
  - simpl. lia.
  - reflexivity.
Defined.

(** X10. Exactly-once reporting.  In a build with assertions, on devices
    that complete every event, a client that follows the protocol gets one
    timestamp report per query id it was handed, for every event that is
    back on the free list: the id has been reported exactly as often as it
    was issued.  Once all events are back on the free list, the reported
    ids are the issued ids, up to order. *)
Theorem every_issued_query_is_reported_once
    symbols stream_tracing_verbosity tracy_id memory c ops s fl :
  iree_hal_cuda_tracing_context_allocate symbols stream_tracing_verbosity
    tracy_id memory = Some c →
  0 < length memory → (Z.of_nat (length memory) ≤ 65536)%Z →
  follows_protocol (λ _, Recording) ops = true →
  Forall on_completing_device ops →
  run true (mk_system c ∅ []) ops = Done s →
  cb_list (event_pool (context s)) (event_freelist_head (context s)) fl →
  (∀ i, i ∈ fl →
     count_occ Z.eq_dec (notified_query_ids (sink s)) (Z.of_nat i)
     = count_occ Z.eq_dec (issued true (mk_system c ∅ []) ops) (Z.of_nat i)) ∧
  (length fl = length memory →
     notified_query_ids (sink s) ≡ₚ issued true (mk_system c ∅ []) ops).
Proof.
  intros Halloc Hpos Hcap Hproto Hdev Hrun Hfl.
  pose proof (allocate_lifecycle _ _ _ _ _ Halloc Hpos) as Hinit.
  pose proof (allocate_pool_length _ _ _ _ _ Halloc) as Hlen0.
  assert (Hgen : ∀ ops ph fl chain q s handed_out s',
            lifecycle ph fl chain q s →
            (Z.of_nat (length (event_pool (context s))) ≤ 65536)%Z →
            follows_protocol ph ops = true →
            Forall on_completing_device ops →
            accounted ph chain (notified_query_ids (sink s)) handed_out →
            run true s ops = Done s' →
            ∃ ph' fl' chain' q',
              lifecycle ph' fl' chain' q' s' ∧
              length (event_pool (context s'))
                = length (event_pool (context s)) ∧
              accounted ph' chain' (notified_query_ids (sink s'))
                (handed_out ++ issued true s ops)).
  { clear. induction ops as [|o ops IH];
      intros ph fl chain q s handed_out s' Hinv Hcap Hp Hdev Hacc Hrun.
    - cbn [run] in Hrun. injection Hrun as <-. cbn [issued].
      rewrite app_nil_r. by exists ph, fl, chain, q.
    - cbn [follows_protocol] in Hp.
      destruct (advance ph o) as [ph1|] eqn:Hadv; [|done].
      apply Forall_cons in Hdev as [Ho Hdev].
      cbn [run issued] in *.
      destruct (step true s o) as [s1|] eqn:Hstep; [|done].
      rewrite outcome_bind_Done in Hrun.
      destruct (step_accounted _ _ _ _ _ _ _ _ _ Hinv Hcap Hadv Ho Hacc Hstep)
        as (fl1 & chain1 & q1 & Hinv1 & Hlen1 & Hacc1).
      destruct (IH _ _ _ _ _ _ _ Hinv1 ltac:(by rewrite Hlen1) Hp Hdev
                  Hacc1 Hrun)
        as (ph2 & fl2 & chain2 & q2 & Hinv2 & Hlen2 & Hacc2).
      exists ph2, fl2, chain2, q2. split; [done|].
      split; [by rewrite Hlen2|]. by rewrite app_assoc. }
  destruct (Hgen ops _ _ _ _ _ [] s Hinit) as
    (ph & fl' & chain & q & Hinv & Hlen & [Hrange Hacc]); try done.
  { cbn [context]. by rewrite Hlen0. }
  { split; [by intros z [?%elem_of_nil|?%elem_of_nil]|].
    intros i. split; [done|]. by intros cb ?%elem_of_nil. }
  cbn [app context] in *.
  destruct Hinv as (Hfl' & _ & Hch & P1 & _).
  assert (fl' = fl) as -> by by eapply linked_functional.
  split.
  - intros i Hi. apply Hacc. intros cb Hcb. by destruct (P1 cb i Hcb).
  - intros Hfull. apply (Permutation_count_occ Z.eq_dec). intros z.
    destruct (decide (0 ≤ z)%Z) as [Hz|Hz].
    + rewrite <- (Z2Nat.id z) by done. apply Hacc.
      intros cb Hcb. exfalso. apply (P1 cb _ Hcb).
      assert (Hperm : fl ≡ₚ seq 0 (length memory)).
      { apply submseteq_length_Permutation; [|by rewrite length_seq, Hfull].
        apply NoDup_submseteq; [by eapply linked_NoDup|].
        intros j Hj. apply elem_of_seq.
        pose proof (linked_bound _ _ _ _ j Hfl Hj). lia. }
      rewrite Hperm. apply elem_of_seq.
      destruct (Hch cb) as [Hl _].
      pose proof (linked_bound _ _ _ _ _ Hl Hcb). lia.
    + rewrite (proj1 (count_occ_not_In Z.eq_dec _ z)),
        (proj1 (count_occ_not_In Z.eq_dec _ z)); [done| |].
      * intros Hin%list_elem_of_In. apply Hz, Hrange. by right.
      * intros Hin%list_elem_of_In. apply Hz, Hrange. by left.
Qed.

Lemma every_issued_query_is_reported_once_witness :
  ∃ s,
    run true (mk_system (fresh_context 4) ∅ [])
      [InsertQuery 0; InsertQuery 0; NotifySubmitted 0; InsertQuery 1;
       Collect ready_device; Free 0; InsertQuery 1; Free 1] = Done s ∧
    notified_query_ids (sink s) ≡ₚ
      issued true (mk_system (fresh_context 4) ∅ [])
        [InsertQuery 0; InsertQuery 0; NotifySubmitted 0; InsertQuery 1;
         Collect ready_device; Free 0; InsertQuery 1; Free 1].
Proof.
  eexists. split; [vm_compute; reflexivity|].
  apply (every_issued_query_is_reported_once ready_device 2 1
           (raw_memory 4) (fresh_context 4)
           [InsertQuery 0; InsertQuery 0; NotifySubmitted 0; InsertQuery 1;
            Collect ready_device; Free 0; InsertQuery 1; Free 1]
           _ [2; 0; 1; 3]).
  - reflexivity.
  - simpl. lia.
  - simpl. lia.
  - reflexivity.
  - repeat constructor; intros e; split; reflexivity.
  - vm_compute. reflexivity.
  - vm_compute. repeat econstructor.
  - reflexivity.
Defined.

(** * Teardown *)

Lemma resolved_prefix_bound symbols pool l i :
  i ∈ resolved_prefix symbols pool l → i < length pool.
Proof.
  induction l as [|j l IH]; simpl; [by intros ?%elem_of_nil|].
  destruct (device_ready_b symbols pool j) eqn:Hj;
    [|by intros ?%elem_of_nil].
  intros [->|Hi]%elem_of_cons; [|by apply IH].
  unfold device_ready_b in Hj.
  destruct (pool !! j) eqn:Hp; [|done]. by eapply lookup_lt_Some.
Qed.



(** * Submitting an event list twice *)

(** Once the head of a queued chain is its own successor in the queue, the
    outer loop of collect comes back to it on every round. *)
Lemma collect_submissions_self_loop symbols h l :
  ∀ fuel (c : iree_hal_cuda_tracing_context_t),
  cb_list (event_pool c) (Some h) (h :: l) →
  (∃ e, event_pool c !! h = Some e ∧ next_submission e = Some h) →
  collect_submissions symbols fuel c (Some h) = Fault Divergence.
Proof.
  induction fuel as [|fuel IH]; intros c Hl (e & He & Hnext); [done|].
  rewrite collect_submissions_unfold.
  rewrite (collect_events_spec symbols _ _ _ _ _ _ Hl)
    by (apply linked_length in Hl; lia).
  rewrite outcome_bind_Done, (load_Some _ _ _ He), outcome_bind_Done,
    (store_Some _ _ _ _ He), outcome_bind_Done.
  rewrite Hnext. rewrite IH; [done| |].
  - cbn [event_pool set_submitted_event_list set_event_pool].
    eapply linked_insert_same; [exact Hl|exact He|done].
  - cbn [event_pool set_submitted_event_list set_event_pool].
    exists (set_was_submitted true e). split; [|done].
    apply list_lookup_insert_eq. by eapply lookup_lt_Some.
Qed.

(** X12. An event list must not be submitted again before it has been
    collected.  When a non-empty list is submitted twice to an empty
    queue, both submissions return, but the second makes the head event
    its own successor in the queue: the loop over the queue in collect
    then never reaches the end, however many rounds it is given, and so
    neither collect nor the release of the context returns. *)
Theorem resubmitted_list_hangs_collect symbols c event_list h l :
  head (submitted_event_list c) = None →
  event_list_holds (event_pool c) event_list (h :: l) →
  ∃ c1 c2,
    iree_hal_cuda_tracing_notify_submitted c event_list = Done c1 ∧
    iree_hal_cuda_tracing_notify_submitted c1 event_list = Done c2 ∧
    (∀ fuel, collect_submissions symbols fuel c2
               (head (submitted_event_list c2)) = Fault Divergence) ∧
    iree_hal_cuda_tracing_context_collect symbols c2 = Fault Divergence ∧
    iree_hal_cuda_tracing_context_free symbols (Some c2) = Fault Divergence.
Proof.
  intros Hempty [Hl _].
  pose proof (linked_cons_inv _ _ _ _ _ Hl) as (Hhead & e & He & _).
  rewrite Hhead in Hl.
  exists (set_submitted_event_list (mk_event_list (Some h) (Some h)) c).
  eexists.
  unfold iree_hal_cuda_tracing_notify_submitted at 1.
  rewrite Hhead, Hempty. split; [done|].
  unfold iree_hal_cuda_tracing_notify_submitted at 1.
  rewrite Hhead.
  cbn [submitted_event_list set_submitted_event_list head tail event_pool].
  rewrite (store_Some _ _ _ _ He), outcome_bind_Done. split; [done|].
  assert (Hloop : ∀ fuel,
    collect_submissions symbols fuel
      (set_submitted_event_list (mk_event_list (Some h) (Some h))
         (set_event_pool (<[h := set_next_submission (Some h) e]> (event_pool c))
            (set_submitted_event_list (mk_event_list (Some h) (Some h)) c)))
      (Some h) = Fault Divergence).
  { intros fuel. apply (collect_submissions_self_loop symbols h l).
    - cbn [event_pool set_submitted_event_list set_event_pool].
      eapply linked_insert_same; [exact Hl|exact He|done].
    - cbn [event_pool set_submitted_event_list set_event_pool].
      exists (set_next_submission (Some h) e). split; [|done].
      apply list_lookup_insert_eq. by eapply lookup_lt_Some. }
  split; [exact Hloop|].
  assert (Hcollect :
    iree_hal_cuda_tracing_context_collect symbols
      (set_submitted_event_list (mk_event_list (Some h) (Some h))
         (set_event_pool (<[h := set_next_submission (Some h) e]> (event_pool c))
            (set_submitted_event_list (mk_event_list (Some h) (Some h)) c)))
    = Fault Divergence).
  { unfold iree_hal_cuda_tracing_context_collect.
    cbn [submitted_event_list set_submitted_event_list head].
    apply Hloop. }
  split; [exact Hcollect|].
  unfold iree_hal_cuda_tracing_context_free. by rewrite Hcollect.
Qed.

Lemma resubmitted_list_hangs_collect_witness :
  ∃ c1 c2,
    iree_hal_cuda_tracing_notify_submitted
      exhausted_context full_event_list = Done c1 ∧
    iree_hal_cuda_tracing_notify_submitted c1 full_event_list = Done c2 ∧
    iree_hal_cuda_tracing_context_collect ready_device c2 = Fault Divergence.
Proof.
  destruct (resubmitted_list_hangs_collect ready_device exhausted_context
              full_event_list 0 [1])
    as (c1 & c2 & H1 & H2 & _ & H3 & _).
  - reflexivity.
  - split; [vm_compute; repeat econstructor|done].
  - by exists c1, c2.
Defined.

(** * Devices that do not complete every event *)

Lemma resolved_prefix_sublist symbols pool l :
  resolved_prefix symbols pool l `sublist_of` l.
Proof.
  induction l as [|i l IH]; simpl; [done|].
  destruct (device_ready_b symbols pool i).
  - by apply sublist_skip.
  - apply sublist_nil_l.
Qed.

Lemma resolved_prefixes_sublist symbols pool (chains : list (list nat)) :
  concat (resolved_prefix symbols pool <$> chains) `sublist_of` concat chains.
Proof.
  induction chains as [|l ls IH]; [done|].
  rewrite fmap_cons. cbn [concat].
  apply sublist_app; [apply resolved_prefix_sublist|done].
Qed.

Lemma count_occ_resolved symbols pool (chains : list (list nat)) i :
  NoDup (concat chains) →
  count_occ Z.eq_dec
    (Z.of_nat <$> concat (resolved_prefix symbols pool <$> chains))
    (Z.of_nat i)
  ≤ if decide (i ∈ concat chains) then 1 else 0.
Proof.
  intros Hnd.
  pose proof (resolved_prefixes_sublist symbols pool chains) as Hsub.
  rewrite count_occ_slots by by eapply sublist_NoDup.
  destruct (decide (i ∈ concat (resolved_prefix symbols pool <$> chains)))
    as [Hin|Hin]; [|lia].
  rewrite decide_True; [done|]. by eapply elem_of_sublist.
Qed.

Lemma never_over_reported_insert ph chain cb f reported handed_out :
  never_over_reported ph chain reported handed_out →
  never_over_reported ph
    (λ x, if decide (cb = x) then chain cb ++ [f] else chain x)
    reported (handed_out ++ [Z.of_nat f]).
Proof.
  intros [Hrange Hacc]. split; [done|].
  intros i. rewrite count_occ_app. destruct (Hacc i) as [H1 H2].
  split; [lia|]. intros x Hx Hph. cbn [count_occ].
  destruct (Z.eq_dec (Z.of_nat f) (Z.of_nat i)) as [Heq|Hneq]; [lia|].
  assert (Hif : i ≠ f) by congruence.
  assert (Hold : i ∈ chain x).
  { destruct (decide (cb = x)) as [<-|]; [|done].
    apply elem_of_app in Hx as [Hx|Hx]; [done|].
    by apply list_elem_of_singleton in Hx. }
  specialize (H2 x Hold Hph). lia.
Qed.

Lemma never_over_reported_notify ph chain cb reported handed_out :
  never_over_reported ph chain reported handed_out → ph cb = Recording →
  never_over_reported (λ x, if decide (cb = x) then Queued else ph x) chain
    reported handed_out.
Proof.
  intros [Hrange Hacc] Hrec. split; [done|].
  intros i. destruct (Hacc i) as [H1 H2]. split; [done|].
  intros x Hx Hph. apply (H2 x Hx).
  destruct (decide (cb = x)) as [<-|]; [congruence|done].
Qed.

Lemma never_over_reported_collect symbols pool ph chain q
    reported handed_out :
  never_over_reported ph chain reported handed_out →
  NoDup (concat (chain <$> q)) →
  (∀ x, x ∈ q ↔ ph x = Queued ∧ chain x ≠ []) →
  (∀ x y i, i ∈ chain x → i ∈ chain y → x = y) →
  never_over_reported
    (λ x, if decide (ph x = Queued) then Collected else ph x) chain
    (reported ++
       (Z.of_nat <$> concat (resolved_prefix symbols pool <$> (chain <$> q))))
    handed_out.
Proof.
  intros [Hrange Hacc] Hnd Hqph P2. split.
  - intros z Hz. apply elem_of_app in Hz as [Hz|Hz]; [by apply Hrange|].
    apply list_elem_of_fmap in Hz as (i & -> & _). lia.
  - intros i. rewrite count_occ_app.
    pose proof (count_occ_resolved symbols pool (chain <$> q) i Hnd) as Hcount.
    destruct (Hacc i) as [H1 H2].
    destruct (decide (i ∈ concat (chain <$> q))) as [Hin|Hin].
    + apply elem_of_queued_chains in Hin as (y & Hy & Hiy).
      pose proof (proj1 (Hqph y) Hy) as [Hyq _].
      assert (Hy2 : ph y ≠ Collected) by congruence.
      specialize (H2 y Hiy Hy2). split; [lia|].
      intros x Hx Hph. exfalso. rewrite (P2 x y i Hx Hiy) in Hph.
      by rewrite decide_True in Hph by done.
    + split; [lia|]. intros x Hx Hph.
      assert (Hx2 : ph x ≠ Collected) by by destruct (decide (ph x = Queued)).
      specialize (H2 x Hx Hx2). lia.
Qed.

Lemma never_over_reported_free ph chain cb reported handed_out :
  never_over_reported ph chain reported handed_out →
  NoDup (chain cb) →
  (∀ x y i, i ∈ chain x → i ∈ chain y → x = y) →
  never_over_reported (λ x, if decide (cb = x) then Recording else ph x)
    (λ x, if decide (cb = x) then [] else chain x)
    (reported ++
       (if decide (ph cb = Recording) then Z.of_nat <$> chain cb else []))
    handed_out.
Proof.
  intros [Hrange Hacc] Hnd P2. split.
  - intros z Hz. apply elem_of_app in Hz as [Hz|Hz]; [by apply Hrange|].
    destruct (decide (ph cb = Recording)); [|by apply elem_of_nil in Hz].
    apply list_elem_of_fmap in Hz as (i & -> & _). lia.
  - intros i. rewrite count_occ_app. destruct (Hacc i) as [H1 H2].
    assert (Hcount :
      count_occ Z.eq_dec
        (if decide (ph cb = Recording) then Z.of_nat <$> chain cb else [])
        (Z.of_nat i)
      = if decide (ph cb = Recording ∧ i ∈ chain cb) then 1 else 0).
    { destruct (decide (ph cb = Recording)) as [Hr|Hr].
      - rewrite (count_occ_slots _ _ Hnd).
        destruct (decide (i ∈ chain cb)).
        + by rewrite decide_True.
        + rewrite decide_False; [done|]. by intros [_ ?].
      - rewrite decide_False; [done|]. by intros [? _]. }
    rewrite Hcount. clear Hcount. split.
    + destruct (decide (ph cb = Recording ∧ i ∈ chain cb)) as [[Hr Hin]|_];
        [|lia].
      assert (Hc : ph cb ≠ Collected) by congruence.
      specialize (H2 cb Hin Hc). lia.
    + intros x. destruct (decide (cb = x)) as [<-|Hne];
        [by intros ?%elem_of_nil|].
      intros Hx Hph. rewrite decide_False.
      * specialize (H2 x Hx Hph). lia.
      * intros [_ Hin]. by apply Hne, (P2 cb x i).
Qed.

Lemma step_never_over_reported ph ph' fl chain q s o s' handed_out :
  lifecycle ph fl chain q s →
  (Z.of_nat (length (event_pool (context s))) ≤ 65536)%Z →
  advance ph o = Some ph' →
  never_over_reported ph chain (notified_query_ids (sink s)) handed_out →
  step true s o = Done s' →
  ∃ fl' chain' q',
    lifecycle ph' fl' chain' q' s' ∧
    length (event_pool (context s')) = length (event_pool (context s)) ∧
    never_over_reported ph' chain' (notified_query_ids (sink s'))
      (handed_out ++ issued_by true s o).
Proof.
  intros Hinv Hcap Hadv Hacc Hstep.
  pose proof Hinv
    as (Hfl & Hne & Hch & P1 & P2 & P3 & Hq & Hqnd & Hqph & F1 & F3).
  assert (Hchnd : ∀ x, NoDup (chain x)).
  { intros x. destruct (Hch x) as [H _]. by eapply linked_NoDup. }
  assert (Hbound : ∀ x i, i ∈ chain x →
            i < length (event_pool (context s))).
  { intros x i Hi. destruct (Hch x) as [H _]. by eapply linked_bound. }
  destruct o as [cb|cb|symbols|cb]; cbn [advance] in Hadv.
  - destruct (decide (ph cb = Recording)) as [Hrec|]; [|done].
    injection Hadv as <-.
    destruct (insert_query_lifecycle _ _ _ _ _ cb Hinv Hrec)
      as [Hf|(f & fl' & s1 & -> & Hstep1 & Hiss & Hsink & Hlen & Hinv')];
      [congruence|].
    assert (s1 = s') as -> by congruence.
    eexists fl', _, q. split; [exact Hinv'|]. split; [done|].
    rewrite Hsink, Hiss, uint16_t_query_id.
    2: { assert (f < length (event_pool (context s))); [|lia].
         eapply linked_bound; [exact Hfl|by left]. }
    by apply never_over_reported_insert.
  - destruct (decide (ph cb = Recording)) as [Hrec|]; [|done].
    injection Hadv as <-.
    destruct (notify_submitted_lifecycle _ _ _ _ _ cb Hinv Hrec)
      as (s1 & Hstep1 & Hsink & Hlen & Hinv').
    assert (s1 = s') as -> by congruence.
    eexists fl, chain, _. split; [exact Hinv'|]. split; [done|].
    rewrite Hsink. cbn [issued_by]. rewrite app_nil_r.
    by apply never_over_reported_notify.
  - injection Hadv as <-.
    destruct (collect_lifecycle _ _ _ _ _ symbols Hinv)
      as (s1 & Hstep1 & Hsink & Hlen & Hinv').
    assert (s1 = s') as -> by congruence.
    exists fl, chain, []. split; [exact Hinv'|]. split; [done|].
    rewrite Hsink, notified_query_ids_app. cbn [issued_by].
    rewrite app_nil_r.
    rewrite notified_query_ids_notifications; [|done|].
    2: { intros i Hi. apply elem_of_concat in Hi as (l & Hl & Hi).
         apply list_elem_of_fmap in Hl as (l0 & -> & _).
         by eapply resolved_prefix_bound. }
    apply never_over_reported_collect; [done| |done|done].
    by apply NoDup_queued_chains.
  - destruct (decide (ph cb = Queued)) as [|Hnq]; [done|].
    injection Hadv as <-.
    destruct (free_lifecycle _ _ _ _ _ cb Hinv Hnq)
      as (s1 & Hstep1 & Hsink & Hlen & Hinv').
    assert (s1 = s') as -> by congruence.
    eexists _, _, q. split; [exact Hinv'|]. split; [done|].
    rewrite Hsink, notified_query_ids_app. cbn [issued_by].
    rewrite app_nil_r.
    assert (Hids :
      notified_query_ids
        (if decide (ph cb = Recording)
         then zero_notifications (id (context s)) (chain cb) else [])
      = if decide (ph cb = Recording) then Z.of_nat <$> chain cb else []).
    { destruct (decide _); [|done].
      eapply notified_query_ids_zero; [exact Hcap|]. intros i. apply Hbound. }
    rewrite Hids. by apply never_over_reported_free.
Qed.

(** X13. No duplicate and no invented reports, whatever the device
    answers.  In a build with assertions, a client of a freshly allocated
    context that follows the protocol never sees a query id reported more
    often than the id was handed out by an insertion (a device that does
    not complete an event makes reports go missing, never repeat). *)
Theorem no_query_is_reported_more_often_than_issued
    symbols stream_tracing_verbosity tracy_id memory c ops s :
  iree_hal_cuda_tracing_context_allocate symbols stream_tracing_verbosity
    tracy_id memory = Some c →
  0 < length memory → (Z.of_nat (length memory) ≤ 65536)%Z →
  follows_protocol (λ _, Recording) ops = true →
  run true (mk_system c ∅ []) ops = Done s →
  ∀ z, count_occ Z.eq_dec (notified_query_ids (sink s)) z
       ≤ count_occ Z.eq_dec (issued true (mk_system c ∅ []) ops) z.
Proof.
  intros Halloc Hpos Hcap Hproto Hrun z.
  pose proof (allocate_lifecycle _ _ _ _ _ Halloc Hpos) as Hinit.
  pose proof (allocate_pool_length _ _ _ _ _ Halloc) as Hlen0.
  assert (Hgen : ∀ ops ph fl chain q s handed_out s',
            lifecycle ph fl chain q s →
            (Z.of_nat (length (event_pool (context s))) ≤ 65536)%Z →
            follows_protocol ph ops = true →
            never_over_reported ph chain (notified_query_ids (sink s))
              handed_out →
            run true s ops = Done s' →
            ∃ ph' chain',
              never_over_reported ph' chain' (notified_query_ids (sink s'))
                (handed_out ++ issued true s ops)).
  { clear. induction ops as [|o ops IH];
      intros ph fl chain q s handed_out s' Hinv Hcap Hp Hacc Hrun.
    - cbn [run] in Hrun. injection Hrun as <-. cbn [issued].
      rewrite app_nil_r. by exists ph, chain.
    - cbn [follows_protocol] in Hp.
      destruct (advance ph o) as [ph1|] eqn:Hadv; [|done].
      cbn [run issued] in *.
      destruct (step true s o) as [s1|] eqn:Hstep; [|done].
      rewrite outcome_bind_Done in Hrun.
      destruct (step_never_over_reported _ _ _ _ _ _ _ _ _ Hinv Hcap Hadv
                  Hacc Hstep)
        as (fl1 & chain1 & q1 & Hinv1 & Hlen1 & Hacc1).
      destruct (IH _ _ _ _ _ _ _ Hinv1 ltac:(by rewrite Hlen1) Hp Hacc1 Hrun)
        as (ph2 & chain2 & Hacc2).
      exists ph2, chain2. by rewrite app_assoc. }
  destruct (Hgen ops _ _ _ _ _ [] s Hinit) as (ph & chain & [Hrange Hacc]);
    try done.
  { cbn [context]. by rewrite Hlen0. }
  { split; [by intros z' ?%elem_of_nil|]. intros i. split; [done|].
    by intros cb ?%elem_of_nil. }
  cbn [app] in *.
  destruct (decide (0 ≤ z)%Z) as [Hz|Hz].
  - rewrite <- (Z2Nat.id z) by done. apply Hacc.
  - rewrite (proj1 (count_occ_not_In Z.eq_dec _ z)); [lia|].
    intros Hin%list_elem_of_In. by apply Hz, Hrange.
Qed.

Lemma no_query_is_reported_more_often_than_issued_witness :
  ∃ s,
    run true (mk_system (fresh_context 4) ∅ [])
      [InsertQuery 0; InsertQuery 0; NotifySubmitted 0;
       Collect (device_failing_on 1); Free 0; InsertQuery 1; Free 1]
      = Done s ∧
    count_occ Z.eq_dec (notified_query_ids (sink s)) 1%Z
    ≤ count_occ Z.eq_dec
        (issued true (mk_system (fresh_context 4) ∅ [])
           [InsertQuery 0; InsertQuery 0; NotifySubmitted 0;
            Collect (device_failing_on 1); Free 0; InsertQuery 1; Free 1])
        1%Z.
Proof.
  eexists. split; [vm_compute; reflexivity|].
  apply (no_query_is_reported_more_often_than_issued ready_device 2 1
           (raw_memory 4) (fresh_context 4)
           [InsertQuery 0; InsertQuery 0; NotifySubmitted 0;
            Collect (device_failing_on 1); Free 0; InsertQuery 1; Free 1]).
  - reflexivity.
  - simpl. lia.
  - simpl. lia.
  - reflexivity.
  - vm_compute. reflexivity.
Defined.

(** * The capacity of the pool *)

(** X15. How many queries a pool of N events serves.  With assertions
    N - 1 insertions return, with the ids 0 .. N - 2 in this order, and N
    insertions stop at the assertion.  Without assertions N insertions
    return, with the ids 0 .. N - 1, and leave the free list empty; the
    next insertion reads through the null head of the free list. *)
Theorem pool_capacity_by_build
    symbols stream_tracing_verbosity tracy_id memory c :
  iree_hal_cuda_tracing_context_allocate symbols stream_tracing_verbosity
    tracy_id memory = Some c →
  0 < length memory → (Z.of_nat (length memory) ≤ 65536)%Z →
  (∃ c1 l1,
     insert_queries true (length memory - 1) c (mk_event_list None None)
       = Done (c1, l1, Z.of_nat <$> seq 0 (length memory - 1))) ∧
  insert_queries true (length memory) c (mk_event_list None None)
    = Fault AssertionFailure ∧
  ∃ c2 l2,
    insert_queries false (length memory) c (mk_event_list None None)
      = Done (c2, l2, Z.of_nat <$> seq 0 (length memory)) ∧
    event_freelist_head c2 = None ∧
    iree_hal_cuda_stream_tracing_context_insert_query false c2 l2
      = Fault NullDereference.
Proof.
  intros Halloc Hpos Hcap.
  pose proof (allocate_free_list _ _ _ _ _ Halloc Hpos) as Hfl.
  assert (Hempty : event_list_holds (event_pool c) (mk_event_list None None) []).
  { split; [constructor|done]. }
  assert (Hids : ∀ n, n ≤ length memory →
            (λ i, uint16_t (uint32_t (pool_index i)))
              <$> take n (seq 0 (length memory))
            = Z.of_nat <$> seq 0 n).
  { intros n Hn. rewrite take_seq, Nat.min_l by done.
    apply list_fmap_ext. intros k i Hk. apply uint16_t_query_id.
    apply list_elem_of_lookup_2, elem_of_seq in Hk. lia. }
  split; [|split].
  - destruct (insert_queries_spec true (length memory - 1) c
                (mk_event_list None None) (seq 0 (length memory)) [])
      as (c1 & l1 & Hrun & _); try done.
    { intros i Hi. by apply elem_of_nil in Hi. }
    { intros _. rewrite length_seq. lia. }
    exists c1, l1. rewrite Hrun, Hids by lia. done.
  - apply (insert_queries_exhaust (seq 0 (length memory)) _ _ _ []);
      try done.
    + intros i Hi. by apply elem_of_nil in Hi.
    + rewrite length_seq. lia.
  - destruct (insert_queries_spec false (length memory) c
                (mk_event_list None None) (seq 0 (length memory)) [])
      as (c2 & l2 & Hrun & _ & Hfree2 & _); try done.
    { intros i Hi. by apply elem_of_nil in Hi. }
    { intros _. rewrite length_seq. simpl. lia. }
    rewrite drop_ge in Hfree2 by (rewrite length_seq; lia).
    apply linked_empty_inv in Hfree2.
    exists c2, l2. rewrite Hrun, Hids by lia.
    split; [done|]. split; [done|].
    by apply (insert_query_empty_free_list_faults false c2 l2 true).
Qed.

Lemma pool_capacity_by_build_witness :
  (∃ c1 l1,
     insert_queries true 3 (fresh_context 4) (mk_event_list None None)
       = Done (c1, l1, [0; 1; 2]%Z)) ∧
  insert_queries true 4 (fresh_context 4) (mk_event_list None None)
    = Fault AssertionFailure.
Proof.
  destruct (pool_capacity_by_build ready_device 2 1 (raw_memory 4)
              (fresh_context 4)) as (H1 & H2 & _).
  - reflexivity.
  - simpl. lia.
  - simpl. lia.
  - split; [exact H1|exact H2].
Defined.
